(** * ProtoBuf.js: the .proto parser (ProtoBuf.DotProto.Parser)

    A shallow embedding of [Parser.prototype.*] and a verification of the
    parser's documented behaviour.  The parser is a recursive-descent consumer
    of a token stream.  Its two collaborators, the lexical grammar [Lang] and
    the [Tokenizer], are interfaces here: the parser is defined over any
    implementation of them, and the general theorems hold for every one.
    The concrete instances at the end of the definitions ([SpecLang],
    [SpecTokenizer]) follow the written specification and serve to run the
    parser on source text.

    Strings are sequences of characters in the ASCII range, Numbers are
    binary64 values, objects are dictionaries in insertion order.  Loops and
    nested calls take a bound (fuel); [OutOfFuel] is the only outcome that is
    not one of the JavaScript code. *)

From Stdlib Require Import String Ascii List ZArith Bool Lia DecimalString.
From Stdlib Require Import Floats.SpecFloat.
Import ListNotations.
Local Open Scope string_scope.
Local Open Scope Z_scope.

(* ================================================================== *)
(** * JavaScript values and built-ins used by the parser *)
(* ================================================================== *)

Module JS.

(** A Number is an IEEE-754 binary64 value. *)
Definition number : Type := spec_float.
Definition prec : Z := 53.
Definition emax : Z := 1024.

Definition NaN : number := S754_nan.

(** The Number value of a mathematical integer (round to nearest, ties to even). *)
Definition number_of_Z (z : Z) : number := binary_normalize prec emax z 0 false.

(** [x * y] on Numbers. *)
Definition mul (x y : number) : number := SFmul prec emax x y.

(** ToInt32, the conversion behind [x | 0]: truncate towards zero, reduce
    modulo 2^32, and read the result as a signed 32-bit integer. *)
Definition ToInt32 (x : number) : Z :=
  match x with
  | S754_finite s m e =>
      let mag := if 0 <=? e then Z.pos m * 2 ^ e else Z.pos m / 2 ^ (- e) in
      let int := if s then - mag else mag in
      let int32bit := int mod 2 ^ 32 in
      if int32bit <? 2 ^ 31 then int32bit else int32bit - 2 ^ 32
  | _ => 0
  end.

(** A token as the tokenizer hands it out: a string, or [null] at the end of
    the input. *)
Definition token : Type := option string.

(** Values stored in the syntax tree.  An object is a dictionary kept in
    insertion order. *)
#[warnings="-register-all"]
Inductive value : Type :=
| JUndefined
| JNull
| JBool (b : bool)
| JNum (x : number)
| JStr (s : string)
| JArr (elems : list value)
| JObj (props : list (string * value)).

Definition object : Type := list (string * value).

Definition of_token (t : token) : value :=
  match t with Some s => JStr s | None => JNull end.

Definition JInt (z : Z) : value := JNum (number_of_Z z).

(** ** Strings *)

Definition string_of_nat (n : nat) : string := NilEmpty.string_of_uint (Nat.to_uint n).

(** ToString of a token ([null] prints as the four letters). *)
Definition token_text (t : token) : string :=
  match t with Some s => s | None => "null" end.

Definition digits_of_Z (z : Z) : string := NilEmpty.string_of_uint (N.to_uint (Z.to_N z)).

Fixpoint zeros (n : nat) : string :=
  match n with O => EmptyString | S k => String "0" (zeros k) end.

(** [10^n <= p / q] for positive [p] and [q]. *)
Definition pow10_le (n p q : Z) : bool :=
  if 0 <=? n then 10 ^ n * q <=? p else q <=? p * 10 ^ (- n).

(** The Number nearest to [m * 10^e] for a non-negative integer [m]. *)
Definition number_of_decimal (m e : Z) : number :=
  if m =? 0 then S754_zero false
  else if ((0 <? e) && (1025 <=? Z.log2 m + 3 * e))%bool then S754_infinity false
  else if ((e <? 0) && (Z.log2 m + 1 + 3 * e <=? -1076))%bool then S754_zero false
  else if 0 <=? e then number_of_Z (m * 10 ^ e)
  else
    let q := 10 ^ (- e) in
    let k := Z.max 0 (Z.log2 q - Z.log2 m + 64) in
    let n := m * 2 ^ k in
    let sticky := if n mod q =? 0 then 0 else 1 in
    binary_normalize prec emax (2 * (n / q) + sticky) (- k - 1) false.

(** Number::toString, step 5: the least [k] and the digits [s] with
    [s * 10^(n-k)] reading back as [p / q]; among the [k]-digit candidates the
    one nearest to [p / q]. *)
Fixpoint shortest_digits (fuel : nat) (k n p q : Z) (x : number) : Z * Z * Z :=
  let num := p * 10 ^ Z.max (k - n) 0 in
  let den := q * 10 ^ Z.max (n - k) 0 in
  let lo := num / den in
  let r := num mod den in
  let back (s : Z) := SFeqb (number_of_decimal s (n - k)) x in
  let up := if lo + 1 =? 10 ^ k then (10 ^ (k - 1), n + 1) else (lo + 1, n) in
  let up_ok := (negb (r =? 0) && SFeqb (number_of_decimal (fst up) (snd up - k)) x)%bool in
  let lo_first := ((2 * r <? den) || ((2 * r =? den) && Z.even lo))%bool in
  match fuel with
  | O => (lo, k, n)
  | S fuel' =>
      if (back lo && (lo_first || negb up_ok))%bool then (lo, k, n)
      else if up_ok then (fst up, k, snd up)
      else shortest_digits fuel' (k + 1) n p q x
  end.

(** Number::toString (radix 10). *)
Definition Number_toString (x : number) : string :=
  match x with
  | S754_nan => "NaN"
  | S754_zero _ => "0"
  | S754_infinity s => if s then "-Infinity" else "Infinity"
  | S754_finite sg m e =>
      let p := Z.pos m * 2 ^ Z.max e 0 in
      let q := 2 ^ Z.max (- e) 0 in
      let est := (Z.log2 p - Z.log2 q) * 30103 / 100000 in
      let n := if pow10_le (est + 1) p q then est + 2
               else if pow10_le est p q then est + 1 else est in
      let '(s, k, n) := shortest_digits 17 1 n p q (S754_finite false m e) in
      let ds := digits_of_Z s in
      let body :=
        if ((k <=? n) && (n <=? 21))%bool then ds ++ zeros (Z.to_nat (n - k))
        else if ((0 <? n) && (n <=? 21))%bool then
          String.substring 0 (Z.to_nat n) ds ++ "." ++
          String.substring (Z.to_nat n) (Z.to_nat (k - n)) ds
        else if ((-6 <? n) && (n <=? 0))%bool then "0." ++ zeros (Z.to_nat (- n)) ++ ds
        else
          let ex := n - 1 in
          let tail := "e" ++ (if ex <? 0 then "-" else "+") ++ digits_of_Z (Z.abs ex) in
          if k =? 1 then ds ++ tail
          else String.substring 0 1 ds ++ "." ++
               String.substring 1 (Z.to_nat (k - 1)) ds ++ tail in
      if sg then "-" ++ body else body
  end.

(** ToString. *)
Fixpoint ToString (v : value) : string :=
  match v with
  | JUndefined => "undefined"
  | JNull => "null"
  | JBool true => "true"
  | JBool false => "false"
  | JStr s => s
  | JNum x => Number_toString x
  | JArr l =>
      (fix join (l : list value) : string :=
         let elem (v : value) :=
           match v with JUndefined | JNull => EmptyString | _ => ToString v end in
         match l with
         | [] => EmptyString
         | [v] => elem v
         | v :: r => elem v ++ "," ++ join r
         end) l
  | JObj _ => "[object Object]"
  end.

Definition is_upper (c : ascii) : bool :=
  let n := nat_of_ascii c in (Nat.leb 65 n && Nat.leb n 90)%bool.
Definition is_lower (c : ascii) : bool :=
  let n := nat_of_ascii c in (Nat.leb 97 n && Nat.leb n 122)%bool.
Definition is_digit (c : ascii) : bool :=
  let n := nat_of_ascii c in (Nat.leb 48 n && Nat.leb n 57)%bool.

Definition lower_char (c : ascii) : ascii :=
  if is_upper c then ascii_of_nat (nat_of_ascii c + 32) else c.

(** [s.toLowerCase()] on text in the ASCII range. *)
Fixpoint toLowerCase (s : string) : string :=
  match s with
  | EmptyString => EmptyString
  | String c r => String (lower_char c) (toLowerCase r)
  end.

(** [s.charAt(0) == c]. *)
Definition first_char_is (c : ascii) (s : string) : bool :=
  match s with String d _ => Ascii.eqb c d | EmptyString => false end.

(** [s.substring(n)]. *)
Fixpoint substring_from (n : nat) (s : string) : string :=
  match n, s with
  | O, _ => s
  | S k, String _ r => substring_from k r
  | S _, EmptyString => EmptyString
  end.

(** [needle] occurs somewhere in [s]: an unanchored literal pattern. *)
Fixpoint contains (needle s : string) : bool :=
  (String.prefix needle s ||
   match s with String _ r => contains needle r | EmptyString => false end)%bool.

(** ** parseInt and parseFloat *)

Definition is_space (c : ascii) : bool :=
  let n := nat_of_ascii c in
  ((Nat.leb 9 n && Nat.leb n 13) || Nat.eqb n 32)%bool.

Fixpoint trim_start (s : string) : string :=
  match s with
  | String c r => if is_space c then trim_start r else s
  | EmptyString => s
  end.

(** The value of a digit, letters counting from ten. *)
Definition digit_value (c : ascii) : option Z :=
  let n := Z.of_nat (nat_of_ascii c) in
  if is_digit c then Some (n - 48)
  else if is_lower c then Some (n - 87)
  else if is_upper c then Some (n - 55)
  else None.

(** Reads the longest run of digits of the given radix; [None] when empty. *)
Fixpoint read_digits (radix : Z) (acc : option Z) (s : string) : option Z * string :=
  match s with
  | String c r =>
      match digit_value c with
      | Some d =>
          if d <? radix then
            read_digits radix
              (Some (match acc with Some a => a * radix + d | None => d end)) r
          else (acc, s)
      | None => (acc, s)
      end
  | EmptyString => (acc, s)
  end.

Definition strip_sign (s : string) : bool * string :=
  match s with
  | String "-" r => (true, r)
  | String "+" r => (false, r)
  | _ => (false, s)
  end.

Definition strip_hex_prefix (s : string) : option string :=
  match s with
  | String "0" (String "x" r) => Some r
  | String "0" (String "X" r) => Some r
  | _ => None
  end.

(** [parseInt(s, radix)]; a radix of 0 stands for a missing one. *)
Definition parseInt (s : string) (radix : Z) : number :=
  let '(neg, s1) := strip_sign (trim_start s) in
  if ((radix =? 0) || ((2 <=? radix) && (radix <=? 36)))%bool then
    let '(r, s2) :=
      if ((radix =? 0) || (radix =? 16))%bool then
        match strip_hex_prefix s1 with
        | Some rest => (16, rest)
        | None => ((if radix =? 0 then 10 else radix), s1)
        end
      else (radix, s1) in
    match fst (read_digits r None s2) with
    | Some n => if neg then SFopp (number_of_Z n) else number_of_Z n
    | None => NaN
    end
  else NaN.

Fixpoint read_decimal_digits (acc : Z) (count : Z) (s : string) : Z * Z * string :=
  match s with
  | String c r =>
      if is_digit c
      then read_decimal_digits (acc * 10 + (Z.of_nat (nat_of_ascii c) - 48)) (count + 1) r
      else (acc, count, s)
  | EmptyString => (acc, count, s)
  end.

(** The exponent part [e], [e+] or [e-] followed by digits, 0 when absent. *)
Definition read_exponent (s : string) : Z :=
  match s with
  | String c r =>
      if (Ascii.eqb c "e" || Ascii.eqb c "E")%bool then
        let '(neg, r1) := strip_sign r in
        let '(x, n, _) := read_decimal_digits 0 0 r1 in
        if n =? 0 then 0 else if neg then - x else x
      else 0
  | EmptyString => 0
  end.

(** [parseFloat(s)]: the longest prefix that is a decimal literal. *)
Definition parseFloat (s : string) : number :=
  let '(neg, s1) := strip_sign (trim_start s) in
  let signed (x : number) := if neg then SFopp x else x in
  if String.prefix "Infinity" s1 then signed (S754_infinity false)
  else
    let '(int_part, n1, s2) := read_decimal_digits 0 0 s1 in
    let '(mant, n2, s3) :=
      match s2 with
      | String "." r => read_decimal_digits int_part 0 r
      | _ => (int_part, 0, s2)
      end in
    if ((n1 =? 0) && (n2 =? 0))%bool then NaN
    else signed (number_of_decimal mant (read_exponent s3 - n2)).

End JS.

Import JS.

(* ================================================================== *)
(** * Objects *)
(* ================================================================== *)

(** [o[k]] for a property name written in the source. *)
Fixpoint get (o : object) (k : string) : value :=
  match o with
  | [] => JUndefined
  | (k', v) :: r => if String.eqb k k' then v else get r k
  end.

(** [o[k] = v]: an existing property keeps its place, a new one goes last. *)
Fixpoint set (o : object) (k : string) (v : value) : object :=
  match o with
  | [] => [(k, v)]
  | (k', v') :: r => if String.eqb k k' then (k, v) :: r else (k', v') :: set r k v
  end.

(** [delete o[k]]. *)
Fixpoint delete (o : object) (k : string) : object :=
  match o with
  | [] => []
  | (k', v) :: r => if String.eqb k k' then r else (k', v) :: delete r k
  end.

(** [o[k] = v] for a key computed at run time.  Assigning to the key
    [__proto__] goes to the prototype accessor and creates no property. *)
Definition put (o : object) (k : string) (v : value) : object :=
  if String.eqb k "__proto__" then o else set o k v.

Definition is_null (v : value) : bool :=
  match v with JNull => true | _ => false end.

(** Truthiness of a token: [null] and the empty string end the [while]. *)
Definition truthy (t : token) : bool :=
  match t with
  | None => false
  | Some EmptyString => false
  | Some _ => true
  end.

(** [token === s] against a string. *)
Definition tok_eq (t : token) (s : string) : bool :=
  match t with Some x => String.eqb x s | None => false end.

(** [re.test(token)]: the pattern sees the token's text. *)
Definition test (re : string -> bool) (t : token) : bool := re (token_text t).

(* ================================================================== *)
(** * The parser's collaborators *)
(* ================================================================== *)

(** The lexical grammar [Lang]: structural tokens and token patterns. *)
Record Lang : Type := {
  OPEN : string;
  CLOSE : string;
  OPTOPEN : string;
  OPTCLOSE : string;
  OPTEND : string;
  EQUAL : string;
  END : string;
  STRINGOPEN : string;
  STRINGOPEN_SQ : string;
  COPTOPEN : string;
  COPTCLOSE : string;
  RULE : string -> bool;
  TYPE : string -> bool;
  NAME : string -> bool;
  TYPEREF : string -> bool;
  FQTYPEREF : string -> bool;
  NUMBER : string -> bool;
  NUMBER_DEC : string -> bool;
  NUMBER_HEX : string -> bool;
  NUMBER_OCT : string -> bool;
  NUMBER_FLT : string -> bool;
  BOOL : string -> bool
}.

(** The [Tokenizer] as the parser uses it: [next()], [peek()], and the
    properties [line] and [stringEndsWith]. *)
Record Tokenizer (T : Type) : Type := {
  next : T -> token * T;
  peek : T -> token * T;
  line : T -> nat;
  stringEndsWith : T -> string
}.
Arguments next {T}.
Arguments peek {T}.
Arguments line {T}.
Arguments stringEndsWith {T}.

(* ================================================================== *)
(** * Outcomes *)
(* ================================================================== *)

(** What a [throw] carries: an [Error] with its message, or the engine's
    [TypeError] (a method called on [null] or [undefined]). *)
Inductive exn : Type :=
| Error (message : string)
| TypeError.

(** A run returns, throws, or exceeds the bound on loop iterations and
    nested calls that the embedding adds. *)
Inductive outcome (A : Type) : Type :=
| Ok (a : A)
| Throw (e : exn)
| OutOfFuel.
Arguments Ok {A}.
Arguments Throw {A}.
Arguments OutOfFuel {A}.

Definition is_ok {A : Type} (r : outcome A) : bool :=
  match r with Ok _ => true | _ => false end.

(** [a.push(v)] on the array stored under [k]. *)
Definition push (o : object) (k : string) (v : value) : outcome object :=
  match get o k with
  | JArr l => Ok (set o k (JArr (l ++ [v])))
  | _ => Throw TypeError
  end.

(** [o[k][name] = v]; [o[k]] holds an object wherever the parser does this. *)
Definition put_in (o : object) (k name : string) (v : value) : outcome object :=
  match get o k with
  | JObj inner => Ok (set o k (JObj (put inner name v)))
  | _ => Throw TypeError
  end.

(* ================================================================== *)
(** * ProtoBuf.DotProto.Parser *)
(* ================================================================== *)

Section Parser.

Context {T : Type}.
Variable L : Lang.
Variable tn : Tokenizer T.
(** [ProtoBuf.ID_MIN] and [ProtoBuf.ID_MAX]. *)
Variables ID_MIN ID_MAX : value.

(** A parsing routine runs on the tokenizer's state [this.tn]. *)
Definition M (A : Type) : Type := T -> outcome (A * T).

Definition ret {A : Type} (a : A) : M A := fun st => Ok (a, st).

Definition bind {A B : Type} (m : M A) (k : A -> M B) : M B :=
  fun st =>
    match m st with
    | Ok (a, st') => k a st'
    | Throw e => Throw e
    | OutOfFuel => OutOfFuel
    end.

Definition throw {A : Type} (e : exn) : M A := fun _ => Throw e.

(** [throw Error(msg)], the message built from the tokenizer's state. *)
Definition throwError {A : Type} (msg : T -> string) : M A :=
  fun st => Throw (Error (msg st)).

Definition out_of_fuel {A : Type} : M A := fun _ => OutOfFuel.

Definition lift {A : Type} (r : outcome A) : M A :=
  fun st =>
    match r with
    | Ok a => Ok (a, st)
    | Throw e => Throw e
    | OutOfFuel => OutOfFuel
    end.

(** [try { body } catch (e) { handler }].  The bodies the parser guards read
    no token, so the handler runs on the state the [try] started with. *)
Definition try_catch {A : Type} (body handler : M A) : M A :=
  fun st => match body st with Throw _ => handler st | r => r end.

Definition tn_next : M token := fun st => Ok (next tn st).
Definition tn_peek : M token := fun st => Ok (peek tn st).
Definition tn_stringEndsWith : M string := fun st => Ok (stringEndsWith tn st, st).

(** [this.tn.line] inside a message. *)
Definition at_line (st : T) : string := string_of_nat (line tn st).

(** [o.name] inside a message. *)
Definition name_of (o : object) : string := ToString (get o "name").

Local Notation "x <- m ;; k" := (bind m (fun x => k))
  (at level 61, m at next level, right associativity).
Local Notation "' p <- m ;; k" := (bind m (fun x => let 'p := x in k))
  (at level 61, p pattern, m at next level, right associativity).
Local Notation "m ;;; k" := (bind m (fun _ => k))
  (at level 61, right associativity).
Local Notation "t === s" := (tok_eq t s) (at level 70).
Local Notation "t !== s" := (negb (tok_eq t s)) (at level 70).

(** The sign of a literal and the text after it. *)
Definition split_sign (val : string) : Z * string :=
  if first_char_is "-" val then (-1, substring_from 1 val) else (1, val).

Definition sign_text (sign : Z) : string := if sign <? 0 then "-" else "".

(** [Parser.prototype._parseNumber]. *)
Definition _parseNumber (val : token) : M number :=
  match val with
  | None => throw TypeError
  | Some val =>
      let '(sign, val) := split_sign val in
      let sign_ := number_of_Z sign in
      if NUMBER_DEC L val then ret (mul sign_ (parseInt val 10))
      else if NUMBER_HEX L val then ret (mul sign_ (parseInt (substring_from 2 val) 16))
      else if NUMBER_OCT L val then ret (mul sign_ (parseInt (substring_from 1 val) 8))
      else if NUMBER_FLT L val then ret (mul sign_ (parseFloat val))
      else throwError (fun st =>
             "Illegal number at line " ++ at_line st ++ ": " ++ sign_text sign ++ val)
  end.

(** [Parser.prototype._parseId]; the result is the 32-bit integer [(sign*id)|0]. *)
Definition _parseId (val : token) (neg : bool) : M Z :=
  match val with
  | None => throw TypeError
  | Some val =>
      let '(sign, val) := split_sign val in
      let illegal {A : Type} : M A := throwError (fun st =>
        "Illegal ID at line " ++ at_line st ++ ": " ++ sign_text sign ++ val) in
      id <- (if NUMBER_DEC L val then ret (parseInt val 0)
             else if NUMBER_HEX L val then ret (parseInt (substring_from 2 val) 16)
             else if NUMBER_OCT L val then ret (parseInt (substring_from 1 val) 8)
             else illegal) ;;
      let id := ToInt32 (mul (number_of_Z sign) id) in
      if (negb neg && (id <? 0))%bool then illegal else ret id
  end.

(** [Parser.prototype._parsePackage]. *)
Definition _parsePackage (token : token) : M JS.token :=
  token <- tn_next ;;
  if negb (test (TYPEREF L) token) then
    throwError (fun st => "Illegal package at line " ++ at_line st ++ ": " ++ token_text token)
  else
    let pkg := token in
    token <- tn_next ;;
    if token !== END L then
      throwError (fun st => "Illegal end of package at line " ++ at_line st ++ ": "
                            ++ token_text token ++ " ('" ++ END L ++ "' expected)")
    else ret pkg.

(** [Parser.prototype._parseImport]. *)
Definition _parseImport (token : token) : M JS.token :=
  token <- tn_next ;;
  token <- (if token === "public" then tn_next else ret token) ;;
  if ((token !== STRINGOPEN L) && (token !== STRINGOPEN_SQ L))%bool then
    throwError (fun st => "Illegal import at line " ++ at_line st ++ ": " ++ token_text token
                          ++ " ('" ++ STRINGOPEN L ++ "' or '" ++ STRINGOPEN_SQ L ++ "' expected)")
  else
    imported <- tn_next ;;
    token <- tn_next ;;
    closer <- tn_stringEndsWith ;;
    if token !== closer then
      throwError (fun st => "Illegal import at line " ++ at_line st ++ ": " ++ token_text token
                            ++ " ('" ++ closer ++ "' expected)")
    else
      token <- tn_next ;;
      if token !== END L then
        throwError (fun st => "Illegal import at line " ++ at_line st ++ ": " ++ token_text token
                              ++ " ('" ++ END L ++ "' expected)")
      else ret imported.

(** [Parser.prototype._parseOption]. *)
Definition _parseOption (parent : object) (token : token) : M object :=
  token <- tn_next ;;
  let custom := token === COPTOPEN L in
  token <- (if custom then tn_next else ret token) ;;
  if (negb (test (TYPEREF L) token)
      && negb (contains "google.protobuf." (token_text token)))%bool then
    throwError (fun st => "Illegal option in message " ++ name_of parent ++ " at line "
                          ++ at_line st ++ ": " ++ token_text token)
  else
    let name := token_text token in
    token <- tn_next ;;
    ' (name, token) <-
      (if custom then
         if token !== COPTCLOSE L then
           throwError (fun st => "Illegal option in message " ++ name_of parent ++ ", option "
                                 ++ name ++ " at line " ++ at_line st ++ ": " ++ token_text token
                                 ++ " ('" ++ COPTCLOSE L ++ "' expected)")
         else
           let name := "(" ++ name ++ ")" in
           token <- tn_next ;;
           if test (FQTYPEREF L) token
           then (token' <- tn_next ;; ret (name ++ token_text token, token'))
           else ret (name, token)
       else ret (name, token)) ;;
    if token !== EQUAL L then
      throwError (fun st => "Illegal option operator in message " ++ name_of parent ++ ", option "
                            ++ name ++ " at line " ++ at_line st ++ ": " ++ token_text token
                            ++ " ('" ++ EQUAL L ++ "' expected)")
    else
      token <- tn_next ;;
      value <-
        (if ((token === STRINGOPEN L) || (token === STRINGOPEN_SQ L))%bool then
           value <- tn_next ;;
           token <- tn_next ;;
           closer <- tn_stringEndsWith ;;
           if token !== closer then
             throwError (fun st => "Illegal end of option value in message " ++ name_of parent
                                   ++ ", option " ++ name ++ " at line " ++ at_line st ++ ": "
                                   ++ token_text token ++ " ('" ++ closer ++ "' expected)")
           else ret (of_token value)
         else if test (NUMBER L) token then (n <- _parseNumber token ;; ret (JNum n))
         else if test (BOOL L) token then ret (JBool (token === "true"))
         else if test (TYPEREF L) token then ret (of_token token)
         else throwError (fun st => "Illegal option value in message " ++ name_of parent
                                    ++ ", option " ++ name ++ " at line " ++ at_line st ++ ": "
                                    ++ token_text token)) ;;
      token <- tn_next ;;
      if token !== END L then
        throwError (fun st => "Illegal end of option in message " ++ name_of parent ++ ", option "
                              ++ name ++ " at line " ++ at_line st ++ ": " ++ token_text token
                              ++ " ('" ++ END L ++ "' expected)")
      else lift (put_in parent "options" name value).

(** [Parser.prototype._parseIgnoredStatement]. *)
Fixpoint _parseIgnoredStatement (fuel : nat) (parent : object) (keyword : token) : M unit :=
  match fuel with
  | O => out_of_fuel
  | S fuel =>
      token <- tn_next ;;
      match token with
      | None =>
          throwError (fun st => "Unexpected EOF in " ++ name_of parent ++ ", "
                                ++ token_text keyword ++ " (ignored) at line " ++ at_line st)
      | Some _ =>
          if token === END L then ret tt
          else _parseIgnoredStatement fuel parent keyword
      end
  end.

(** [token = this.tn.peek(); if (token === Lang.END) this.tn.next();] *)
Definition skip_END : M unit :=
  token <- tn_peek ;;
  if token === END L then (tn_next ;;; ret tt) else ret tt.

(** The options block of an RPC method: the [do ... while] of
    [_parseServiceRPC]. *)
Fixpoint _parseServiceRPC_options (fuel : nat) (svc : object) (name : token)
    (method : object) : M object :=
  match fuel with
  | O => out_of_fuel
  | S fuel =>
      token <- tn_next ;;
      if token === "option" then
        method <- _parseOption method token ;;
        _parseServiceRPC_options fuel svc name method
      else if token !== CLOSE L then
        throwError (fun st => "Illegal start of option in RPC service " ++ name_of svc ++ "#"
                              ++ token_text name ++ " at line " ++ at_line st ++ ": "
                              ++ token_text token ++ " ('option' expected)")
      else ret method
  end.

(** [Parser.prototype._parseServiceRPC]. *)
Definition _parseServiceRPC (fuel : nat) (svc : object) (token : token) : M object :=
  let type := token in
  token <- tn_next ;;
  if negb (test (NAME L) token) then
    throwError (fun st => "Illegal RPC method name in service " ++ name_of svc ++ " at line "
                          ++ at_line st ++ ": " ++ token_text token)
  else
    let name := token in
    let where_ := name_of svc ++ "#" ++ token_text name in
    let method : object := [("request", JNull); ("response", JNull); ("options", JObj [])] in
    token <- tn_next ;;
    if token !== COPTOPEN L then
      throwError (fun st => "Illegal start of request type in RPC service " ++ where_
                            ++ " at line " ++ at_line st ++ ": " ++ token_text token
                            ++ " ('" ++ COPTOPEN L ++ "' expected)")
    else
    token <- tn_next ;;
    if negb (test (TYPEREF L) token) then
      throwError (fun st => "Illegal request type in RPC service " ++ where_
                            ++ " at line " ++ at_line st ++ ": " ++ token_text token)
    else
    let method := set method "request" (of_token token) in
    token <- tn_next ;;
    if token !== COPTCLOSE L then
      throwError (fun st => "Illegal end of request type in RPC service " ++ where_
                            ++ " at line " ++ at_line st ++ ": " ++ token_text token
                            ++ " ('" ++ COPTCLOSE L ++ "' expected)")
    else
    token <- tn_next ;;
    match token with
    | None => throw TypeError
    | Some text =>
    if negb (String.eqb (toLowerCase text) "returns") then
      throwError (fun st => "Illegal request/response delimiter in RPC service " ++ where_
                            ++ " at line " ++ at_line st ++ ": " ++ token_text token
                            ++ " ('returns' expected)")
    else
    token <- tn_next ;;
    if token !== COPTOPEN L then
      throwError (fun st => "Illegal start of response type in RPC service " ++ where_
                            ++ " at line " ++ at_line st ++ ": " ++ token_text token
                            ++ " ('" ++ COPTOPEN L ++ "' expected)")
    else
    token <- tn_next ;;
    let method := set method "response" (of_token token) in
    token <- tn_next ;;
    if token !== COPTCLOSE L then
      throwError (fun st => "Illegal end of response type in RPC service " ++ where_
                            ++ " at line " ++ at_line st ++ ": " ++ token_text token
                            ++ " ('" ++ COPTCLOSE L ++ "' expected)")
    else
    token <- tn_next ;;
    method <-
      (if token === OPEN L then
         method <- _parseServiceRPC_options fuel svc name method ;;
         skip_END ;;; ret method
       else if token !== END L then
         throwError (fun st => "Illegal method delimiter in RPC service " ++ where_
                               ++ " at line " ++ at_line st ++ ": " ++ token_text token
                               ++ " ('" ++ END L ++ "' or '" ++ OPEN L ++ "' expected)")
       else ret method) ;;
    let svc :=
      match get svc (token_text type) with
      | JUndefined => set svc (token_text type) (JObj [])
      | _ => svc
      end in
    lift (put_in svc (token_text type) (token_text name) (JObj method))
    end.

(** The body of a service: the [do ... while] of [_parseService]. *)
Fixpoint _parseService_body (fuel : nat) (svc : object) : M object :=
  match fuel with
  | O => out_of_fuel
  | S fuel =>
      token <- tn_next ;;
      if token === "option" then
        svc <- _parseOption svc token ;;
        _parseService_body fuel svc
      else if token === "rpc" then
        svc <- _parseServiceRPC fuel svc token ;;
        _parseService_body fuel svc
      else if token !== CLOSE L then
        throwError (fun st => "Illegal type for service " ++ name_of svc ++ " at line "
                              ++ at_line st ++ ": " ++ token_text token)
      else ret svc
  end.

(** [Parser.prototype._parseService]. *)
Definition _parseService (fuel : nat) (parent : object) (token : token) : M object :=
  token <- tn_next ;;
  if negb (test (NAME L) token) then
    throwError (fun st => "Illegal service name at line " ++ at_line st ++ ": "
                          ++ token_text token)
  else
    let name := token in
    let svc : object := [("name", of_token name); ("rpc", JObj []); ("options", JObj [])] in
    token <- tn_next ;;
    if token !== OPEN L then
      throwError (fun st => "Illegal OPEN after service " ++ token_text name ++ " at line "
                            ++ at_line st ++ ": " ++ token_text token
                            ++ " ('" ++ OPEN L ++ "' expected)")
    else
      svc <- _parseService_body fuel svc ;;
      lift (push parent "services" (JObj svc)).

(** [Parser.prototype._parseFieldOption]. *)
Definition _parseFieldOption (msg fld : object) (token : token) : M object :=
  let custom := token === COPTOPEN L in
  token <- (if custom then tn_next else ret token) ;;
  let where_ := name_of msg ++ "#" ++ name_of fld in
  if negb (test (TYPEREF L) token) then
    throwError (fun st => "Illegal field option in message " ++ where_ ++ " at line "
                          ++ at_line st ++ ": " ++ token_text token)
  else
    let name := token_text token in
    token <- tn_next ;;
    ' (name, token) <-
      (if custom then
         if token !== COPTCLOSE L then
           throwError (fun st => "Illegal custom field option name delimiter in message "
                                 ++ where_ ++ " at line " ++ at_line st ++ ": "
                                 ++ token_text token ++ " (')' expected)")
         else
           let name := "(" ++ name ++ ")" in
           token <- tn_next ;;
           if test (FQTYPEREF L) token
           then (token' <- tn_next ;; ret (name ++ token_text token, token'))
           else ret (name, token)
       else ret (name, token)) ;;
    if token !== EQUAL L then
      throwError (fun st => "Illegal field option operation in message " ++ where_
                            ++ " at line " ++ at_line st ++ ": " ++ token_text token
                            ++ " ('=' expected)")
    else
      token <- tn_next ;;
      value <-
        (if ((token === STRINGOPEN L) || (token === STRINGOPEN_SQ L))%bool then
           value <- tn_next ;;
           token <- tn_next ;;
           closer <- tn_stringEndsWith ;;
           if token !== closer then
             throwError (fun st => "Illegal end of field value in message " ++ where_
                                   ++ ", option " ++ name ++ " at line " ++ at_line st ++ ": "
                                   ++ token_text token ++ " ('" ++ closer ++ "' expected)")
           else ret (of_token value)
         else if test (NUMBER L) token then (n <- _parseNumber token ;; ret (JNum n))
         else if test (BOOL L) token then
           match token with
           | Some text => ret (JBool (String.eqb (toLowerCase text) "true"))
           | None => throw TypeError
           end
         else if test (TYPEREF L) token then ret (of_token token)
         else throwError (fun st => "Illegal field option value in message " ++ where_
                                    ++ ", option " ++ name ++ " at line " ++ at_line st ++ ": "
                                    ++ token_text token)) ;;
      lift (put_in fld "options" name value).

(** The [do ... while (true)] of [_parseFieldOptions]. *)
Fixpoint _parseFieldOptions_loop (fuel : nat) (msg fld : object) (first : bool) : M object :=
  match fuel with
  | O => out_of_fuel
  | S fuel =>
      token <- tn_next ;;
      if token === OPTCLOSE L then ret fld
      else
        token <-
          (if token === OPTEND L then
             if first then
               throwError (fun st => "Illegal start of message field options in message "
                                     ++ name_of msg ++ "#" ++ name_of fld ++ " at line "
                                     ++ at_line st ++ ": " ++ token_text token)
             else tn_next
           else ret token) ;;
        fld <- _parseFieldOption msg fld token ;;
        _parseFieldOptions_loop fuel msg fld false
  end.

(** [Parser.prototype._parseFieldOptions]. *)
Definition _parseFieldOptions (fuel : nat) (msg fld : object) (token : token) : M object :=
  _parseFieldOptions_loop fuel msg fld true.

(** [Parser.prototype._parseEnumValue]. *)
Definition _parseEnumValue (fuel : nat) (enm : object) (token : token) : M object :=
  let val : object := [("name", of_token token)] in
  token <- tn_next ;;
  if token !== EQUAL L then
    throwError (fun st => "Illegal enum value operator in enum " ++ name_of enm ++ " at line "
                          ++ at_line st ++ ": " ++ token_text token
                          ++ " ('" ++ EQUAL L ++ "' expected)")
  else
    token <- tn_next ;;
    id <- try_catch (_parseId token true)
            (throwError (fun st => "Illegal enum value id in enum " ++ name_of enm
                                   ++ " at line " ++ at_line st ++ ": " ++ token_text token)) ;;
    let val := set val "id" (JInt id) in
    enm <- lift (push enm "values" (JObj val)) ;;
    token <- tn_next ;;
    token <-
      (if token === OPTOPEN L then
         let opt : object := [("options", JObj [])] in
         _parseFieldOptions fuel enm opt token ;;;
         tn_next
       else ret token) ;;
    if token !== END L then
      throwError (fun st => "Illegal enum value delimiter in enum " ++ name_of enm
                            ++ " at line " ++ at_line st ++ ": " ++ token_text token
                            ++ " ('" ++ END L ++ "' expected)")
    else ret enm.

(** The body of an enum: the [do ... while (true)] of [_parseEnum]. *)
Fixpoint _parseEnum_body (fuel : nat) (enm : object) : M object :=
  match fuel with
  | O => out_of_fuel
  | S fuel =>
      token <- tn_next ;;
      if token === CLOSE L then skip_END ;;; ret enm
      else if token === "option" then
        enm <- _parseOption enm token ;;
        _parseEnum_body fuel enm
      else if negb (test (NAME L) token) then
        throwError (fun st => "Illegal enum value name in enum " ++ name_of enm ++ " at line "
                              ++ at_line st ++ ": " ++ token_text token)
      else
        enm <- _parseEnumValue fuel enm token ;;
        _parseEnum_body fuel enm
  end.

(** [Parser.prototype._parseEnum]. *)
Definition _parseEnum (fuel : nat) (msg : object) (token : token) : M object :=
  token <- tn_next ;;
  if negb (test (NAME L) token) then
    throwError (fun st => "Illegal enum name in message " ++ name_of msg ++ " at line "
                          ++ at_line st ++ ": " ++ token_text token)
  else
    let enm : object := [("name", of_token token)] in
    token <- tn_next ;;
    if token !== OPEN L then
      throwError (fun st => "Illegal OPEN after enum " ++ name_of enm ++ " at line "
                            ++ at_line st ++ ": " ++ token_text token)
    else
      let enm := set (set enm "values" (JArr [])) "options" (JObj []) in
      enm <- _parseEnum_body fuel enm ;;
      lift (push msg "enums" (JObj enm)).

(** One bound of an [extensions] range. *)
Definition extensions_bound (token : token) : M value :=
  if token === "min" then ret ID_MIN
  else if token === "max" then ret ID_MAX
  else (n <- _parseNumber token ;; ret (JNum n)).

(** [Parser.prototype._parseExtensions]. *)
Definition _parseExtensions (msg : object) (token : token) : M value :=
  token <- tn_next ;;
  low <- extensions_bound token ;;
  token <- tn_next ;;
  if token !== "to" then
    throwError (fun st => "Illegal extensions delimiter in message " ++ name_of msg
                          ++ " at line " ++ at_line st ++ " ('to' expected)")
  else
    token <- tn_next ;;
    high <- extensions_bound token ;;
    token <- tn_next ;;
    if token !== END L then
      throwError (fun st => "Illegal extension delimiter in message " ++ name_of msg
                            ++ " at line " ++ at_line st ++ ": " ++ token_text token
                            ++ " ('" ++ END L ++ "' expected)")
    else ret (JArr [low; high]).

(** [/^[A-Z]/.test(v)]. *)
Definition starts_with_capital (v : value) : bool :=
  match ToString v with String c _ => is_upper c | EmptyString => false end.

(** [Parser.prototype._parseMessage], [_parseMessageField] and [_parseExtend],
    with the [do ... while (true)] bodies of the first and the last.
    [_parseMessage] returns the parent and the field it updated together with
    the message. *)
Fixpoint _parseMessage (fuel : nat) (parent : object) (fld : option object) (token : token)
    {struct fuel} : M (object * option object * object) :=
  match fuel with
  | O => out_of_fuel
  | S fuel =>
      let msg : object := [] in
      let isGroup := token === "group" in
      let kind := if isGroup then "group" else "message" in
      token <- tn_next ;;
      if negb (test (NAME L) token) then
        throwError (fun st => "Illegal " ++ kind ++ " name" ++ (" in message " ++ name_of parent)
                              ++ " at line " ++ at_line st ++ ": " ++ token_text token)
      else
      let msg := set msg "name" (of_token token) in
      ' (fld, msg) <-
        (if isGroup then
           token <- tn_next ;;
           if token !== EQUAL L then
             throwError (fun st => "Illegal id assignment after group " ++ name_of msg
                                   ++ " at line " ++ at_line st ++ ": " ++ token_text token
                                   ++ " ('" ++ EQUAL L ++ "' expected)")
           else
             token <- tn_next ;;
             match fld with
             | None => throw TypeError
             | Some f =>
                 id <- try_catch (_parseId token false)
                         (throwError (fun st => "Illegal field id value for group "
                                                ++ name_of msg ++ "#" ++ name_of f ++ " at line "
                                                ++ at_line st ++ ": " ++ token_text token)) ;;
                 ret (Some (set f "id" (JInt id)), set msg "isGroup" (JBool true))
             end
         else ret (fld, msg)) ;;
      let msg := set msg "fields" (JArr []) in
      let msg := set msg "enums" (JArr []) in
      let msg := set msg "messages" (JArr []) in
      let msg := set msg "options" (JObj []) in
      token <- tn_next ;;
      ' (fld, token) <-
        match fld with
        | Some f =>
            if token === OPTOPEN L then
              f <- _parseFieldOptions fuel msg f token ;;
              token <- tn_next ;;
              ret (Some f, token)
            else ret (fld, token)
        | None => ret (fld, token)
        end ;;
      if token !== OPEN L then
        throwError (fun st => "Illegal OPEN after " ++ kind ++ " " ++ name_of msg ++ " at line "
                              ++ at_line st ++ ": " ++ token_text token
                              ++ " ('" ++ OPEN L ++ "' expected)")
      else
        msg <- _parseMessage_body fuel msg ;;
        parent <- lift (push parent "messages" (JObj msg)) ;;
        ret (parent, fld, msg)
  end

with _parseMessage_body (fuel : nat) (msg : object) {struct fuel} : M object :=
  match fuel with
  | O => out_of_fuel
  | S fuel =>
      token <- tn_next ;;
      if token === CLOSE L then skip_END ;;; ret msg
      else if test (RULE L) token then
        msg <- _parseMessageField fuel msg token ;;
        _parseMessage_body fuel msg
      else if token === "enum" then
        msg <- _parseEnum fuel msg token ;;
        _parseMessage_body fuel msg
      else if token === "message" then
        ' (msg, _, _) <- _parseMessage fuel msg None token ;;
        _parseMessage_body fuel msg
      else if token === "option" then
        msg <- _parseOption msg token ;;
        _parseMessage_body fuel msg
      else if token === "extensions" then
        range <- _parseExtensions msg token ;;
        _parseMessage_body fuel (set msg "extensions" range)
      else if token === "extend" then
        ' (msg, _) <- _parseExtend fuel msg token ;;
        _parseMessage_body fuel msg
      else
        throwError (fun st => "Illegal token in message " ++ name_of msg ++ " at line "
                              ++ at_line st ++ ": " ++ token_text token
                              ++ " (type or '" ++ CLOSE L ++ "' expected)")
  end

with _parseMessageField (fuel : nat) (msg : object) (token : token) {struct fuel} : M object :=
  match fuel with
  | O => out_of_fuel
  | S fuel =>
      let fld : object := [] in
      let fld := set fld "rule" (of_token token) in
      let fld := set fld "options" (JObj []) in
      token <- tn_next ;;
      ' (msg, fld) <-
        (if token === "group" then
           ' (msg, fld', grp) <- _parseMessage fuel msg (Some fld) token ;;
           let fld := match fld' with Some f => f | None => fld end in
           if negb (starts_with_capital (get grp "name")) then
             throw (Error "Group names must start with a capital letter")
           else
             let fld := set fld "type" (get grp "name") in
             match get grp "name" with
             | JStr text =>
                 let fld := set fld "name" (JStr (toLowerCase text)) in
                 skip_END ;;; ret (msg, fld)
             | _ => throw TypeError
             end
         else
           if (negb (test (TYPE L) token) && negb (test (TYPEREF L) token))%bool then
             throwError (fun st => "Illegal field type in message " ++ name_of msg ++ " at line "
                                   ++ at_line st ++ ": " ++ token_text token)
           else
           let fld := set fld "type" (of_token token) in
           token <- tn_next ;;
           if negb (test (NAME L) token) then
             throwError (fun st => "Illegal field name in message " ++ name_of msg ++ " at line "
                                   ++ at_line st ++ ": " ++ token_text token)
           else
           let fld := set fld "name" (of_token token) in
           token <- tn_next ;;
           if token !== EQUAL L then
             throwError (fun st => "Illegal field id assignment in message " ++ name_of msg
                                   ++ "#" ++ name_of fld ++ " at line " ++ at_line st ++ ": "
                                   ++ token_text token ++ " ('" ++ EQUAL L ++ "' expected)")
           else
           token <- tn_next ;;
           id <- try_catch (_parseId token false)
                   (throwError (fun st => "Illegal field id value in message " ++ name_of msg
                                          ++ "#" ++ name_of fld ++ " at line " ++ at_line st
                                          ++ ": " ++ token_text token)) ;;
           let fld := set fld "id" (JInt id) in
           token <- tn_next ;;
           ' (fld, token) <-
             (if token === OPTOPEN L then
                fld <- _parseFieldOptions fuel msg fld token ;;
                token <- tn_next ;;
                ret (fld, token)
              else ret (fld, token)) ;;
           if token !== END L then
             throwError (fun st => "Illegal field delimiter in message " ++ name_of msg ++ "#"
                                   ++ name_of fld ++ " at line " ++ at_line st ++ ": "
                                   ++ token_text token ++ " ('" ++ END L ++ "' expected)")
           else ret (msg, fld)) ;;
      lift (push msg "fields" (JObj fld))
  end

with _parseExtend (fuel : nat) (parent : object) (token : token) {struct fuel}
    : M (object * object) :=
  match fuel with
  | O => out_of_fuel
  | S fuel =>
      token <- tn_next ;;
      if negb (test (TYPEREF L) token) then
        throwError (fun st => "Illegal extended message name at line " ++ at_line st ++ ": "
                              ++ token_text token)
      else
        let ext : object := [] in
        let ext := set ext "ref" (of_token token) in
        let ext := set ext "fields" (JArr []) in
        token <- tn_next ;;
        if token !== OPEN L then
          throwError (fun st => "Illegal OPEN in extend " ++ name_of ext ++ " at line "
                                ++ at_line st ++ ": " ++ token_text token
                                ++ " ('" ++ OPEN L ++ "' expected)")
        else
          ext <- _parseExtend_body fuel ext ;;
          parent <- lift (push parent "messages" (JObj ext)) ;;
          ret (parent, ext)
  end

with _parseExtend_body (fuel : nat) (ext : object) {struct fuel} : M object :=
  match fuel with
  | O => out_of_fuel
  | S fuel =>
      token <- tn_next ;;
      if token === CLOSE L then skip_END ;;; ret ext
      else if test (RULE L) token then
        ext <- _parseMessageField fuel ext token ;;
        _parseExtend_body fuel ext
      else
        throwError (fun st => "Illegal token in extend " ++ name_of ext ++ " at line "
                              ++ at_line st ++ ": " ++ token_text token
                              ++ " (rule or '" ++ CLOSE L ++ "' expected)")
  end.

(** The object [parse] starts from. *)
Definition topLevel0 : object :=
  [("name", JStr "[ROOT]"); ("package", JNull); ("messages", JArr []); ("enums", JArr []);
   ("imports", JArr []); ("options", JObj []); ("services", JArr [])].

(** One turn of the [switch (token)] in [parse]: the statement that starts
    with [token], run on [topLevel] and the [header] flag. *)
Definition parse_statement (fuel : nat) (topLevel : object) (header : bool) (token : token)
    : M (object * bool) :=
  if token === "package" then
    if (negb header || negb (is_null (get topLevel "package")))%bool then
      throwError (fun st => "Illegal package at line " ++ at_line st)
    else
      pkg <- _parsePackage token ;;
      ret (set topLevel "package" (of_token pkg), header)
  else if token === "import" then
    if negb header then
      throwError (fun st => "Illegal import at line " ++ at_line st)
    else
      imported <- _parseImport token ;;
      topLevel <- lift (push topLevel "imports" (of_token imported)) ;;
      ret (topLevel, header)
  else if token === "message" then
    ' (topLevel, _, _) <- _parseMessage fuel topLevel None token ;;
    ret (topLevel, false)
  else if token === "enum" then
    topLevel <- _parseEnum fuel topLevel token ;;
    ret (topLevel, false)
  else if token === "option" then
    if negb header then
      throwError (fun st => "Illegal option at line " ++ at_line st)
    else
      topLevel <- _parseOption topLevel token ;;
      ret (topLevel, header)
  else if token === "service" then
    topLevel <- _parseService fuel topLevel token ;;
    ret (topLevel, header)
  else if token === "extend" then
    ' (topLevel, _) <- _parseExtend fuel topLevel token ;;
    ret (topLevel, header)
  else if token === "syntax" then
    _parseIgnoredStatement fuel topLevel token ;;;
    ret (topLevel, header)
  else
    throwError (fun st => "Illegal token at line " ++ at_line st ++ ": " ++ token_text token).

(** The [while (token = this.tn.next())] of [parse]. *)
Fixpoint parse_loop (fuel : nat) (topLevel : object) (header : bool) : M object :=
  match fuel with
  | O => out_of_fuel
  | S fuel =>
      token <- tn_next ;;
      if truthy token then
        ' (topLevel, header) <- parse_statement fuel topLevel header token ;;
        parse_loop fuel topLevel header
      else ret topLevel
  end.

(** [Parser.prototype.parse]. *)
Definition parse (fuel : nat) : M object :=
  topLevel <- parse_loop fuel topLevel0 true ;;
  ret (delete topLevel "name").

End Parser.

(* ================================================================== *)
(** * A lexical grammar and a tokenizer to run the parser on text *)
(* ================================================================== *)

(** The double quote. *)
Definition DQ : string := String (ascii_of_nat 34) EmptyString.


Module SpecLang.

Definition is_name_start (c : ascii) : bool :=
  (is_upper c || is_lower c || Ascii.eqb c "_")%bool.
Definition is_name_char (c : ascii) : bool := (is_name_start c || is_digit c)%bool.
Definition is_hex_digit (c : ascii) : bool :=
  let n := nat_of_ascii c in
  (is_digit c || (Nat.leb 97 n && Nat.leb n 102) || (Nat.leb 65 n && Nat.leb n 70))%bool.
Definition is_oct_digit (c : ascii) : bool :=
  let n := nat_of_ascii c in (Nat.leb 48 n && Nat.leb n 55)%bool.

Fixpoint all_chars (p : ascii -> bool) (s : string) : bool :=
  match s with
  | EmptyString => true
  | String c r => (p c && all_chars p r)%bool
  end.

(** One character or more, all satisfying [p]. *)
Definition some_chars (p : ascii -> bool) (s : string) : bool :=
  match s with EmptyString => false | _ => all_chars p s end.

(** Names separated by single dots; [start] says a name must begin here. *)
Fixpoint dotted (start : bool) (s : string) : bool :=
  match s with
  | EmptyString => negb start
  | String c r =>
      if start then (is_name_start c && dotted false r)%bool
      else if Ascii.eqb c "." then dotted true r
      else (is_name_char c && dotted false r)%bool
  end.

Fixpoint drop_digits (s : string) : string :=
  match s with
  | String c r => if is_digit c then drop_digits r else s
  | EmptyString => s
  end.

Definition exponent (s : string) : bool :=
  match s with
  | EmptyString => true
  | String c r =>
      ((Ascii.eqb c "e" || Ascii.eqb c "E")
       && match r with
          | String "+" d | String "-" d => some_chars is_digit d
          | _ => some_chars is_digit r
          end)%bool
  end.

(** Modelled from the spec: the decimal-integer literal form of [Lang], which
    is not among the sources.  A leading zero belongs to the octal form. *)
Definition NUMBER_DEC (s : string) : bool :=
  match s with
  | String "0" EmptyString => true
  | String c r => (is_digit c && negb (Ascii.eqb c "0") && all_chars is_digit r)%bool
  | EmptyString => false
  end.

(** Modelled from the spec: the [0x]-prefixed hex literal form of [Lang]. *)
Definition NUMBER_HEX (s : string) : bool :=
  match s with
  | String "0" (String "x" r) => some_chars is_hex_digit r
  | _ => false
  end.

(** Modelled from the spec: the leading-zero octal literal form of [Lang]. *)
Definition NUMBER_OCT (s : string) : bool :=
  match s with
  | String "0" r => some_chars is_oct_digit r
  | _ => false
  end.

(** Modelled from the spec: the floating-point literal form of [Lang], with
    a decimal point and an optional exponent. *)
Definition NUMBER_FLT (s : string) : bool :=
  match drop_digits s with
  | String "." r =>
      (match r with String c _ => is_digit c | EmptyString => false end
       && exponent (drop_digits r))%bool
  | _ => false
  end.

(** Modelled from the spec: any numeric literal form of [Lang], with an
    optional sign. *)
Definition NUMBER (s : string) : bool :=
  let u := match s with String "-" r => r | _ => s end in
  (NUMBER_DEC u || NUMBER_HEX u || NUMBER_OCT u || NUMBER_FLT u)%bool.

(** Modelled from the spec: the simple-name form of [Lang]: alphanumeric or
    underscore, not beginning with a digit. *)
Definition NAME (s : string) : bool :=
  match s with
  | String c r => (is_name_start c && all_chars is_name_char r)%bool
  | EmptyString => false
  end.

(** Modelled from the spec: the type-reference form of [Lang]: an identifier,
    optionally dot-qualified. *)
Definition TYPEREF (s : string) : bool := dotted true s.

(** Modelled from the spec: the continuation form of [Lang] that extends a
    parenthesized option name: one dotted suffix or more. *)
Definition FQTYPEREF (s : string) : bool :=
  match s with
  | String "." r => dotted true r
  | _ => false
  end.

(** Modelled from the spec: the boolean literal of [Lang], in any case. *)
Definition BOOL (s : string) : bool :=
  let l := toLowerCase s in (String.eqb l "true" || String.eqb l "false")%bool.

(** Modelled from the spec: the rule keywords of [Lang]. *)
Definition RULE (s : string) : bool :=
  existsb (String.eqb s) ["required"; "optional"; "repeated"].

(** Modelled from the spec: the scalar type keywords of [Lang]. *)
Definition TYPE (s : string) : bool :=
  existsb (String.eqb s)
    ["double"; "float"; "int32"; "uint32"; "sint32"; "int64"; "uint64"; "sint64";
     "fixed32"; "sfixed32"; "fixed64"; "sfixed64"; "bool"; "string"; "bytes"].

(** Modelled from the spec: [Lang], with the structural tokens its examples
    and the parser's messages show. *)
Definition lang : Lang :=
  Build_Lang "{" "}" "[" "]" "," "=" ";" DQ "'" "(" ")"
    RULE TYPE NAME TYPEREF FQTYPEREF NUMBER NUMBER_DEC NUMBER_HEX NUMBER_OCT NUMBER_FLT BOOL.

(** Modelled from the spec: [ProtoBuf.ID_MIN], the least field number of the
    IDL; [ProtoBuf.ID_MAX] below is the greatest. *)
Definition ID_MIN : value := JInt 1.

(** Modelled from the spec: [ProtoBuf.ID_MAX]. *)
Definition ID_MAX : value := JInt 536870911.

End SpecLang.

Module SpecTokenizer.

(** Modelled from the spec: the tokenizer's cursor, which is not among the
    sources.  It stands in code, right after a string opener, or right after
    a string body. *)
Inductive phase : Type := Code | StringBody | StringClose.

(** Modelled from the spec: the tokenizer's state. *)
Record state : Type := {
  source : string;          (* the text not read yet *)
  cur_line : nat;
  closer : string;          (* the delimiter that closes the current string *)
  at_phase : phase;
  lookahead : option string (* the token [peek] has read ahead *)
}.

(** Modelled from the spec: the structural characters and the two quotes,
    each a token of its own. *)
Definition is_delim (c : ascii) : bool :=
  existsb (Ascii.eqb c)
    ["{"; "}"; "="; ";"; "["; "]"; ","; "("; ")"; "'"; ascii_of_nat 34]%char.

Definition is_newline (c : ascii) : bool := Ascii.eqb c (ascii_of_nat 10).

Inductive scanning : Type :=
| Blank
| LineComment
| BlockComment
| Word (acc : string).

(** Modelled from the spec: the tokenizer's scan for the next token in code.
    Whitespace and both kinds of comment are skipped, every newline crossed
    counts, a structural character or a quote is a token of its own, and any
    other token runs up to the next blank or structural character.  An
    unterminated block comment ends the stream. *)
Fixpoint scan (m : scanning) (s : string) (ln : nat) : token * string * nat :=
  match s with
  | EmptyString =>
      match m with
      | Word acc => (Some acc, s, ln)
      | _ => (None, s, ln)
      end
  | String c r =>
      match m with
      | Blank =>
          if is_newline c then scan Blank r (S ln)
          else if is_space c then scan Blank r ln
          else
            match c, r with
            | "/"%char, String "/" r' => scan LineComment r' ln
            | "/"%char, String "*" r' => scan BlockComment r' ln
            | _, _ =>
                if is_delim c then (Some (String c EmptyString), r, ln)
                else scan (Word (String c EmptyString)) r ln
            end
      | LineComment =>
          if is_newline c then scan Blank r (S ln) else scan LineComment r ln
      | BlockComment =>
          match c, r with
          | "*"%char, String "/" r' => scan Blank r' ln
          | _, _ => scan BlockComment r (if is_newline c then S ln else ln)
          end
      | Word acc =>
          if (is_space c || is_delim c)%bool then (Some acc, s, ln)
          else scan (Word (acc ++ String c EmptyString)) r ln
      end
  end.

(** Modelled from the spec: the raw body of a string, up to the delimiter
    that opened it; [None] when the string is not terminated. *)
Fixpoint read_body (delim : string) (acc : string) (s : string) (ln : nat)
    : option (string * string * nat) :=
  match s with
  | EmptyString => None
  | String c r =>
      if String.eqb (String c EmptyString) delim then Some (acc, s, ln)
      else read_body delim (acc ++ String c EmptyString) r (if is_newline c then S ln else ln)
  end.

(** Modelled from the spec: [new Tokenizer(proto)]; lines count from 1. *)
Definition Tokenizer_new (proto : string) : state :=
  {| source := proto; cur_line := 1; closer := DQ; at_phase := Code; lookahead := None |}.

(** Modelled from the spec: [Tokenizer.prototype.next].  After a string
    opener the next token is the raw body and the one after it the closing
    delimiter; the end of the input is [null], also inside a string. *)
Definition next (st : state) : token * state :=
  match lookahead st with
  | Some t =>
      (Some t, {| source := source st; cur_line := cur_line st; closer := closer st;
                  at_phase := at_phase st; lookahead := None |})
  | None =>
      match at_phase st with
      | StringBody =>
          match read_body (closer st) EmptyString (source st) (cur_line st) with
          | Some (body, rest, ln) =>
              (Some body, {| source := rest; cur_line := ln; closer := closer st;
                             at_phase := StringClose; lookahead := None |})
          | None =>
              (None, {| source := EmptyString; cur_line := cur_line st; closer := closer st;
                        at_phase := Code; lookahead := None |})
          end
      | StringClose =>
          match source st with
          | String c r =>
              (Some (String c EmptyString),
               {| source := r; cur_line := cur_line st; closer := closer st;
                  at_phase := Code; lookahead := None |})
          | EmptyString => (None, st)
          end
      | Code =>
          let '(t, rest, ln) := scan Blank (source st) (cur_line st) in
          let opens := (tok_eq t DQ || tok_eq t "'")%bool in
          (t, {| source := rest; cur_line := ln;
                 closer := if opens then token_text t else closer st;
                 at_phase := if opens then StringBody else Code;
                 lookahead := None |})
      end
  end.

(** Modelled from the spec: [Tokenizer.prototype.peek]: the token [next]
    will return, read once and kept. *)
Definition peek (st : state) : token * state :=
  match lookahead st with
  | Some t => (Some t, st)
  | None =>
      let '(t, st') := next st in
      (t, {| source := source st'; cur_line := cur_line st'; closer := closer st';
             at_phase := at_phase st'; lookahead := t |})
  end.

(** Modelled from the spec: the [Tokenizer] of the repository, which is not
    among the sources. *)
Definition tokenizer : Tokenizer state := Build_Tokenizer state next peek cur_line closer.

End SpecTokenizer.

(** The outcome of a routine without the tokenizer's final state. *)
Definition result {A T : Type} (r : outcome (A * T)) : outcome A :=
  match r with
  | Ok (a, _) => Ok a
  | Throw e => Throw e
  | OutOfFuel => OutOfFuel
  end.

(** A routine of the parser run on the text [proto] with the grammar and
    tokenizer above. *)
Definition on_text {A : Type}
    (routine : Lang -> Tokenizer SpecTokenizer.state -> M A) (proto : string) : outcome A :=
  result (routine SpecLang.lang SpecTokenizer.tokenizer (SpecTokenizer.Tokenizer_new proto)).

(** [new Parser(proto).parse()].  The bound on iterations is twice the
    length of the text: a text can hold more tokens than characters, as an
    empty string literal is three tokens of two characters. *)
Definition parse_proto (proto : string) : outcome object :=
  on_text (fun L tn => parse L tn SpecLang.ID_MIN SpecLang.ID_MAX
                         (2 + 2 * String.length proto))
    proto.

(* ================================================================== *)
(** * Vocabulary of the statements *)
(* ================================================================== *)

(** The next [n] tokens of a tokenizer and the state after them. *)
Fixpoint read_tokens {T : Type} (tn : Tokenizer T) (n : nat) (st : T) : list token * T :=
  match n with
  | O => ([], st)
  | S k =>
      let '(t, st1) := next tn st in
      let '(ts, st') := read_tokens tn k st1 in
      (t :: ts, st')
  end.

(** [reaches L tn lo hi f s f' s']: the loop of [parse], started with bound
    [f] on top-level object, header flag and tokenizer state [s], completes
    some statements and stands at [s'] with bound [f'] left. *)
Inductive reaches {T : Type} (L : Lang) (tn : Tokenizer T) (lo hi : value)
  : nat -> object * bool * T -> nat -> object * bool * T -> Prop :=
| reaches_here f s : reaches L tn lo hi f s f s
| reaches_statement f topLevel header st token st1 topLevel' header' st2 f' s' :
    next tn st = (token, st1) ->
    truthy token = true ->
    parse_statement L tn lo hi f topLevel header token st1 = Ok (topLevel', header', st2) ->
    reaches L tn lo hi f (topLevel', header', st2) f' s' ->
    reaches L tn lo hi (S f) (topLevel, header, st) f' s'.

(** The key a parenthesized option name is stored under: the parentheses
    are part of it, and so is a dotted continuation [c] when one follows. *)
Definition custom_key (L : Lang) (n : string) (c : token) : string :=
  "(" ++ n ++ ")" ++ (if test (FQTYPEREF L) c then token_text c else "").

(** A 32-bit signed integer. *)
Definition int32 (z : Z) : Prop := - 2 ^ 31 <= z < 2 ^ 31.

(** The integer [z] reduced modulo 2^32 into the signed 32-bit range. *)
Definition wrap32 (z : Z) : Z := (z + 2 ^ 31) mod 2 ^ 32 - 2 ^ 31.

(** A finite binary64 mantissa and exponent in canonical form. *)
Definition canonical (m : positive) (e : Z) : Prop :=
  Z.max (Z.pos (digits2_pos m) + e - 53) (-1074) = e.

(** The elements of the array stored under [k] ([] when there is none). *)
Definition elements (o : object) (k : string) : list value :=
  match get o k with JArr l => l | _ => [] end.

(** The object stored under [k] ([] when there is none). *)
Definition entries (o : object) (k : string) : object :=
  match get o k with JObj p => p | _ => [] end.

(** The property names of an object, in order. *)
Definition keys (o : object) : list string := map fst o.

Definition is_array (v : value) : bool :=
  match v with JArr _ => true | _ => false end.

Definition is_object (v : value) : bool :=
  match v with JObj _ => true | _ => false end.

Definition is_string_or_null (v : value) : bool :=
  match v with JNull | JStr _ => true | _ => false end.

(** The record [parse] documents as its result: a package name or [null],
    four arrays and the options. *)
Definition is_schema (o : object) : bool :=
  (is_string_or_null (get o "package") && is_array (get o "messages")
   && is_array (get o "enums") && is_array (get o "imports")
   && is_object (get o "options") && is_array (get o "services"))%bool.

(** The keys of the top-level object and the kinds of their values. *)
Definition top_level_invariant (o : object) : Prop :=
  keys o = keys topLevel0
  /\ is_schema o = true.

(** The keywords of the [switch] in [parse]. *)
Definition top_level_keywords : list string :=
  ["package"; "import"; "message"; "enum"; "option"; "service"; "extend"; "syntax"].

(** The tables of a message: three arrays and the options. *)
Definition has_message_tables (msg : object) : bool :=
  (is_array (get msg "fields") && is_array (get msg "enums")
   && is_array (get msg "messages") && is_object (get msg "options"))%bool.

(** The tokens of the enum value [name = text;], whose id is [id]. *)
Definition enum_value_tokens (L : Lang) (v : string * string * Z) : list token :=
  let '(name, text, _) := v in [Some name; Some (EQUAL L); Some text; Some (END L)].

(** The entry of [values] it becomes. *)
Definition enum_value_entry (v : string * string * Z) : value :=
  let '(name, _, id) := v in JObj [("name", JStr name); ("id", JInt id)].

(** An entry of an enum's [values]: the token of its name, which has the
    form of a name, and a 32-bit id. *)
Definition is_enum_value (L : Lang) (v : value) : Prop :=
  exists (name : token) (id : Z),
    v = JObj [("name", of_token name); ("id", JInt id)]
    /\ test (NAME L) name = true /\ int32 id.

(** The tokens of the field [rule type name = text;], whose id is [id]. *)
Definition field_tokens (L : Lang) (f : string * string * string * string * Z) : list token :=
  let '(rule, type, name, text, _) := f in
  [Some rule; Some type; Some name; Some (EQUAL L); Some text; Some (END L)].

(** The entry of [fields] it becomes. *)
Definition field_entry (f : string * string * string * string * Z) : value :=
  let '(rule, type, name, _, id) := f in
  JObj [("rule", JStr rule); ("options", JObj []); ("type", JStr type); ("name", JStr name);
        ("id", JInt id)].

(** The array of the top-level object that a statement adds to, by its
    keyword; [package], [option] and [syntax] add to none. *)
Definition array_of_keyword (keyword : token) : option string :=
  if tok_eq keyword "import" then Some "imports"
  else if tok_eq keyword "message" then Some "messages"
  else if tok_eq keyword "enum" then Some "enums"
  else if tok_eq keyword "service" then Some "services"
  else if tok_eq keyword "extend" then Some "messages"
  else None.

(** [entry_of L tn keyword st x]: [x] stands for the statement that starts
    with [keyword] and goes on from the state [st].  For an import it is the
    path that [_parseImport] returns; for an [extend] block it is an object
    whose [ref], for a message, an enum and a service one whose [name], is
    the token that follows the keyword. *)
Definition entry_of {T : Type} (L : Lang) (tn : Tokenizer T) (keyword : token) (st : T)
    (x : value) : Prop :=
  if tok_eq keyword "import" then
    exists path st', _parseImport L tn keyword st = Ok (path, st') /\ x = of_token path
  else
    exists o, x = JObj o
              /\ get o (if tok_eq keyword "extend" then "ref" else "name")
                 = of_token (fst (next tn st)).

(** [appends L tn lo hi f s log r]: the loop of [parse], started with bound
    [f] on top-level object, header flag and tokenizer state [s], completes
    its statements and returns [r]; [log] lists, in the order of the
    statements, the array and the entry of every statement that adds to one.
    Such a statement leaves its array with that one entry appended and the
    rest of the top-level object as it was. *)
Inductive appends {T : Type} (L : Lang) (tn : Tokenizer T) (lo hi : value)
  : nat -> object * bool * T -> list (string * value) -> object * T -> Prop :=
| appends_end f topLevel header st token st1 :
    next tn st = (token, st1) ->
    truthy token = false ->
    appends L tn lo hi (S f) (topLevel, header, st) [] (topLevel, st1)
| appends_entry f topLevel header st token st1 k x header' st2 log r :
    next tn st = (token, st1) ->
    truthy token = true ->
    array_of_keyword token = Some k ->
    entry_of L tn token st1 x ->
    parse_statement L tn lo hi f topLevel header token st1
    = Ok (set topLevel k (JArr (elements topLevel k ++ [x])), header', st2) ->
    appends L tn lo hi f
      (set topLevel k (JArr (elements topLevel k ++ [x])), header', st2) log r ->
    appends L tn lo hi (S f) (topLevel, header, st) ((k, x) :: log) r
| appends_nothing f topLevel header st token st1 topLevel' header' st2 log r :
    next tn st = (token, st1) ->
    truthy token = true ->
    array_of_keyword token = None ->
    parse_statement L tn lo hi f topLevel header token st1 = Ok (topLevel', header', st2) ->
    (forall k, In k ["messages"; "enums"; "imports"; "services"] ->
               get topLevel' k = get topLevel k) ->
    appends L tn lo hi f (topLevel', header', st2) log r ->
    appends L tn lo hi (S f) (topLevel, header, st) log r.

(** The entries that [log] holds for the array [k], in order. *)
Definition appended_to (k : string) (log : list (string * value)) : list value :=
  map snd (filter (fun p => String.eqb (fst p) k) log).

(** [raised_at m st e s]: the routine [m], run from the state [st], throws
    [e], and [s] is the state the tokenizer is in at that [throw]: the state
    the routine has reached through the steps that completed before it. *)
Inductive raised_at {T : Type} : forall {A : Type}, M A -> T -> exn -> T -> Prop :=
| raised_throw (A : Type) (e : exn) (st : T) :
    raised_at (@throw T A e) st e st
| raised_throwError (A : Type) (msg : T -> string) (st : T) :
    raised_at (@throwError T A msg) st (Error (msg st)) st
| raised_lift (A : Type) (r : outcome A) (e : exn) (st : T) :
    r = Throw e ->
    raised_at (lift r) st e st
| raised_first (A B : Type) (m : M A) (k : A -> M B) (st : T) (e : exn) (s : T) :
    raised_at m st e s ->
    raised_at (bind m k) st e s
| raised_then (A B : Type) (m : M A) (k : A -> M B) (st : T) (a : A) (st1 : T)
    (e : exn) (s : T) :
    m st = Ok (a, st1) ->
    raised_at (k a) st1 e s ->
    raised_at (bind m k) st e s
| raised_handler (A : Type) (body handler : M A) (st : T) (e0 e : exn) (s : T) :
    body st = Throw e0 ->
    raised_at handler st e s ->
    raised_at (try_catch body handler) st e s.

(** What follows a number in a message: nothing, or a character that is
    no digit. *)
Definition ends_number (post : string) : bool :=
  match post with
  | String c _ => negb (is_digit c)
  | EmptyString => true
  end.

(** The message [m] cites the line of the state [s]: it holds [" at line "]
    followed by the line the tokenizer stands at in [s], in decimal, and by
    no further digit. *)
Definition cites_line {T : Type} (tn : Tokenizer T) (s : T) (m : string) : Prop :=
  exists pre post,
    m = pre ++ " at line " ++ at_line tn s ++ post /\ ends_number post = true.

(** The failures of the parser, thrown in the state [s]: the engine's
    [TypeError], the one [Error] that cites no line, and the [Error]s that
    cite the line of [s]. *)
Definition known_failure {T : Type} (tn : Tokenizer T) (s : T) (e : exn) : Prop :=
  e = TypeError
  \/ e = Error "Group names must start with a capital letter"
  \/ exists m, e = Error m /\ cites_line tn s m.

(** The routine [m] fails only in those ways, whatever state it starts
    from. *)
Definition fails_known {T A : Type} (tn : Tokenizer T) (m : M A) : Prop :=
  forall st e, m st = Throw e -> exists s, raised_at m st e s /\ known_failure tn s e.

(* ================================================================== *)
(** * Objects and the monad: basic facts *)
(* ================================================================== *)

Lemma get_set_same (o : object) (k : string) (v : value) : get (set o k v) k = v.
Proof.
  induction o as [|[k' v'] r IH]; simpl.
  - now rewrite String.eqb_refl.
  - destruct (String.eqb k k') eqn:E; simpl.
    + now rewrite String.eqb_refl.
    + now rewrite E.
Qed.

Lemma get_set_other (o : object) (k k' : string) (v : value) :
  k <> k' -> get (set o k v) k' = get o k'.
Proof.
  intros Hne. induction o as [|[k0 v0] r IH]; simpl.
  - destruct (String.eqb k' k) eqn:E; [apply String.eqb_eq in E; congruence | reflexivity].
  - destruct (String.eqb k k0) eqn:E; simpl.
    + apply String.eqb_eq in E; subst k0.
      destruct (String.eqb k' k) eqn:E'; [apply String.eqb_eq in E'; congruence | reflexivity].
    + destruct (String.eqb k' k0); [reflexivity | exact IH].
Qed.

Lemma push_Ok (o o' : object) (k : string) (v : value) :
  push o k v = Ok o' -> o' = set o k (JArr (elements o k ++ [v])).
Proof.
  unfold push, elements. destruct (get o k); intros H; try discriminate.
  now inversion H.
Qed.

Lemma push_frame (o o' : object) (k k' : string) (v : value) :
  push o k v = Ok o' -> k <> k' -> get o' k' = get o k'.
Proof. intros H Hne. apply push_Ok in H; subst. now apply get_set_other. Qed.

Lemma put_in_Ok (o o' : object) (k name : string) (v : value) :
  put_in o k name v = Ok o' -> o' = set o k (JObj (put (entries o k) name v)).
Proof.
  unfold put_in, entries. destruct (get o k); intros H; try discriminate.
  now inversion H.
Qed.

Lemma put_in_frame (o o' : object) (k k' name : string) (v : value) :
  put_in o k name v = Ok o' -> k <> k' -> get o' k' = get o k'.
Proof. intros H Hne. apply put_in_Ok in H; subst. now apply get_set_other. Qed.

Lemma append_assoc (a b c : string) : (a ++ b) ++ c = a ++ b ++ c.
Proof. induction a as [|x a IH]; simpl; [reflexivity | now rewrite IH]. Qed.

Lemma tok_eq_true (t : token) (s : string) : tok_eq t s = true <-> t = Some s.
Proof.
  destruct t as [x|]; simpl; split; intros H; try discriminate.
  - apply String.eqb_eq in H. now subst.
  - inversion H. apply String.eqb_refl.
Qed.

Lemma tok_eq_refl (s : string) : tok_eq (Some s) s = true.
Proof. now apply tok_eq_true. Qed.

Lemma tok_eq_false (t : token) (s : string) : t <> Some s -> tok_eq t s = false.
Proof.
  intros H. destruct (tok_eq t s) eqn:E; [|reflexivity].
  apply tok_eq_true in E. contradiction.
Qed.

Lemma tok_eq_neq (a b : string) : a <> b -> tok_eq (Some a) b = false.
Proof. intros H. apply tok_eq_false. congruence. Qed.

Section MonadFacts.

Context {T : Type}.

Lemma bind_Ok {A B : Type} (m : M A) (k : A -> M B) (st : T) (r : B * T) :
  bind m k st = Ok r -> exists a st1, m st = Ok (a, st1) /\ k a st1 = Ok r.
Proof.
  unfold bind. destruct (m st) as [[a st1]| |]; intros H; try discriminate.
  now exists a, st1.
Qed.

Lemma bind_run {A B : Type} (m : M A) (k : A -> M B) (st st1 : T) (a : A) :
  m st = Ok (a, st1) -> bind m k st = k a st1.
Proof. unfold bind. now intros ->. Qed.

Lemma bind_Throw {A B : Type} (m : M A) (k : A -> M B) (st : T) (e : exn) :
  m st = Throw e -> bind m k st = Throw e.
Proof. unfold bind. now intros ->. Qed.

Lemma bind_assoc {A B C : Type} (m : M A) (f : A -> M B) (k : B -> M C) (st : T) :
  bind (bind m f) k st = bind m (fun a => bind (f a) k) st.
Proof. unfold bind. destruct (m st) as [[a st1]| |]; reflexivity. Qed.

Lemma bind_ret {A B : Type} (a : A) (k : A -> M B) (st : T) :
  bind (ret a) k st = k a st.
Proof. reflexivity. Qed.

Lemma bind_throwError {A B : Type} (msg : T -> string) (k : A -> M B) (st : T) :
  bind (throwError msg) k st = Throw (Error (msg st)).
Proof. reflexivity. Qed.

Lemma lift_Ok {A : Type} (r : outcome A) (st : T) (a : A) (st' : T) :
  lift r st = Ok (a, st') -> r = Ok a /\ st' = st.
Proof. unfold lift. destruct r; intros H; try discriminate. now inversion H. Qed.

Lemma ret_Ok {A : Type} (a b : A) (st st' : T) :
  ret a st = Ok (b, st') -> b = a /\ st' = st.
Proof. unfold ret. intros H. now inversion H. Qed.

Lemma tn_next_run (tn : Tokenizer T) (st st1 : T) (t : token) :
  next tn st = (t, st1) -> tn_next tn st = Ok (t, st1).
Proof. unfold tn_next. now intros ->. Qed.

Lemma read_tokens_cons (tn : Tokenizer T) (n : nat) (st st' : T) (t : token)
    (ts : list token) :
  read_tokens tn (S n) st = (t :: ts, st') ->
  exists st1, next tn st = (t, st1) /\ read_tokens tn n st1 = (ts, st').
Proof.
  cbn [read_tokens]. destruct (next tn st) as [t0 st1].
  destruct (read_tokens tn n st1) as [ts0 st0] eqn:E.
  intros H. inversion H; subst. exists st1. split; [reflexivity | exact E].
Qed.

Lemma read_tokens_nil (tn : Tokenizer T) (st st' : T) :
  read_tokens tn 0 st = ([], st') -> st' = st.
Proof. simpl. intros H. now inversion H. Qed.

End MonadFacts.

(** Splits a hypothesis on [read_tokens] into one equation per token. *)
Ltac split_tokens H :=
  repeat match type of H with
  | read_tokens _ (S _) _ = (_ :: _, _) =>
      let st := fresh "st" in
      let Hn := fresh "Hnext" in
      apply read_tokens_cons in H as (st & Hn & H)
  | read_tokens _ O _ = ([], _) =>
      apply read_tokens_nil in H;
      match type of H with _ = ?b => first [subst b | subst] end
  end.

(** Exposes the text a pattern is tested on. *)
Ltac tidy := unfold test; cbn [token_text negb].

(** Runs a routine forward over tokens known from the context. *)
Ltac step_next :=
  rewrite ?bind_assoc;
  match goal with
  | Hn : next ?tn ?st = (_, _) |- context [bind (tn_next ?tn) _ ?st] =>
      rewrite (bind_run (tn_next tn) _ st _ _ (tn_next_run tn st _ _ Hn))
  end.

Ltac step_next_in H :=
  match type of H with
  | context [bind (tn_next ?tn) _ ?st] =>
      match goal with
      | Hn : next tn st = (_, _) |- _ =>
          rewrite (bind_run (tn_next tn) _ st _ _ (tn_next_run tn st _ _ Hn)) in H
      end
  end.

Ltac tidy_in H := unfold test in H; cbn [token_text negb] in H.

(* ================================================================== *)
(** * RPC methods *)
(* ================================================================== *)

Section ServiceRPC.

Context {T : Type}.
Variable L : Lang.
Variable tn : Tokenizer T.

(** C10.  In [rpc M (Req) returns (X);] the request type must match the
    type-reference pattern, or the parse fails with "Illegal request type";
    the response type is stored as it stands, whatever token [X] is
    ([null] included), provided the closing parenthesis and the terminator
    follow. *)
Theorem rpc_request_checked_response_verbatim
    (fuel : nat) (svc : object) (method : string) (st : T) :
  NAME L method = true ->
  (forall (R : token) (st3 : T),
      read_tokens tn 3 st = ([Some method; Some (COPTOPEN L); R], st3) ->
      test (TYPEREF L) R = false ->
      _parseServiceRPC L tn fuel svc (Some "rpc") st =
        Throw (Error ("Illegal request type in RPC service " ++ name_of svc ++ "#" ++ method
                      ++ " at line " ++ at_line tn st3 ++ ": " ++ token_text R)))
  /\
  (forall (Req kw : string) (X : token) (rpcs : object) (st' : T),
      read_tokens tn 9 st =
        ([Some method; Some (COPTOPEN L); Some Req; Some (COPTCLOSE L); Some kw;
          Some (COPTOPEN L); X; Some (COPTCLOSE L); Some (END L)], st') ->
      TYPEREF L Req = true ->
      toLowerCase kw = "returns" ->
      END L <> OPEN L ->
      get svc "rpc" = JObj rpcs ->
      _parseServiceRPC L tn fuel svc (Some "rpc") st =
        Ok (set svc "rpc"
              (JObj (put rpcs method
                       (JObj [("request", JStr Req); ("response", of_token X);
                              ("options", JObj [])]))), st')).
Proof.
  intros HM. split.
  - intros R st3 Hread HR. split_tokens Hread.
    unfold _parseServiceRPC. step_next. tidy. rewrite HM. tidy.
    step_next. rewrite tok_eq_refl. tidy.
    step_next. unfold test in HR. rewrite HR. tidy. unfold throwError.
    now rewrite !append_assoc.
  - intros Req kw X rpcs st' Hread HReq Hret Hne Hrpc. split_tokens Hread.
    unfold _parseServiceRPC.
    step_next. tidy. rewrite HM. tidy.
    step_next. rewrite tok_eq_refl. tidy.
    step_next. tidy. rewrite HReq. tidy.
    step_next. rewrite tok_eq_refl. tidy.
    step_next. rewrite Hret. cbn [String.eqb Ascii.eqb Bool.eqb negb].
    step_next. rewrite tok_eq_refl. tidy.
    step_next. step_next. rewrite tok_eq_refl. tidy.
    step_next. rewrite (tok_eq_neq _ _ Hne). rewrite tok_eq_refl. tidy.
    unfold bind at 1. unfold ret at 1.
    rewrite Hrpc. unfold lift, put_in. rewrite Hrpc. reflexivity.
Qed.

End ServiceRPC.

(** Follows a successful run [H : body st = Ok r] to its last step. *)
Ltac follow_ok H :=
  repeat first
    [ match type of H with
      | bind _ _ _ = Ok _ =>
          let a := fresh "a" in
          let s := fresh "s" in
          let H1 := fresh "Hrun" in
          apply bind_Ok in H as (a & s & H1 & H); cbv beta in H
      | throwError _ _ = Ok _ => discriminate H
      | throw _ _ = Ok _ => discriminate H
      | out_of_fuel _ = Ok _ => discriminate H
      | (if ?c then _ else _) _ = Ok _ => destruct c eqn:?
      | (match ?x with (_, _) => _ end) _ = Ok _ => destruct x
      | (match ?x with Some _ => _ | None => _ end) _ = Ok _ => destruct x eqn:?
      end ].

(* ================================================================== *)
(** * Option names *)
(* ================================================================== *)

Section OptionNames.

Context {T : Type}.
Variable L : Lang.
Variable tn : Tokenizer T.

Lemma append_nil_r (s : string) : s ++ "" = s.
Proof. induction s as [|c s IH]; simpl; [reflexivity | now rewrite IH]. Qed.

Lemma put_custom_key (o : object) (n rest : string) (v : value) :
  put o ("(" ++ n ++ rest) v = set o ("(" ++ n ++ rest) v.
Proof. reflexivity. Qed.

(** C5.  An option whose name is written [(n)], optionally continued by a
    token [c] of the dotted-continuation form, is stored under the key
    ["(" ++ n ++ ")"] followed by [c]; [_parseOption] and the bracketed
    [_parseFieldOption] build the same key.  An option statement of that
    name whose value is a quoted string or a number, closed by the statement
    end, parses and stores the value under that key. *)
Theorem custom_option_key_keeps_parentheses
    (parent msg fld : object) (tok : token) (n : string) (c : token) (st0 st st2 st3 : T) :
  next tn st0 = (Some (COPTOPEN L), st) ->
  read_tokens tn 2 st = ([Some n; Some (COPTCLOSE L)], st2) ->
  next tn st2 = (c, st3) ->
  (forall parent' st',
      _parseOption L tn parent tok st0 = Ok (parent', st') ->
      exists v,
        parent' = set parent "options" (JObj (set (entries parent "options") (custom_key L n c) v))
        /\ get (entries parent' "options") (custom_key L n c) = v)
  /\
  (forall fld' st',
      _parseFieldOption L tn msg fld (Some (COPTOPEN L)) st = Ok (fld', st') ->
      exists v,
        fld' = set fld "options" (JObj (set (entries fld "options") (custom_key L n c) v))
        /\ get (entries fld' "options") (custom_key L n c) = v)
  /\
  (forall q body options st4 st7 st',
      (if test (FQTYPEREF L) c then next tn st3 else (c, st3)) = (Some (EQUAL L), st4) ->
      read_tokens tn 3 st4 = ([Some q; body; Some (stringEndsWith tn st7)], st7) ->
      next tn st7 = (Some (END L), st') ->
      q = STRINGOPEN L \/ q = STRINGOPEN_SQ L ->
      TYPEREF L n = true ->
      get parent "options" = JObj options ->
      _parseOption L tn parent tok st0
        = Ok (set parent "options" (JObj (set options (custom_key L n c) (of_token body))),
              st'))
  /\
  (forall v x options st4 st5 st',
      (if test (FQTYPEREF L) c then next tn st3 else (c, st3)) = (Some (EQUAL L), st4) ->
      next tn st4 = (Some v, st5) ->
      next tn st5 = (Some (END L), st') ->
      v <> STRINGOPEN L -> v <> STRINGOPEN_SQ L ->
      NUMBER L v = true ->
      _parseNumber L tn (Some v) st5 = Ok (x, st5) ->
      TYPEREF L n = true ->
      get parent "options" = JObj options ->
      _parseOption L tn parent tok st0
        = Ok (set parent "options" (JObj (set options (custom_key L n c) (JNum x))), st')).
Proof.
  intros Hopen Hread Hc. split_tokens Hread.
  assert (Hkey : forall o v o', put_in o "options" (custom_key L n c) v = Ok o' ->
            o' = set o "options" (JObj (set (entries o "options") (custom_key L n c) v))
            /\ get (entries o' "options") (custom_key L n c) = v).
  { intros o v o' H. apply put_in_Ok in H. subst o'. split; [reflexivity|].
    unfold entries at 1. rewrite get_set_same. unfold custom_key.
    rewrite put_custom_key. apply get_set_same. }
  assert (Hname : forall (X : Type) (k : string * token -> M X) (r : X * T),
            bind (bind (tn_next tn)
                    (fun t : token =>
                       if FQTYPEREF L (token_text t)
                       then bind (tn_next tn)
                              (fun t' : token => ret (("(" ++ n ++ ")") ++ token_text t, t'))
                       else ret ("(" ++ n ++ ")", t))) k st2 = Ok r ->
            exists t s', k (custom_key L n c, t) s' = Ok r).
  { intros X k r H. apply bind_Ok in H as ([name t] & s' & H1 & H).
    step_next_in H1. unfold custom_key, test.
    destruct (FQTYPEREF L (token_text c)).
    - apply bind_Ok in H1 as (t' & s1 & _ & H1). apply ret_Ok in H1 as [H1 ->].
      inversion H1; subst. rewrite !append_assoc in H. eauto.
    - apply ret_Ok in H1 as [H1 ->]. inversion H1; subst.
      rewrite append_nil_r. eauto. }
  assert (Hfwd : forall (X : Type) (k : string * token -> M X) (st4 : T),
            (if test (FQTYPEREF L) c then next tn st3 else (c, st3)) = (Some (EQUAL L), st4) ->
            bind (bind (tn_next tn)
                    (fun t : token =>
                       if FQTYPEREF L (token_text t)
                       then bind (tn_next tn)
                              (fun t' : token => ret (("(" ++ n ++ ")") ++ token_text t, t'))
                       else ret ("(" ++ n ++ ")", t))) k st2
            = k (custom_key L n c, Some (EQUAL L)) st4).
  { intros X k st4 H. step_next. unfold custom_key. unfold test in *.
    destruct (FQTYPEREF L (token_text c)).
    - rewrite bind_assoc. rewrite (bind_run _ _ _ _ _ (tn_next_run _ _ _ _ H)).
      rewrite bind_ret. now rewrite !append_assoc.
    - inversion H; subst. rewrite bind_ret. now rewrite append_nil_r. }
  split; [|split; [|split]].
  - intros parent' st' H. unfold _parseOption in H.
    step_next_in H. rewrite tok_eq_refl in H. step_next_in H. tidy_in H.
    match type of H with (if ?b then _ else _) _ = _ => destruct b end;
      [discriminate H|].
    step_next_in H. rewrite tok_eq_refl in H. cbn [negb] in H.
    apply Hname in H as (t & s' & H).
    follow_ok H; apply lift_Ok in H as [H _]; apply Hkey in H; eauto.
  - intros fld' st' H. unfold _parseFieldOption in H.
    rewrite tok_eq_refl in H. step_next_in H. tidy_in H.
    match type of H with (if ?b then _ else _) _ = _ => destruct b end;
      [discriminate H|].
    step_next_in H. rewrite tok_eq_refl in H. cbn [negb] in H.
    apply Hname in H as (t & s' & H).
    follow_ok H; apply lift_Ok in H as [H _]; apply Hkey in H; eauto.
  - intros q body options st4 st7 st' Heq Hstr Hend Hq Htr Hopts. split_tokens Hstr.
    unfold _parseOption. step_next. rewrite tok_eq_refl. step_next. tidy.
    rewrite Htr. cbn [negb andb]. step_next. rewrite tok_eq_refl. cbn [negb].
    rewrite (Hfwd _ _ _ Heq). cbv beta iota. rewrite tok_eq_refl. cbn [negb].
    step_next.
    assert (Hquote : (tok_eq (Some q) (STRINGOPEN L) || tok_eq (Some q) (STRINGOPEN_SQ L))%bool
                     = true).
    { destruct Hq as [-> | ->]; rewrite tok_eq_refl; [reflexivity | apply orb_true_r]. }
    rewrite Hquote. step_next. step_next. rewrite bind_assoc. unfold bind at 1.
    unfold tn_stringEndsWith at 1. rewrite tok_eq_refl. cbn [negb]. rewrite bind_ret.
    step_next. rewrite tok_eq_refl. cbn [negb]. unfold lift, put_in. rewrite Hopts.
    unfold custom_key. now rewrite put_custom_key.
  - intros v x options st4 st5 st' Heq Hv Hend Hv1 Hv2 Hnum Hx Htr Hopts.
    unfold _parseOption. step_next. rewrite tok_eq_refl. step_next. tidy.
    rewrite Htr. cbn [negb andb]. step_next. rewrite tok_eq_refl. cbn [negb].
    rewrite (Hfwd _ _ _ Heq). cbv beta iota. rewrite tok_eq_refl. cbn [negb].
    step_next. rewrite (tok_eq_neq _ _ Hv1), (tok_eq_neq _ _ Hv2). cbn [orb]. tidy.
    rewrite Hnum. rewrite bind_assoc. rewrite (bind_run _ _ _ _ _ Hx). rewrite bind_ret.
    step_next. rewrite tok_eq_refl. cbn [negb]. unfold lift, put_in. rewrite Hopts.
    unfold custom_key. now rewrite put_custom_key.
Qed.

End OptionNames.

(* ================================================================== *)
(** * Imports *)
(* ================================================================== *)

Section ImportStatement.

Context {T : Type}.
Variable L : Lang.
Variable tn : Tokenizer T.
Variables ID_MIN ID_MAX : value.

(** C8.  [import public "x.proto";] parses like [import "x.proto";]: the
    word [public] is read and dropped, [_parseImport] returns the path alone,
    and the entry pushed on [imports] is that path, a plain string. *)
Theorem import_public_is_consumed_and_dropped
    (fuel : nat) (topLevel : object) (imports : list value) (tok : token)
    (q : string) (path : token) (st st1 st4 st' : T) :
  next tn st = (Some "public", st1) ->
  read_tokens tn 3 st1 = ([Some q; path; Some (stringEndsWith tn st4)], st4) ->
  next tn st4 = (Some (END L), st') ->
  q = STRINGOPEN L \/ q = STRINGOPEN_SQ L ->
  q <> "public" ->
  get topLevel "imports" = JArr imports ->
  _parseImport L tn tok st = Ok (path, st')
  /\ _parseImport L tn tok st1 = Ok (path, st')
  /\ parse_statement L tn ID_MIN ID_MAX fuel topLevel true (Some "import") st
     = Ok (set topLevel "imports" (JArr (imports ++ [of_token path])), true, st')
  /\ parse_statement L tn ID_MIN ID_MAX fuel topLevel true (Some "import") st1
     = Ok (set topLevel "imports" (JArr (imports ++ [of_token path])), true, st').
Proof.
  intros Hpub Hread Hend Hq Hnp Himports. split_tokens Hread.
  assert (Hopen : ((negb (tok_eq (Some q) (STRINGOPEN L)))
                   && (negb (tok_eq (Some q) (STRINGOPEN_SQ L))))%bool = false).
  { destruct Hq as [-> | ->]; rewrite tok_eq_refl; cbn [negb andb];
      [reflexivity | apply andb_false_r]. }
  assert (Hplain : _parseImport L tn tok st1 = Ok (path, st')).
  { unfold _parseImport. step_next. rewrite (tok_eq_neq _ _ Hnp).
    unfold bind at 1. unfold ret at 1. rewrite Hopen.
    step_next. step_next. unfold bind at 1. unfold tn_stringEndsWith at 1.
    rewrite tok_eq_refl. cbn [negb]. step_next. rewrite tok_eq_refl. reflexivity. }
  assert (Hpublic : _parseImport L tn tok st = Ok (path, st')).
  { unfold _parseImport. step_next. rewrite tok_eq_refl.
    step_next. rewrite Hopen.
    step_next. step_next. unfold bind at 1. unfold tn_stringEndsWith at 1.
    rewrite tok_eq_refl. cbn [negb]. step_next. rewrite tok_eq_refl. reflexivity. }
  repeat split; try assumption.
  - unfold parse_statement. cbn [tok_eq String.eqb Ascii.eqb Bool.eqb negb].
    rewrite (bind_run _ _ _ _ _ Hpublic). unfold lift, push. rewrite Himports.
    reflexivity.
  - unfold parse_statement. cbn [tok_eq String.eqb Ascii.eqb Bool.eqb negb].
    rewrite (bind_run _ _ _ _ _ Hplain). unfold lift, push. rewrite Himports.
    reflexivity.
Qed.

End ImportStatement.

(* ================================================================== *)
(** * Bracketed field options *)
(* ================================================================== *)

Section FieldOptions.

Context {T : Type}.
Variable L : Lang.
Variable tn : Tokenizer T.

(** C7, as the code has it.  A bracketed list is closed by the
    bracket-close token and may be empty; a continuation token before the
    first option is rejected; after an option, the next one may follow a
    continuation token or stand right behind it. *)
Theorem field_options_separator_is_optional
    (fuel : nat) (msg fld : object) (tok : token) (st st1 : T) :
  OPTEND L <> OPTCLOSE L ->
  (next tn st = (Some (OPTCLOSE L), st1) ->
   forall first,
     _parseFieldOptions_loop L tn (S fuel) msg fld first st = Ok (fld, st1))
  /\
  (next tn st = (Some (OPTEND L), st1) ->
   _parseFieldOptions L tn (S fuel) msg fld tok st =
     Throw (Error ("Illegal start of message field options in message " ++ name_of msg
                   ++ "#" ++ name_of fld ++ " at line " ++ at_line tn st1 ++ ": "
                   ++ OPTEND L)))
  /\
  (next tn st = (Some (OPTEND L), st1) ->
   forall t st2,
     next tn st1 = (t, st2) ->
     _parseFieldOptions_loop L tn (S fuel) msg fld false st =
       bind (_parseFieldOption L tn msg fld t)
            (fun fld' => _parseFieldOptions_loop L tn fuel msg fld' false) st2)
  /\
  (forall t first,
     next tn st = (t, st1) ->
     t <> Some (OPTCLOSE L) -> t <> Some (OPTEND L) ->
     _parseFieldOptions_loop L tn (S fuel) msg fld first st =
       bind (_parseFieldOption L tn msg fld t)
            (fun fld' => _parseFieldOptions_loop L tn fuel msg fld' false) st1).
Proof.
  intros Hne. repeat split.
  - intros Hn first. cbn [_parseFieldOptions_loop]. step_next.
    now rewrite tok_eq_refl.
  - intros Hn. unfold _parseFieldOptions. cbn [_parseFieldOptions_loop]. step_next.
    rewrite (tok_eq_neq _ _ Hne), tok_eq_refl. reflexivity.
  - intros Hn t st2 Hn2. cbn [_parseFieldOptions_loop]. step_next.
    rewrite (tok_eq_neq _ _ Hne), tok_eq_refl.
    unfold bind at 1. unfold bind at 1. unfold tn_next at 1. rewrite Hn2. reflexivity.
  - intros t first Hn Hc He. cbn [_parseFieldOptions_loop]. step_next.
    rewrite (tok_eq_false _ _ Hc), (tok_eq_false _ _ He).
    unfold bind at 1. unfold bind at 1. unfold ret at 1. reflexivity.
Qed.

End FieldOptions.

(* ================================================================== *)
(** * Numbers and ids *)
(* ================================================================== *)

Lemma ToInt32_range (x : number) : int32 (ToInt32 x).
Proof.
  unfold int32, ToInt32.
  change (2 ^ 31) with 2147483648. change (2 ^ 32) with 4294967296.
  destruct x as [s|s| |s m e]; try lia.
  set (int := if s then _ else _).
  pose proof (Z.mod_pos_bound int 4294967296 ltac:(lia)) as Hb.
  destruct (int mod 4294967296 <? 2147483648) eqn:E.
  - apply Z.ltb_lt in E. lia.
  - apply Z.ltb_ge in E. lia.
Qed.

Lemma digits2_pos_bounds (p : positive) :
  2 ^ (Z.pos (digits2_pos p) - 1) <= Z.pos p < 2 ^ Z.pos (digits2_pos p).
Proof.
  induction p as [p IH|p IH|]; cbn [digits2_pos].
  - rewrite Pos2Z.inj_succ. replace (Z.succ (Z.pos (digits2_pos p)) - 1) with (Z.pos (digits2_pos p)) by lia.
    rewrite Z.pow_succ_r by lia.
    replace (Z.pos (digits2_pos p)) with (Z.succ (Z.pos (digits2_pos p) - 1)) at 1 by lia.
    rewrite Z.pow_succ_r by lia. lia.
  - rewrite Pos2Z.inj_succ. replace (Z.succ (Z.pos (digits2_pos p)) - 1) with (Z.pos (digits2_pos p)) by lia.
    rewrite Z.pow_succ_r by lia.
    replace (Z.pos (digits2_pos p)) with (Z.succ (Z.pos (digits2_pos p) - 1)) at 1 by lia.
    rewrite Z.pow_succ_r by lia. lia.
  - simpl. lia.
Qed.

Lemma iter_xO (k p : positive) :
  Z.pos (Pos.iter xO p k) = Z.pos p * 2 ^ Z.pos k
  /\ digits2_pos (Pos.iter xO p k) = (digits2_pos p + k)%positive.
Proof.
  induction k as [|k IH] using Pos.peano_ind.
  - cbn [Pos.iter]. split; [lia|]. cbn [digits2_pos]. lia.
  - rewrite Pos.iter_succ. destruct IH as [IH1 IH2]. split.
    + rewrite Pos2Z.inj_xO, IH1, Pos2Z.inj_succ, Z.pow_succ_r by lia. lia.
    + cbn [digits2_pos]. rewrite IH2. lia.
Qed.

Lemma round_canonical (s : bool) (m : positive) (e : Z) :
  canonical m e -> e <= 971 ->
  binary_round_aux prec emax s (Z.pos m) e loc_Exact = S754_finite s m e.
Proof.
  unfold canonical. intros Hc He.
  assert (Hshift : fexp prec emax (Zdigits2 (Z.pos m) + e) - e = 0).
  { unfold fexp, emin, prec, emax. cbn [Zdigits2]. lia. }
  unfold binary_round_aux, shr_fexp. rewrite Hshift. cbn [shr shr_record_of_loc shr_m loc_of_shr_record round_nearest_even].
  rewrite Hshift. cbn [shr shr_m].
  unfold emax, prec. destruct (e <=? 1024 - 53) eqn:E; [reflexivity|].
  apply Z.leb_gt in E. lia.
Qed.

Lemma number_of_Z_pos (p : positive) :
  Z.pos p < 2 ^ 53 ->
  exists m e, number_of_Z (Z.pos p) = S754_finite false m e
              /\ canonical m e /\ -52 <= e <= 0 /\ Z.pos m = Z.pos p * 2 ^ (- e).
Proof.
  intros Hp. pose proof (digits2_pos_bounds p) as [Hlo Hhi].
  assert (Hd : Z.pos (digits2_pos p) <= 53).
  { destruct (Z.le_gt_cases (Z.pos (digits2_pos p)) 53) as [H|H]; [exact H|].
    assert (2 ^ 53 <= 2 ^ (Z.pos (digits2_pos p) - 1)) by (apply Z.pow_le_mono_r; lia).
    lia. }
  unfold number_of_Z, binary_normalize, binary_round, shl_align.
  assert (Hf : fexp prec emax (Z.pos (digits2_pos p) + 0) = Z.pos (digits2_pos p) - 53).
  { unfold fexp, emin, prec, emax. lia. }
  rewrite Hf.
  destruct (Z.pos (digits2_pos p) - 53 - 0) as [|k|k] eqn:Ek; try lia.
  - exists p, 0. split; [apply round_canonical; [unfold canonical|]; lia|].
    split; [unfold canonical; lia|]. split; [lia|]. simpl. lia.
  - destruct (iter_xO k p) as [Hv Hdig].
    exists (Pos.iter xO p k), (Z.pos (digits2_pos p) - 53).
    assert (Hc : canonical (Pos.iter xO p k) (Z.pos (digits2_pos p) - 53)).
    { unfold canonical. rewrite Hdig. lia. }
    split; [apply round_canonical; [exact Hc | lia]|].
    split; [exact Hc|]. split; [lia|]. rewrite Hv. f_equal. f_equal. lia.
Qed.

Lemma number_of_Z_unit (s : bool) :
  number_of_Z (if s then -1 else 1) = S754_finite s 4503599627370496 (-52).
Proof. destruct s; reflexivity. Qed.

Lemma mul_unit (s s' : bool) (m : positive) (e : Z) :
  canonical m e -> -52 <= e <= 0 ->
  mul (number_of_Z (if s then -1 else 1)) (S754_finite s' m e)
  = S754_finite (xorb s s') m e.
Proof.
  intros Hc He. rewrite number_of_Z_unit. unfold mul, SFmul.
  unfold binary_round_aux, shr_fexp.
  assert (Hd : Zdigits2 (Z.pos (4503599627370496 * m)) = Z.pos (digits2_pos m) + 52).
  { cbn [Pos.mul Zdigits2 digits2_pos]. lia. }
  rewrite Hd.
  assert (Hshift : fexp prec emax (Z.pos (digits2_pos m) + 52 + (-52 + e)) - (-52 + e) = 52).
  { unfold canonical in Hc. unfold fexp, emin, prec, emax. lia. }
  rewrite Hshift.
  cbn [Pos.mul shr shr_record_of_loc iter_pos shr_1 orb shr_m loc_of_shr_record round_nearest_even].
  replace (-52 + e + 52) with e by lia.
  assert (Hshift' : fexp prec emax (Zdigits2 (Z.pos m) + e) - e = 0).
  { unfold canonical in Hc. unfold fexp, emin, prec, emax. cbn [Zdigits2]. lia. }
  rewrite Hshift'. cbn [shr shr_m shr_record_of_loc].
  unfold emax, prec. destruct (e <=? 1024 - 53) eqn:E; [reflexivity|].
  apply Z.leb_gt in E. lia.
Qed.

Lemma ToInt32_wrap (z : Z) :
  (let r := z mod 2 ^ 32 in if r <? 2 ^ 31 then r else r - 2 ^ 32) = wrap32 z.
Proof.
  unfold wrap32. change (2 ^ 32) with 4294967296. change (2 ^ 31) with 2147483648.
  cbv zeta.
  pose proof (Z.mod_pos_bound z 4294967296 ltac:(lia)) as Hb.
  destruct (z mod 4294967296 <? 2147483648) eqn:E.
  - apply Z.ltb_lt in E.
    symmetry. apply Z.sub_move_r. symmetry.
    apply Z.mod_unique with (q := z / 4294967296); [left; lia|].
    pose proof (Z.div_mod z 4294967296 ltac:(lia)). lia.
  - apply Z.ltb_ge in E.
    symmetry. apply Z.sub_move_r. symmetry.
    apply Z.mod_unique with (q := z / 4294967296 + 1); [left; lia|].
    pose proof (Z.div_mod z 4294967296 ltac:(lia)). lia.
Qed.

(** [(sign * n) | 0] for an integer [n] that a Number holds exactly is [n]
    with its sign, reduced modulo 2^32. *)
Lemma ToInt32_of_signed_integer (s : bool) (n : Z) :
  0 <= n < 2 ^ 53 ->
  ToInt32 (mul (number_of_Z (if s then -1 else 1)) (number_of_Z n))
  = wrap32 (if s then - n else n).
Proof.
  intros Hn. destruct n as [|p|p]; try lia.
  - rewrite number_of_Z_unit. cbn. now destruct s.
  - destruct (number_of_Z_pos p ltac:(lia)) as (m & e & -> & Hc & He & Hm).
    rewrite (mul_unit s false m e Hc He). rewrite xorb_false_r.
    unfold ToInt32.
    assert (Hmag : (if 0 <=? e then Z.pos m * 2 ^ e else Z.pos m / 2 ^ (- e)) = Z.pos p).
    { destruct (0 <=? e) eqn:E.
      - apply Z.leb_le in E. assert (e = 0) by lia. subst e. simpl in *. lia.
      - rewrite Hm. apply Z.div_mul. apply Z.pow_nonzero; lia. }
    rewrite Hmag. apply ToInt32_wrap.
Qed.

Lemma split_sign_minus (digits : string) : split_sign ("-" ++ digits) = (-1, digits).
Proof. reflexivity. Qed.

Lemma split_sign_plain (text : string) :
  first_char_is "-" text = false -> split_sign text = (1, text).
Proof. unfold split_sign. now intros ->. Qed.

Section Numbers.

Context {T : Type}.
Variable L : Lang.
Variable tn : Tokenizer T.
Variables ID_MIN ID_MAX : value.

(** The id a literal denotes once its sign is split off, or nothing when no
    integer pattern matches: exactly when [_parseId] accepts with negative
    ids allowed. *)
Lemma parseId_allowing_negatives (text : string) (st : T) :
  let '(sign, digits) := split_sign text in
  let sign_ := number_of_Z sign in
  _parseId L tn (Some text) true st =
    if NUMBER_DEC L digits then Ok (ToInt32 (mul sign_ (parseInt digits 0)), st)
    else if NUMBER_HEX L digits
      then Ok (ToInt32 (mul sign_ (parseInt (substring_from 2 digits) 16)), st)
    else if NUMBER_OCT L digits
      then Ok (ToInt32 (mul sign_ (parseInt (substring_from 1 digits) 8)), st)
    else Throw (Error ("Illegal ID at line " ++ at_line tn st ++ ": "
                       ++ sign_text sign ++ digits)).
Proof.
  unfold _parseId. destruct (split_sign text) as [sign digits].
  destruct (NUMBER_DEC L digits); [reflexivity|].
  destruct (NUMBER_HEX L digits); [reflexivity|].
  destruct (NUMBER_OCT L digits); reflexivity.
Qed.

(** An id is refused without negatives allowed exactly when it is accepted
    with them and negative; otherwise both modes agree. *)
Lemma parseId_modes (val : token) (st : T) :
  match _parseId L tn val true st with
  | Ok (id, st') =>
      st' = st /\
      _parseId L tn val false st =
        if id <? 0
        then Throw (Error ("Illegal ID at line " ++ at_line tn st ++ ": "
                           ++ match val with
                              | Some text => sign_text (fst (split_sign text))
                                             ++ snd (split_sign text)
                              | None => ""
                              end))
        else Ok (id, st)
  | Throw e => _parseId L tn val false st = Throw e
  | OutOfFuel => False
  end.
Proof.
  destruct val as [text|]; [|reflexivity].
  unfold _parseId. destruct (split_sign text) as [sign digits]. cbn [fst snd].
  destruct (NUMBER_DEC L digits); [|destruct (NUMBER_HEX L digits);
    [|destruct (NUMBER_OCT L digits)]];
    unfold bind, ret, throwError; cbn [negb andb];
    try reflexivity;
    (split; [reflexivity|]);
    match goal with |- context [?x <? 0] => destruct (x <? 0) end; reflexivity.
Qed.

(** An id that [_parseId] returns is a 32-bit signed integer, not negative
    unless negatives are allowed, and the tokenizer is where it was. *)
Lemma parseId_Ok (val : token) (neg : bool) (st : T) (id : Z) (st' : T) :
  _parseId L tn val neg st = Ok (id, st') ->
  int32 id /\ st' = st /\ (neg = false -> 0 <= id)
  /\ _parseId L tn val true st = Ok (id, st).
Proof.
  intros H.
  assert (Hmodes : st' = st /\ (neg = false -> 0 <= id)
                   /\ _parseId L tn val true st = Ok (id, st)).
  { pose proof (parseId_modes val st) as Hm.
    destruct (_parseId L tn val true st) as [[id0 s0]|e0|] eqn:E.
    - destruct Hm as [-> Hm]. destruct neg.
      + rewrite E in H. inversion H; subst. repeat split. discriminate.
      + rewrite Hm in H. destruct (id0 <? 0) eqn:Hs; [discriminate|].
        inversion H; subst. apply Z.ltb_ge in Hs. repeat split. now intros _.
    - destruct neg; congruence.
    - contradiction. }
  destruct Hmodes as (-> & Hpos & Htrue).
  split; [|split; [reflexivity | split; assumption]].
  destruct val as [text|]; [|discriminate].
  pose proof (parseId_allowing_negatives text st) as Ha.
  destruct (split_sign text) as [sign digits]. cbv zeta in Ha. rewrite Ha in Htrue.
  destruct (NUMBER_DEC L digits); [|destruct (NUMBER_HEX L digits);
    [|destruct (NUMBER_OCT L digits)]];
    inversion Htrue; try apply ToInt32_range.
Qed.

(** C2.  [_parseId] never refuses a literal for its magnitude: whatever
    matches the decimal, hex or octal pattern is reduced to a 32-bit signed
    integer, modulo 2^32.  A negative result is then refused unless negatives
    are allowed; a result that is not negative is returned with or without
    that permission, whatever the magnitude of the literal.  Fields and
    groups call it without the permission: they report the refusal as an
    illegal field id, and a field stores the reduced id otherwise.  Enum
    values call it with the permission and store the id, negative or not. *)
Theorem parseId_truncates_then_rejects_negative
    (fuel : nat) (msg enm : object) (rule ty nm v : token) (st st4 : T) :
  (* truncation, and the two modes *)
  (forall text,
      v = Some text ->
      is_ok (_parseId L tn v true st) =
        (NUMBER_DEC L (snd (split_sign text)) || NUMBER_HEX L (snd (split_sign text))
         || NUMBER_OCT L (snd (split_sign text)))%bool)
  /\ (forall neg id st', _parseId L tn v neg st = Ok (id, st') ->
        int32 id /\ st' = st /\ (neg = false -> 0 <= id)
        /\ _parseId L tn v true st = Ok (id, st))
  /\ (forall id st', _parseId L tn v true st = Ok (id, st') ->
        id < 0 -> exists e, _parseId L tn v false st = Throw e)
  (* the reduction is modulo 2^32 *)
  /\ (forall text n,
        v = Some text ->
        0 <= n < 2 ^ 53 ->
        (if NUMBER_DEC L (snd (split_sign text)) then parseInt (snd (split_sign text)) 0
         else if NUMBER_HEX L (snd (split_sign text))
           then parseInt (substring_from 2 (snd (split_sign text))) 16
         else parseInt (substring_from 1 (snd (split_sign text))) 8) = number_of_Z n ->
        is_ok (_parseId L tn v true st) = true ->
        _parseId L tn v true st = Ok (wrap32 (fst (split_sign text) * n), st))
  (* without the permission: what is not negative after the reduction is
     returned, whatever its magnitude before *)
  /\ (forall id st', _parseId L tn v true st = Ok (id, st') ->
        0 <= id -> _parseId L tn v false st = Ok (id, st))
  /\ (forall text n,
        v = Some text ->
        0 <= n < 2 ^ 53 ->
        (if NUMBER_DEC L (snd (split_sign text)) then parseInt (snd (split_sign text)) 0
         else if NUMBER_HEX L (snd (split_sign text))
           then parseInt (substring_from 2 (snd (split_sign text))) 16
         else parseInt (substring_from 1 (snd (split_sign text))) 8) = number_of_Z n ->
        is_ok (_parseId L tn v true st) = true ->
        _parseId L tn v false st =
          if wrap32 (fst (split_sign text) * n) <? 0
          then Throw (Error ("Illegal ID at line " ++ at_line tn st ++ ": "
                             ++ sign_text (fst (split_sign text)) ++ snd (split_sign text)))
          else Ok (wrap32 (fst (split_sign text) * n), st))
  (* an ordinary field *)
  /\ (forall e,
        read_tokens tn 4 st = ([ty; nm; Some (EQUAL L); v], st4) ->
        ty <> Some "group" ->
        (test (TYPE L) ty || test (TYPEREF L) ty)%bool = true ->
        test (NAME L) nm = true ->
        _parseId L tn v false st4 = Throw e ->
        _parseMessageField L tn ID_MIN ID_MAX (S fuel) msg rule st =
          Throw (Error ("Illegal field id value in message " ++ name_of msg ++ "#"
                        ++ token_text nm ++ " at line " ++ at_line tn st4 ++ ": "
                        ++ token_text v)))
  /\ (forall id fields st5,
        read_tokens tn 4 st = ([ty; nm; Some (EQUAL L); v], st4) ->
        next tn st4 = (Some (END L), st5) ->
        ty <> Some "group" ->
        (test (TYPE L) ty || test (TYPEREF L) ty)%bool = true ->
        test (NAME L) nm = true ->
        END L <> OPTOPEN L ->
        _parseId L tn v false st4 = Ok (id, st4) ->
        get msg "fields" = JArr fields ->
        _parseMessageField L tn ID_MIN ID_MAX (S fuel) msg rule st =
          Ok (set msg "fields"
                (JArr (fields ++ [JObj [("rule", of_token rule); ("options", JObj []);
                                        ("type", of_token ty); ("name", of_token nm);
                                        ("id", JInt id)]])), st5))
  (* a group *)
  /\ (forall e,
        read_tokens tn 4 st = ([Some "group"; nm; Some (EQUAL L); v], st4) ->
        test (NAME L) nm = true ->
        _parseId L tn v false st4 = Throw e ->
        _parseMessageField L tn ID_MIN ID_MAX (S (S fuel)) msg rule st =
          Throw (Error ("Illegal field id value for group " ++ token_text nm ++ "#undefined"
                        ++ " at line " ++ at_line tn st4 ++ ": " ++ token_text v)))
  (* an enum value *)
  /\ (forall id values st2 st3,
        read_tokens tn 2 st = ([Some (EQUAL L); v], st2) ->
        next tn st2 = (Some (END L), st3) ->
        END L <> OPTOPEN L ->
        _parseId L tn v true st2 = Ok (id, st2) ->
        get enm "values" = JArr values ->
        _parseEnumValue L tn fuel enm nm st =
          Ok (set enm "values"
                (JArr (values ++ [JObj [("name", of_token nm); ("id", JInt id)]])), st3)).
Proof.
  split; [|split; [|split; [|split; [|split; [|split; [|split; [|split; [|split]]]]]]]].
  - intros text ->. pose proof (parseId_allowing_negatives text st) as H.
    destruct (split_sign text) as [sign digits]. cbn [snd]. cbv zeta in H. rewrite H.
    destruct (NUMBER_DEC L digits); [reflexivity|].
    destruct (NUMBER_HEX L digits); [reflexivity|].
    destruct (NUMBER_OCT L digits); reflexivity.
  - intros neg id st' H. exact (parseId_Ok _ _ _ _ _ H).
  - intros id st' H Hneg. pose proof (parseId_modes v st) as Hm. rewrite H in Hm.
    destruct Hm as [_ Hm]. apply Z.ltb_lt in Hneg. rewrite Hneg in Hm. eauto.
  - intros text n -> Hn Hval Hok.
    pose proof (parseId_allowing_negatives text st) as H. unfold split_sign in *.
    assert (Hwrap : forall (s : bool) (x : number),
              x = number_of_Z n ->
              ToInt32 (mul (number_of_Z (if s then -1 else 1)) x)
              = wrap32 ((if s then -1 else 1) * n)).
    { intros s x ->. rewrite (ToInt32_of_signed_integer _ n Hn). destruct s; f_equal; lia. }
    destruct (first_char_is "-" text); cbn [fst snd] in *; cbv zeta in H;
      rewrite H in *; clear H;
      (destruct (NUMBER_DEC L _);
       [| destruct (NUMBER_HEX L _); [| destruct (NUMBER_OCT L _); [| discriminate Hok]]]);
      first [ rewrite (Hwrap true _ Hval) | rewrite (Hwrap false _ Hval) ]; reflexivity.
  - intros id st' H Hpos. pose proof (parseId_modes v st) as Hm. rewrite H in Hm.
    destruct Hm as [_ Hm]. apply Z.ltb_ge in Hpos. rewrite Hpos in Hm. exact Hm.
  - intros text n -> Hn Hval Hok.
    pose proof (parseId_modes (Some text) st) as Hm.
    pose proof (parseId_allowing_negatives text st) as H. unfold split_sign in *.
    assert (Hwrap : forall (s : bool) (x : number),
              x = number_of_Z n ->
              ToInt32 (mul (number_of_Z (if s then -1 else 1)) x)
              = wrap32 ((if s then -1 else 1) * n)).
    { intros s x ->. rewrite (ToInt32_of_signed_integer _ n Hn). destruct s; f_equal; lia. }
    destruct (first_char_is "-" text); cbn [fst snd] in *; cbv zeta in H;
      rewrite H in *; clear H;
      (destruct (NUMBER_DEC L _);
       [| destruct (NUMBER_HEX L _); [| destruct (NUMBER_OCT L _); [| discriminate Hok]]]);
      first [ rewrite (Hwrap true _ Hval) in Hm | rewrite (Hwrap false _ Hval) in Hm ];
      exact (proj2 Hm).
  - intros e Hread Hng Hty Hnm Hid. split_tokens Hread.
    cbn [_parseMessageField]. step_next. rewrite (tok_eq_false _ _ Hng).
    apply orb_true_iff in Hty.
    assert (Hty' : (negb (test (TYPE L) ty) && negb (test (TYPEREF L) ty))%bool = false).
    { destruct Hty as [-> | ->]; cbn [negb andb]; [reflexivity | apply andb_false_r]. }
    rewrite Hty'. rewrite bind_assoc. step_next. rewrite Hnm. cbn [negb].
    rewrite bind_assoc. step_next. rewrite tok_eq_refl. cbn [negb].
    rewrite bind_assoc. step_next. rewrite bind_assoc.
    unfold bind at 1. unfold try_catch. rewrite Hid.
    unfold throwError, name_of. rewrite get_set_same.
    destruct nm; reflexivity.
  - intros id fields st5 Hread Hend Hng Hty Hnm Hne Hid Hfields. split_tokens Hread.
    cbn [_parseMessageField]. step_next. rewrite (tok_eq_false _ _ Hng).
    apply orb_true_iff in Hty.
    assert (Hty' : (negb (test (TYPE L) ty) && negb (test (TYPEREF L) ty))%bool = false).
    { destruct Hty as [-> | ->]; cbn [negb andb]; [reflexivity | apply andb_false_r]. }
    rewrite Hty'. rewrite bind_assoc. step_next. rewrite Hnm. cbn [negb].
    rewrite bind_assoc. step_next. rewrite tok_eq_refl. cbn [negb].
    rewrite bind_assoc. step_next. rewrite !bind_assoc.
    unfold bind at 1. unfold try_catch. rewrite Hid.
    step_next. rewrite (tok_eq_neq _ _ Hne). rewrite !bind_assoc, bind_ret. cbv beta iota.
    rewrite tok_eq_refl. cbn [negb]. rewrite bind_ret. cbv beta iota.
    unfold lift, push. rewrite Hfields. reflexivity.
  - intros e Hread Hnm Hid. split_tokens Hread.
    cbn [_parseMessageField]. step_next. rewrite tok_eq_refl.
    rewrite bind_assoc. cbn [_parseMessage].
    step_next. rewrite Hnm. cbn [negb]. rewrite !bind_assoc. step_next.
    rewrite tok_eq_refl. cbn [negb]. rewrite !bind_assoc. step_next.
    rewrite !bind_assoc. unfold bind at 1. unfold try_catch.
    rewrite Hid. unfold throwError, name_of. rewrite get_set_same.
    destruct nm; reflexivity.
  - intros id values st2 st3 Hread Hend Hne Hid Hvalues. split_tokens Hread.
    unfold _parseEnumValue. step_next. rewrite tok_eq_refl. cbn [negb].
    step_next. unfold bind at 1. unfold try_catch. rewrite Hid.
    unfold bind at 1. unfold lift at 1, push. rewrite Hvalues.
    step_next. rewrite (tok_eq_neq _ _ Hne). rewrite bind_ret.
    rewrite tok_eq_refl. reflexivity.
Qed.

End Numbers.

Section NumberLiterals.

Context {T : Type}.
Variable L : Lang.
Variable tn : Tokenizer T.

(** C3.  A numeric literal loses a leading [-], the rest is tried against
    the decimal, hex, octal and (for numbers, not for ids) float patterns in
    that order, the first that matches fixes the base, and the sign is put
    back.  So the id [10] is 10, [0x1A] is 26, [017] is 15, the enum value
    id [-5] is -5, and the option value [3.14] is the Number nearest to
    314/100. *)
Theorem number_literal_first_matching_pattern (text : string) (st : T) :
  let sign := fst (split_sign text) in
  let digits := snd (split_sign text) in
  let sign_ := number_of_Z sign in
  (* the sign *)
  ((first_char_is "-" text = true -> sign = -1 /\ text = "-" ++ digits)
   /\ (first_char_is "-" text = false -> sign = 1 /\ text = digits))
  (* the patterns, in order *)
  /\ (NUMBER_DEC L digits = true ->
        _parseNumber L tn (Some text) st = Ok (mul sign_ (parseInt digits 10), st)
        /\ _parseId L tn (Some text) true st
           = Ok (ToInt32 (mul sign_ (parseInt digits 0)), st))
  /\ (NUMBER_DEC L digits = false -> NUMBER_HEX L digits = true ->
        _parseNumber L tn (Some text) st
          = Ok (mul sign_ (parseInt (substring_from 2 digits) 16), st)
        /\ _parseId L tn (Some text) true st
           = Ok (ToInt32 (mul sign_ (parseInt (substring_from 2 digits) 16)), st))
  /\ (NUMBER_DEC L digits = false -> NUMBER_HEX L digits = false ->
      NUMBER_OCT L digits = true ->
        _parseNumber L tn (Some text) st
          = Ok (mul sign_ (parseInt (substring_from 1 digits) 8), st)
        /\ _parseId L tn (Some text) true st
           = Ok (ToInt32 (mul sign_ (parseInt (substring_from 1 digits) 8)), st))
  /\ (NUMBER_DEC L digits = false -> NUMBER_HEX L digits = false ->
      NUMBER_OCT L digits = false ->
        (NUMBER_FLT L digits = true ->
           _parseNumber L tn (Some text) st = Ok (mul sign_ (parseFloat digits), st))
        /\ (NUMBER_FLT L digits = false ->
              _parseNumber L tn (Some text) st =
                Throw (Error ("Illegal number at line " ++ at_line tn st ++ ": "
                              ++ sign_text sign ++ digits)))
        /\ forall neg,
             _parseId L tn (Some text) neg st =
               Throw (Error ("Illegal ID at line " ++ at_line tn st ++ ": "
                             ++ sign_text sign ++ digits)))
  (* the documented values *)
  /\ (NUMBER_DEC L "10" = true -> _parseId L tn (Some "10") false st = Ok (10, st))
  /\ (NUMBER_DEC L "0x1A" = false -> NUMBER_HEX L "0x1A" = true ->
        _parseId L tn (Some "0x1A") false st = Ok (26, st))
  /\ (NUMBER_DEC L "017" = false -> NUMBER_HEX L "017" = false ->
      NUMBER_OCT L "017" = true ->
        _parseId L tn (Some "017") false st = Ok (15, st))
  /\ (NUMBER_DEC L "5" = true -> _parseId L tn (Some "-5") true st = Ok (-5, st))
  /\ (NUMBER_DEC L "3.14" = false -> NUMBER_HEX L "3.14" = false ->
      NUMBER_OCT L "3.14" = false -> NUMBER_FLT L "3.14" = true ->
        _parseNumber L tn (Some "3.14") st = Ok (number_of_decimal 314 (-2), st)
        /\ number_of_decimal 314 (-2) = S754_finite false 7070651414971679 (-51)
        /\ Z.abs (100 * 7070651414971679 - 314 * 2 ^ 51) <= 50).
Proof.
  cbv zeta. split; [|split; [|split; [|split; [|split]]]].
  - unfold split_sign. destruct text as [|c r]; cbn [first_char_is].
    + split; [discriminate | now intros _].
    + destruct (Ascii.eqb "-" c) eqn:E; cbn [fst snd substring_from].
      * apply Ascii.eqb_eq in E; subst c. split; [now intros _ | discriminate].
      * split; [discriminate | now intros _].
  - intros Hd. unfold _parseNumber, _parseId.
    destruct (split_sign text) as [sign digits]. cbn [fst snd] in *.
    now rewrite Hd.
  - intros Hd Hh. unfold _parseNumber, _parseId.
    destruct (split_sign text) as [sign digits]. cbn [fst snd] in *.
    now rewrite Hd, Hh.
  - intros Hd Hh Ho. unfold _parseNumber, _parseId.
    destruct (split_sign text) as [sign digits]. cbn [fst snd] in *.
    now rewrite Hd, Hh, Ho.
  - intros Hd Hh Ho. unfold _parseNumber, _parseId.
    destruct (split_sign text) as [sign digits]. cbn [fst snd] in *.
    rewrite Hd, Hh, Ho. repeat split.
    + now intros ->.
    + now intros ->.
  - split; [|split; [|split; [|split; [|intros Hd Hh Ho Hf; split; [|split]]]]].
    + intros Hd. unfold _parseId. cbn [split_sign first_char_is Ascii.eqb Bool.eqb].
      rewrite Hd. reflexivity.
    + intros Hd Hh. unfold _parseId. cbn [split_sign first_char_is Ascii.eqb Bool.eqb].
      rewrite Hd, Hh. reflexivity.
    + intros Hd Hh Ho. unfold _parseId.
      cbn [split_sign first_char_is Ascii.eqb Bool.eqb].
      rewrite Hd, Hh, Ho. reflexivity.
    + intros Hd. unfold _parseId.
      cbn [split_sign first_char_is Ascii.eqb Bool.eqb substring_from].
      rewrite Hd. reflexivity.
    + unfold _parseNumber. cbn [split_sign first_char_is Ascii.eqb Bool.eqb].
      rewrite Hd, Hh, Ho, Hf. reflexivity.
    + reflexivity.
    + vm_compute. discriminate.
Qed.

End NumberLiterals.

(* ================================================================== *)
(** * The header: package, import and option come first *)
(* ================================================================== *)

Section Header.

Context {T : Type}.
Variable L : Lang.
Variable tn : Tokenizer T.
Variables ID_MIN ID_MAX : value.

(** A nested routine hands its parent back with one element pushed. *)
Lemma parseMessage_parent fuel parent fld tok st parent' fld' msg st' :
  _parseMessage L tn ID_MIN ID_MAX fuel parent fld tok st = Ok (parent', fld', msg, st') ->
  push parent "messages" (JObj msg) = Ok parent'.
Proof.
  destruct fuel; [discriminate|]. cbn [_parseMessage]. intros H.
  follow_ok H; apply ret_Ok in H as [H _]; inversion H; subst;
    match goal with
    | Hl : lift _ _ = Ok _ |- _ => apply lift_Ok in Hl as [Hl _]; exact Hl
    end.
Qed.

Lemma parseExtend_parent fuel parent tok st parent' ext st' :
  _parseExtend L tn ID_MIN ID_MAX fuel parent tok st = Ok (parent', ext, st') ->
  push parent "messages" (JObj ext) = Ok parent'.
Proof.
  destruct fuel; [discriminate|]. cbn [_parseExtend]. intros H.
  follow_ok H; apply ret_Ok in H as [H _]; inversion H; subst;
    match goal with
    | Hl : lift _ _ = Ok _ |- _ => apply lift_Ok in Hl as [Hl _]; exact Hl
    end.
Qed.

Lemma parseEnum_parent fuel msg tok st msg' st' :
  _parseEnum L tn fuel msg tok st = Ok (msg', st') ->
  exists enm, push msg "enums" (JObj enm) = Ok msg'.
Proof.
  unfold _parseEnum. intros H.
  follow_ok H; apply lift_Ok in H as [H _]; eauto.
Qed.

Lemma parseService_parent fuel parent tok st parent' st' :
  _parseService L tn fuel parent tok st = Ok (parent', st') ->
  exists svc, push parent "services" (JObj svc) = Ok parent'.
Proof.
  unfold _parseService. intros H.
  follow_ok H; apply lift_Ok in H as [H _]; eauto.
Qed.

Lemma parseOption_parent parent tok st parent' st' :
  _parseOption L tn parent tok st = Ok (parent', st') ->
  exists name v, put_in parent "options" name v = Ok parent'.
Proof.
  unfold _parseOption. intros H.
  follow_ok H; apply lift_Ok in H as [H _]; eauto.
Qed.

(** What one statement does to the header flag and to the package. *)
Lemma statement_effect fuel topLevel header tok st topLevel' header' st' :
  parse_statement L tn ID_MIN ID_MAX fuel topLevel header tok st = Ok (topLevel', header', st') ->
  (header = false -> header' = false)
  /\ (tok = Some "message" \/ tok = Some "enum" -> header' = false)
  /\ (get topLevel "package" <> JNull -> get topLevel' "package" = get topLevel "package").
Proof.
  unfold parse_statement. intros H.
  destruct (tok_eq tok "package") eqn:Epackage.
  { destruct header; cbn [negb orb] in H; [|discriminate].
    destruct (get topLevel "package") eqn:Epkg; cbn [is_null negb] in H;
      try discriminate.
    follow_ok H. apply ret_Ok in H as [H _]. inversion H; subst.
    apply tok_eq_true in Epackage; subst.
    repeat split; try discriminate.
    - intros [? | ?]; discriminate.
    - congruence. }
  destruct (tok_eq tok "import") eqn:Eimport.
  { destruct header; cbn [negb] in H; [|discriminate].
    follow_ok H. apply ret_Ok in H as [H _]. inversion H; subst.
    apply tok_eq_true in Eimport; subst.
    match goal with
    | Hl : lift _ _ = Ok _ |- _ => apply lift_Ok in Hl as [Hl _]
    end.
    repeat split; try discriminate.
    - intros [? | ?]; discriminate.
    - intros _. eapply push_frame; [eassumption | discriminate]. }
  destruct (tok_eq tok "message") eqn:Emessage.
  { follow_ok H. apply ret_Ok in H as [H _]. inversion H; subst.
    repeat split.
    intros _. eapply push_frame; [eapply parseMessage_parent; eassumption | discriminate]. }
  destruct (tok_eq tok "enum") eqn:Eenum.
  { follow_ok H. apply ret_Ok in H as [H _]. inversion H; subst.
    repeat split.
    intros _.
    match goal with
    | Hr : _parseEnum _ _ _ _ _ _ = Ok _ |- _ => apply parseEnum_parent in Hr as [enm Hr]
    end.
    eapply push_frame; [eassumption | discriminate]. }
  assert (Hother : tok = Some "message" \/ tok = Some "enum" -> False).
  { intros [-> | ->]; discriminate. }
  destruct (tok_eq tok "option") eqn:Eoption.
  { destruct header; cbn [negb] in H; [|discriminate].
    follow_ok H. apply ret_Ok in H as [H _]. inversion H; subst.
    repeat split; try discriminate.
    - intros Hc. destruct (Hother Hc).
    - intros _.
      match goal with
      | Hr : _parseOption _ _ _ _ _ = Ok _ |- _ =>
          apply parseOption_parent in Hr as (name & v & Hr)
      end.
      eapply put_in_frame; [eassumption | discriminate]. }
  destruct (tok_eq tok "service") eqn:Eservice.
  { follow_ok H. apply ret_Ok in H as [H _]. inversion H; subst.
    split; [auto | split; [intros Hc; destruct (Hother Hc) | intros _]].
    match goal with
    | Hr : _parseService _ _ _ _ _ _ = Ok _ |- _ =>
        apply parseService_parent in Hr as (svc & Hr)
    end.
    eapply push_frame; [eassumption | discriminate]. }
  destruct (tok_eq tok "extend") eqn:Eextend.
  { follow_ok H. apply ret_Ok in H as [H _]. inversion H; subst.
    split; [auto | split; [intros Hc; destruct (Hother Hc) | intros _]].
    eapply push_frame; [eapply parseExtend_parent; eassumption | discriminate]. }
  destruct (tok_eq tok "syntax") eqn:Esyntax.
  { follow_ok H. apply ret_Ok in H as [H _]. inversion H; subst.
    split; [auto | split; [intros Hc; destruct (Hother Hc) | reflexivity]]. }
  discriminate H.
Qed.

(** The loop continues where the completed statements leave it. *)
Lemma reaches_parse_loop f tl h st f' tl' h' st' :
  reaches L tn ID_MIN ID_MAX f (tl, h, st) f' (tl', h', st') ->
  parse_loop L tn ID_MIN ID_MAX f tl h st = parse_loop L tn ID_MIN ID_MAX f' tl' h' st'.
Proof.
  intros H.
  change (parse_loop L tn ID_MIN ID_MAX f (fst (fst (tl, h, st))) (snd (fst (tl, h, st)))
            (snd (tl, h, st))
          = parse_loop L tn ID_MIN ID_MAX f' (fst (fst (tl', h', st')))
              (snd (fst (tl', h', st'))) (snd (tl', h', st'))).
  induction H as [f s|f tl0 h0 st0 tok st1 tl1 h1 st2 f' s' Hn Ht Hs Hr IH].
  - reflexivity.
  - cbn [fst snd] in *. cbn [parse_loop]. step_next. rewrite Ht.
    rewrite (bind_run _ _ _ _ _ Hs). exact IH.
Qed.

(** Once closed, the header stays closed; once set, the package stays set. *)
Lemma reaches_effect f tl h st f' tl' h' st' :
  reaches L tn ID_MIN ID_MAX f (tl, h, st) f' (tl', h', st') ->
  (h = false -> h' = false)
  /\ (get tl "package" <> JNull -> get tl' "package" <> JNull).
Proof.
  intros H.
  change ((snd (fst (tl, h, st)) = false -> snd (fst (tl', h', st')) = false)
          /\ (get (fst (fst (tl, h, st))) "package" <> JNull ->
              get (fst (fst (tl', h', st'))) "package" <> JNull)).
  induction H as [f s|f tl0 h0 st0 tok st1 tl1 h1 st2 f' s' Hn Ht Hs Hr IH].
  - now split.
  - cbn [fst snd] in *. apply statement_effect in Hs as (Hh & _ & Hp).
    destruct IH as [IHh IHp]. split.
    + intros Hf. apply IHh, Hh, Hf.
    + intros Hpk. apply IHp. rewrite Hp; assumption.
Qed.

(** A header statement met with the header closed is an ordering error. *)
Lemma header_statement_refused f tl st kw st1 :
  next tn st = (Some kw, st1) ->
  In kw ["package"; "import"; "option"] ->
  parse_loop L tn ID_MIN ID_MAX (S f) tl false st =
    Throw (Error ("Illegal " ++ kw ++ " at line " ++ at_line tn st1)).
Proof.
  intros Hn Hin. cbn [parse_loop]. step_next.
  destruct Hin as [<- | [<- | [<- | []]]]; reflexivity.
Qed.

(** C1, as the code has it.  Once a top-level [message] or [enum] has been
    parsed, a later top-level [package], [import] or [option] makes [parse]
    fail with the ordering error "Illegal <keyword> at line <n>", whatever
    statements stand in between. *)
Theorem header_closes_after_message_or_enum
    (f0 : nat) (tl0 : object) (h0 : bool) (st0 : T)
    (f : nat) (tl : object) (h : bool) (st : T) (tok : token) (st1 : T)
    (tl2 : object) (h2 : bool) (st2 : T)
    (f' : nat) (tl3 : object) (h3 : bool) (st3 : T) (kw : string) (st3' : T) :
  reaches L tn ID_MIN ID_MAX f0 (tl0, h0, st0) (S f) (tl, h, st) ->
  next tn st = (tok, st1) ->
  tok = Some "message" \/ tok = Some "enum" ->
  parse_statement L tn ID_MIN ID_MAX f tl h tok st1 = Ok (tl2, h2, st2) ->
  reaches L tn ID_MIN ID_MAX f (tl2, h2, st2) (S f') (tl3, h3, st3) ->
  next tn st3 = (Some kw, st3') ->
  In kw ["package"; "import"; "option"] ->
  h2 = false
  /\ parse_loop L tn ID_MIN ID_MAX f0 tl0 h0 st0
     = Throw (Error ("Illegal " ++ kw ++ " at line " ++ at_line tn st3'))
  /\ (tl0 = topLevel0 -> h0 = true ->
      parse L tn ID_MIN ID_MAX f0 st0
      = Throw (Error ("Illegal " ++ kw ++ " at line " ++ at_line tn st3'))).
Proof.
  intros Hpre Hn Htok Hs Hpost Hkw Hin.
  assert (Hh2 : h2 = false).
  { apply statement_effect in Hs as (_ & Hclose & _). exact (Hclose Htok). }
  assert (Hh3 : h3 = false).
  { apply reaches_effect in Hpost as [Hh _]. exact (Hh Hh2). }
  assert (Hloop : parse_loop L tn ID_MIN ID_MAX f0 tl0 h0 st0
                  = Throw (Error ("Illegal " ++ kw ++ " at line " ++ at_line tn st3'))).
  { rewrite (reaches_parse_loop _ _ _ _ _ _ _ _ Hpre).
    assert (Htruthy : truthy tok = true) by (destruct Htok as [-> | ->]; reflexivity).
    rewrite (reaches_parse_loop _ _ _ _ _ _ _ _
               (reaches_statement L tn ID_MIN ID_MAX _ _ _ _ _ _ _ _ _ _ _
                  Hn Htruthy Hs Hpost)).
    subst h3. now apply header_statement_refused. }
  split; [exact Hh2 | split; [exact Hloop|]].
  intros -> ->. unfold parse. now rewrite (bind_Throw _ _ _ _ Hloop).
Qed.

(** C9.  A [package] statement in the header, with a name of the
    type-reference form and the terminator, records the name; from then on
    any further [package] statement makes [parse] fail with "Illegal package
    at line <n>", header or not. *)
Theorem package_at_most_once
    (f : nat) (tl : object) (st st1 st2 : T) (p : string)
    (f' : nat) (tl3 : object) (h3 : bool) (st3 st3' : T) :
  get tl "package" = JNull ->
  next tn st = (Some "package", st1) ->
  read_tokens tn 2 st1 = ([Some p; Some (END L)], st2) ->
  TYPEREF L p = true ->
  parse_statement L tn ID_MIN ID_MAX f tl true (Some "package") st1
    = Ok (set tl "package" (JStr p), true, st2)
  /\ (reaches L tn ID_MIN ID_MAX f (set tl "package" (JStr p), true, st2)
              (S f') (tl3, h3, st3) ->
      next tn st3 = (Some "package", st3') ->
      parse_loop L tn ID_MIN ID_MAX (S f) tl true st
        = Throw (Error ("Illegal package at line " ++ at_line tn st3'))
      /\ (tl = topLevel0 ->
          parse L tn ID_MIN ID_MAX (S f) st
          = Throw (Error ("Illegal package at line " ++ at_line tn st3')))).
Proof.
  intros Hnull Hn Hread Hp. split_tokens Hread.
  assert (Hs : parse_statement L tn ID_MIN ID_MAX f tl true (Some "package") st1
               = Ok (set tl "package" (JStr p), true, st2)).
  { unfold parse_statement. cbn [tok_eq String.eqb Ascii.eqb Bool.eqb].
    rewrite Hnull. cbn [negb orb is_null].
    unfold _parsePackage. step_next. tidy. rewrite Hp. cbn [negb].
    step_next. rewrite tok_eq_refl. cbn [negb]. reflexivity. }
  split; [exact Hs|].
  intros Hpost Hagain.
  assert (Hset : get tl3 "package" <> JNull).
  { apply reaches_effect in Hpost as [_ Hpk]. apply Hpk.
    rewrite get_set_same. discriminate. }
  assert (Hloop : parse_loop L tn ID_MIN ID_MAX (S f) tl true st
                  = Throw (Error ("Illegal package at line " ++ at_line tn st3'))).
  { rewrite (reaches_parse_loop _ _ _ _ _ _ _ _
               (reaches_statement L tn ID_MIN ID_MAX _ _ _ _ _ _ _ _ _ _ _
                  Hn eq_refl Hs Hpost)).
    cbn [parse_loop]. step_next. cbn [truthy]. unfold parse_statement.
    cbn [tok_eq String.eqb Ascii.eqb Bool.eqb].
    destruct (get tl3 "package"); try contradiction;
      cbn [is_null negb]; rewrite orb_true_r; reflexivity. }
  split; [exact Hloop|].
  intros ->. unfold parse. now rewrite (bind_Throw _ _ _ _ Hloop).
Qed.

End Header.

(* ================================================================== *)
(** * Groups *)
(* ================================================================== *)

Section Groups.

Context {T : Type}.
Variable L : Lang.
Variable tn : Tokenizer T.
Variables ID_MIN ID_MAX : value.

(** Field options touch nothing of a field but its [options]. *)
Lemma parseFieldOption_frame msg fld tok st fld' st' k :
  _parseFieldOption L tn msg fld tok st = Ok (fld', st') ->
  k <> "options" -> get fld' k = get fld k.
Proof.
  unfold _parseFieldOption. intros H Hk.
  follow_ok H; apply lift_Ok in H as [H _];
    (eapply put_in_frame; [eassumption | congruence]).
Qed.

Lemma parseFieldOptions_frame fuel msg fld first st fld' st' k :
  _parseFieldOptions_loop L tn fuel msg fld first st = Ok (fld', st') ->
  k <> "options" -> get fld' k = get fld k.
Proof.
  revert fld first st. induction fuel as [|fuel IH]; intros fld first st H Hk;
    [discriminate|].
  cbn [_parseFieldOptions_loop] in H.
  apply bind_Ok in H as (t & s & _ & H). cbv beta in H.
  destruct (tok_eq t (OPTCLOSE L)).
  - apply ret_Ok in H as [-> _]. reflexivity.
  - apply bind_Ok in H as (t' & s' & _ & H). cbv beta in H.
    apply bind_Ok in H as (fld1 & s1 & Hopt & H). cbv beta in H.
    rewrite (IH _ _ _ H Hk). eapply parseFieldOption_frame; eassumption.
Qed.

(** A field declaration touches nothing of its message but [fields] and
    [messages]. *)
Lemma parseMessageField_frame fuel msg tok st msg' st' k :
  _parseMessageField L tn ID_MIN ID_MAX fuel msg tok st = Ok (msg', st') ->
  k <> "fields" -> k <> "messages" -> get msg' k = get msg k.
Proof.
  destruct fuel; [discriminate|]. cbn [_parseMessageField]. intros H Hf Hm.
  apply bind_Ok in H as (t & s & _ & H). cbv beta in H.
  apply bind_Ok in H as ([msg1 fld1] & s1 & Hrun & H).
  apply lift_Ok in H as [H _].
  rewrite (push_frame _ _ _ _ _ H) by congruence.
  destruct (tok_eq t "group").
  - apply bind_Ok in Hrun as ([[msg2 fld2] grp] & s2 & Hgrp & Hrun).
    apply parseMessage_parent in Hgrp.
    follow_ok Hrun.
    destruct (get grp "name"); try discriminate Hrun.
    follow_ok Hrun. apply ret_Ok in Hrun as [Hrun _]. inversion Hrun; subst.
    eapply push_frame; [eassumption | congruence].
  - follow_ok Hrun; apply ret_Ok in Hrun as [Hrun _]; inversion Hrun; subst; reflexivity.
Qed.

(** The body of a message leaves its name and its group flag alone. *)
Lemma parseMessage_body_frame fuel msg st msg' st' k :
  _parseMessage_body L tn ID_MIN ID_MAX fuel msg st = Ok (msg', st') ->
  ~ In k ["fields"; "enums"; "messages"; "options"; "extensions"] ->
  get msg' k = get msg k.
Proof.
  revert msg st. induction fuel as [|fuel IH]; intros msg st H Hk; [discriminate|].
  assert (Hne : forall x, In x ["fields"; "enums"; "messages"; "options"; "extensions"] ->
                          x <> k).
  { intros x Hx ->. contradiction. }
  cbn [_parseMessage_body] in H.
  apply bind_Ok in H as (t & s & _ & H). cbv beta in H.
  destruct (tok_eq t (CLOSE L)).
  { follow_ok H. apply ret_Ok in H as [-> _]. reflexivity. }
  destruct (test (RULE L) t).
  { apply bind_Ok in H as (m & s1 & Hrun & H). cbv beta in H.
    rewrite (IH _ _ H Hk).
    eapply parseMessageField_frame; [eassumption | | ];
      apply not_eq_sym, Hne; simpl; auto. }
  destruct (tok_eq t "enum").
  { apply bind_Ok in H as (m & s1 & Hrun & H). cbv beta in H.
    rewrite (IH _ _ H Hk). apply parseEnum_parent in Hrun as [enm Hrun].
    eapply push_frame; [eassumption | apply Hne; simpl; auto]. }
  destruct (tok_eq t "message").
  { apply bind_Ok in H as ([[m f] g] & s1 & Hrun & H). cbv beta iota in H.
    rewrite (IH _ _ H Hk). apply parseMessage_parent in Hrun.
    eapply push_frame; [eassumption | apply Hne; simpl; auto]. }
  destruct (tok_eq t "option").
  { apply bind_Ok in H as (m & s1 & Hrun & H). cbv beta in H.
    rewrite (IH _ _ H Hk). apply parseOption_parent in Hrun as (name & v & Hrun).
    eapply put_in_frame; [eassumption | apply Hne; simpl; auto]. }
  destruct (tok_eq t "extensions").
  { apply bind_Ok in H as (range & s1 & Hrun & H). cbv beta in H.
    rewrite (IH _ _ H Hk). apply get_set_other. apply Hne; simpl; auto 6. }
  destruct (tok_eq t "extend").
  { apply bind_Ok in H as ([m e] & s1 & Hrun & H). cbv beta iota in H.
    rewrite (IH _ _ H Hk). apply parseExtend_parent in Hrun.
    eapply push_frame; [eassumption | apply Hne; simpl; auto]. }
  discriminate H.
Qed.

(** What [_parseMessage] returns for a group: the message carries the name
    read after [group] and the group flag, the field carries the id, a
    non-negative 32-bit integer, and the parent has the message pushed. *)
Lemma parseMessage_group fuel parent f st parent' fld' grp st' :
  _parseMessage L tn ID_MIN ID_MAX fuel parent (Some f) (Some "group") st
    = Ok (parent', fld', grp, st') ->
  push parent "messages" (JObj grp) = Ok parent'
  /\ get grp "name" = of_token (fst (next tn st))
  /\ get grp "isGroup" = JBool true
  /\ exists f' id,
       fld' = Some f' /\ 0 <= id < 2 ^ 31
       /\ get f' "id" = JInt id
       /\ forall k, k <> "options" -> k <> "id" -> get f' k = get f k.
Proof.
  intros H. split; [eapply parseMessage_parent; exact H|].
  destruct fuel; [discriminate|]. cbn [_parseMessage] in H.
  unfold bind at 1 in H. unfold tn_next at 1 in H.
  destruct (next tn st) as [name s0]. cbn [fst].
  destruct (negb (test (NAME L) name)); [discriminate|].
  apply bind_Ok in H as ([fld1 msg1] & s1 & Hid & H).
  apply bind_Ok in Hid as (t1 & s2 & _ & Hid). cbv beta in Hid.
  destruct (negb (tok_eq t1 (EQUAL L))); [discriminate|].
  apply bind_Ok in Hid as (t2 & s3 & _ & Hid). cbv beta in Hid.
  apply bind_Ok in Hid as (id & s4 & Hparse & Hid). apply ret_Ok in Hid as [Hid _].
  inversion Hid; subst fld1 msg1; clear Hid.
  assert (Hrange : 0 <= id < 2 ^ 31).
  { unfold try_catch in Hparse.
    destruct (_parseId L tn t2 false s3) as [[id0 s5]|e|] eqn:E; try discriminate.
    inversion Hparse; subst.
    destruct (parseId_Ok L tn _ _ _ _ _ E) as (Hint & _ & Hpos & _). unfold int32 in Hint.
    specialize (Hpos eq_refl). lia. }
  cbv beta iota in H.
  apply bind_Ok in H as (t3 & s5 & _ & H). cbv beta in H.
  apply bind_Ok in H as ([fld2 t4] & s6 & Hopts & H). cbv beta iota in H.
  destruct (negb (tok_eq t4 (OPEN L))); [discriminate|].
  apply bind_Ok in H as (msg2 & s7 & Hbody & H). cbv beta in H.
  apply bind_Ok in H as (p & s8 & _ & H). apply ret_Ok in H as [H _].
  injection H as <- <- <-.
  assert (Hkeep : forall k, ~ In k ["fields"; "enums"; "messages"; "options"; "extensions"] ->
            get grp k =
            get (set (set (set (set (set (set [] "name" (of_token name)) "isGroup"
                    (JBool true)) "fields" (JArr [])) "enums" (JArr [])) "messages"
                    (JArr [])) "options" (JObj [])) k).
  { intros k Hk. eapply parseMessage_body_frame; eassumption. }
  split; [rewrite Hkeep by (simpl; intuition discriminate); reflexivity|].
  split; [rewrite Hkeep by (simpl; intuition discriminate); reflexivity|].
  destruct (tok_eq t3 (OPTOPEN L)).
  - apply bind_Ok in Hopts as (f2 & s9 & Hfo & Hopts).
    apply bind_Ok in Hopts as (t5 & s10 & _ & Hopts). apply ret_Ok in Hopts as [Hopts _].
    inversion Hopts; subst. exists f2, id. repeat split; try apply Hrange.
    + unfold _parseFieldOptions in Hfo.
      rewrite (parseFieldOptions_frame _ _ _ _ _ _ _ _ Hfo) by discriminate.
      apply get_set_same.
    + intros k Hk1 Hk2. unfold _parseFieldOptions in Hfo.
      rewrite (parseFieldOptions_frame _ _ _ _ _ _ _ _ Hfo) by assumption.
      apply get_set_other. congruence.
  - apply ret_Ok in Hopts as [Hopts _]. inversion Hopts; subst.
    exists (set f "id" (JInt id)), id. repeat split; try apply Hrange.
    + apply get_set_same.
    + intros k Hk1 Hk2. apply get_set_other. congruence.
Qed.

Lemma elements_push o o' k v :
  push o k v = Ok o' -> elements o' k = (elements o k ++ [v])%list.
Proof.
  intros H. apply push_Ok in H. subst o'. unfold elements at 1.
  now rewrite get_set_same.
Qed.

Lemma elements_push_other o o' k k' v :
  push o k v = Ok o' -> k <> k' -> elements o' k' = elements o k'.
Proof.
  intros H Hne. unfold elements. now rewrite (push_frame _ _ _ _ _ H Hne).
Qed.

(** C4.  A field declared [<rule> group <Name> = <id> { ... }] adds to the
    enclosing message a nested message called [<Name>] with [isGroup] true,
    and a field whose type is [<Name>], whose name is [<Name>] in lower
    case and whose id is [<id>]; a group whose name does not start with a
    capital letter is refused.  Whenever the name is capitalized, the id is
    accepted and the body [{ ... }] parses, the field parses to exactly that
    message and that field. *)
Theorem group_field_desugars
    (fuel : nat) (msg : object) (rule : token) (st st1 : T) :
  next tn st = (Some "group", st1) ->
  (forall msg' st',
      _parseMessageField L tn ID_MIN ID_MAX (S fuel) msg rule st = Ok (msg', st') ->
      exists grp fld name id,
        elements msg' "messages" = (elements msg "messages" ++ [JObj grp])%list
        /\ elements msg' "fields" = (elements msg "fields" ++ [JObj fld])%list
        /\ fst (next tn st1) = Some name
        /\ starts_with_capital (JStr name) = true
        /\ get grp "name" = JStr name
        /\ get grp "isGroup" = JBool true
        /\ get fld "rule" = of_token rule
        /\ get fld "type" = JStr name
        /\ get fld "name" = JStr (toLowerCase name)
        /\ get fld "id" = JInt id
        /\ 0 <= id < 2 ^ 31)
  /\
  (forall msg1 fld1 grp st2,
      _parseMessage L tn ID_MIN ID_MAX fuel msg
        (Some [("rule", of_token rule); ("options", JObj [])]) (Some "group") st1
        = Ok (msg1, fld1, grp, st2) ->
      starts_with_capital (get grp "name") = false ->
      _parseMessageField L tn ID_MIN ID_MAX (S fuel) msg rule st
        = Throw (Error "Group names must start with a capital letter"))
  /\
  (forall name idtok id grp messages fields st4 st5 st6 st7,
      read_tokens tn 3 st1 = ([Some name; Some (EQUAL L); idtok], st4) ->
      next tn st4 = (Some (OPEN L), st5) ->
      NAME L name = true ->
      starts_with_capital (JStr name) = true ->
      OPEN L <> OPTOPEN L ->
      _parseId L tn idtok false st4 = Ok (id, st4) ->
      _parseMessage_body L tn ID_MIN ID_MAX fuel
        [("name", JStr name); ("isGroup", JBool true); ("fields", JArr []);
         ("enums", JArr []); ("messages", JArr []); ("options", JObj [])] st5
        = Ok (grp, st6) ->
      skip_END L tn st6 = Ok (tt, st7) ->
      get msg "messages" = JArr messages ->
      get msg "fields" = JArr fields ->
      _parseMessageField L tn ID_MIN ID_MAX (S (S fuel)) msg rule st
        = Ok (set (set msg "messages" (JArr (messages ++ [JObj grp]))) "fields"
                (JArr (fields
                       ++ [JObj [("rule", of_token rule); ("options", JObj []);
                                 ("id", JInt id); ("type", JStr name);
                                 ("name", JStr (toLowerCase name))]])), st7)).
Proof.
  intros Hn. split; [|split].
  - intros msg' st' H. cbn [_parseMessageField] in H.
    step_next_in H. rewrite tok_eq_refl in H.
    apply bind_Ok in H as ([msg1 fld1] & s1 & Hrun & H).
    apply lift_Ok in H as [Hfields _].
    apply bind_Ok in Hrun as ([[msg2 fld2] grp] & s2 & Hgrp & Hrun).
    cbv beta iota in Hrun.
    destruct (starts_with_capital (get grp "name")) eqn:Hcap; [|discriminate].
    cbn [negb] in Hrun.
    destruct (get grp "name") as [| | | |name| |] eqn:Hname; try discriminate.
    apply bind_Ok in Hrun as (u & s3 & _ & Hrun). apply ret_Ok in Hrun as [Hrun _].
    injection Hrun as Hm Hf. subst msg1 fld1.
    apply parseMessage_group in Hgrp
      as (Hpush & Hgname & Hflag & f' & id & -> & Hrange & Hid & Hkeep).
    rewrite Hname in Hgname.
    exists grp, (set (set f' "type" (JStr name)) "name" (JStr (toLowerCase name))), name, id.
    split; [|split; [|split; [|split; [|split; [|split; [|split; [|split; [|split;
      [|split]]]]]]]]].
    + rewrite (elements_push_other _ _ _ _ _ Hfields) by discriminate.
      now apply elements_push.
    + rewrite (elements_push _ _ _ _ Hfields).
      now rewrite (elements_push_other _ _ _ _ _ Hpush) by discriminate.
    + destruct (fst (next tn st1)); [now inversion Hgname | discriminate].
    + exact Hcap.
    + exact Hname.
    + exact Hflag.
    + rewrite !get_set_other by discriminate. now rewrite Hkeep by discriminate.
    + rewrite get_set_other by discriminate. apply get_set_same.
    + apply get_set_same.
    + rewrite !get_set_other by discriminate. exact Hid.
    + exact Hrange.
  - intros msg1 fld1 grp st2 Hgrp Hcap. cbn [_parseMessageField].
    step_next. rewrite tok_eq_refl. rewrite bind_assoc.
    rewrite (bind_run _ _ _ _ _ Hgrp). cbv beta iota. rewrite Hcap. reflexivity.
  - intros name idtok id grp messages fields st4 st5 st6 st7
      Hread Hopen Hname Hcap Hne Hid Hbody Hskip Hmessages Hfields.
    split_tokens Hread.
    assert (Hgname : get grp "name" = JStr name).
    { rewrite (parseMessage_body_frame _ _ _ _ _ _ Hbody) by (simpl; intuition discriminate).
      reflexivity. }
    assert (Hgrp : _parseMessage L tn ID_MIN ID_MAX (S fuel) msg
                     (Some [("rule", of_token rule); ("options", JObj [])])
                     (Some "group") st1
                   = Ok (set msg "messages" (JArr (messages ++ [JObj grp])),
                         Some [("rule", of_token rule); ("options", JObj []);
                               ("id", JInt id)], grp, st6)).
    { cbn [_parseMessage]. step_next. tidy. rewrite Hname. cbn [negb].
      rewrite !tok_eq_refl. step_next. rewrite tok_eq_refl. cbn [negb]. step_next.
      rewrite bind_assoc. unfold bind at 1. unfold try_catch. rewrite Hid.
      rewrite bind_ret. cbv beta iota. step_next.
      rewrite (tok_eq_neq _ _ Hne). rewrite bind_ret. cbv beta iota.
      rewrite tok_eq_refl. cbn [negb].
      etransitivity; [apply (bind_run _ _ _ _ _ Hbody)|]. cbv beta.
      unfold bind, lift, push. rewrite Hmessages. reflexivity. }
    cbn [_parseMessageField]. step_next. rewrite tok_eq_refl. rewrite bind_assoc.
    etransitivity; [apply (bind_run _ _ _ _ _ Hgrp)|]. cbv beta iota.
    rewrite Hgname, Hcap. cbn [negb]. rewrite bind_assoc.
    rewrite (bind_run _ _ _ _ _ Hskip). rewrite bind_ret. cbv beta iota.
    unfold lift, push. rewrite get_set_other by discriminate. rewrite Hfields.
    reflexivity.
Qed.

End Groups.

(* ================================================================== *)
(** * Objects and the monad: further facts *)
(* ================================================================== *)

(** A second assignment to a property replaces the first. *)
Lemma set_set (o : object) (k : string) (v v' : value) :
  set (set o k v) k v' = set o k v'.
Proof.
  induction o as [|[k0 v0] r IH]; simpl.
  - now rewrite String.eqb_refl.
  - destruct (String.eqb k k0) eqn:E; simpl.
    + now rewrite String.eqb_refl.
    + now rewrite E, IH.
Qed.

(** Writing back what a property holds changes nothing. *)
Lemma set_get (o : object) (k : string) (v : value) :
  get o k = v -> v <> JUndefined -> set o k v = o.
Proof.
  induction o as [|[k0 v0] r IH]; simpl; intros H Hv.
  - congruence.
  - destruct (String.eqb k k0) eqn:E.
    + apply String.eqb_eq in E. now subst.
    + now rewrite IH.
Qed.

(** Assigning to a property the object has keeps its keys. *)
Lemma keys_set (o : object) (k : string) (v : value) :
  get o k <> JUndefined -> keys (set o k v) = keys o.
Proof.
  unfold keys. induction o as [|[k0 v0] r IH]; simpl; intros H.
  - congruence.
  - destruct (String.eqb k k0) eqn:E; simpl.
    + apply String.eqb_eq in E. now subst.
    + now rewrite IH.
Qed.

(** [push] works on an array and leaves one. *)
Lemma push_is_array (o o' : object) (k : string) (v : value) :
  push o k v = Ok o' -> is_array (get o k) = true /\ is_array (get o' k) = true.
Proof.
  intros H. pose proof H as H'. unfold push in H'.
  destruct (get o k); try discriminate. apply push_Ok in H. subst o'.
  now rewrite get_set_same.
Qed.

(** [put_in] leaves an object. *)
Lemma put_in_is_object (o o' : object) (k name : string) (v : value) :
  put_in o k name v = Ok o' -> is_object (get o' k) = true.
Proof. intros H. apply put_in_Ok in H. subst o'. now rewrite get_set_same. Qed.

Section TryCatch.

Context {T : Type}.

(** A guarded body that returns is not caught. *)
Lemma bind_try_catch {A B : Type} (body handler : M A) (k : A -> M B) (st st1 : T) (a : A) :
  body st = Ok (a, st1) -> bind (try_catch body handler) k st = k a st1.
Proof. unfold bind, try_catch. now intros ->. Qed.

End TryCatch.

(* ================================================================== *)
(** * Ignored statements *)
(* ================================================================== *)

Section IgnoredStatement.

Context {T : Type}.
Variable L : Lang.
Variable tn : Tokenizer T.
Variables ID_MIN ID_MAX : value.

(** X1.  [_parseIgnoredStatement] reads tokens up to and including the
    first terminator and returns there, whatever the tokens before it are
    (the empty string included); when the input ends first it fails with
    "Unexpected EOF in <parent>, <keyword> (ignored) at line <n>".  A
    top-level [syntax] statement therefore leaves the top-level object and
    the header flag as they were. *)
Theorem ignored_statement_runs_to_first_terminator
    (skipped : list string) (last : token) (fuel : nat) (parent : object) (keyword : token)
    (st st1 st2 : T) :
  read_tokens tn (length skipped) st = (map Some skipped, st1) ->
  Forall (fun t => t <> END L) skipped ->
  next tn st1 = (last, st2) ->
  (length skipped < fuel)%nat ->
  (last = Some (END L) ->
     _parseIgnoredStatement L tn fuel parent keyword st = Ok (tt, st2)
     /\ forall topLevel header,
          parse_statement L tn ID_MIN ID_MAX fuel topLevel header (Some "syntax") st
          = Ok (topLevel, header, st2))
  /\ (last = None ->
        _parseIgnoredStatement L tn fuel parent keyword st
        = Throw (Error ("Unexpected EOF in " ++ name_of parent ++ ", " ++ token_text keyword
                        ++ " (ignored) at line " ++ at_line tn st2))).
Proof.
  intros Hread Hskip Hlast Hfuel.
  assert (Hloop : forall p k r,
            (forall f, _parseIgnoredStatement L tn (S f) p k st1 = r) ->
            _parseIgnoredStatement L tn fuel p k st = r).
  { intros p k r Hr. revert st fuel Hread Hfuel.
    induction Hskip as [|t ts Ht Hts IH]; intros st fuel Hread Hfuel.
    - apply read_tokens_nil in Hread. subst st1.
      destruct fuel as [|f]; [inversion Hfuel|]. apply Hr.
    - cbn [length map] in Hread. split_tokens Hread.
      destruct fuel as [|f]; [inversion Hfuel|]. cbn [_parseIgnoredStatement].
      step_next. rewrite (tok_eq_neq _ _ Ht). apply IH; [assumption|].
      cbn [length] in Hfuel. lia. }
  split.
  - intros ->.
    assert (Hrun : forall p k, _parseIgnoredStatement L tn fuel p k st = Ok (tt, st2)).
    { intros p k. apply Hloop. intros f. cbn [_parseIgnoredStatement]. step_next.
      now rewrite tok_eq_refl. }
    split; [apply Hrun|].
    intros topLevel header. unfold parse_statement.
    cbn [tok_eq String.eqb Ascii.eqb Bool.eqb].
    now rewrite (bind_run _ _ _ _ _ (Hrun _ _)).
  - intros ->. apply Hloop. intros f. cbn [_parseIgnoredStatement]. now step_next.
Qed.

End IgnoredStatement.

(* ================================================================== *)
(** * Extension ranges *)
(* ================================================================== *)

Section Extensions.

Context {T : Type}.
Variable L : Lang.
Variable tn : Tokenizer T.
Variables ID_MIN ID_MAX : value.

(** X2.  [extensions <a> to <b>;] yields the pair of its two bounds in the
    order written, and a message body stores it under [extensions].  A
    bound is [min], [max] (the constants [ID_MIN] and [ID_MAX]) or whatever
    [_parseNumber] makes of the token: the bounds are not compared with each
    other nor with the id range, and not reduced to integers. *)
Theorem extensions_range_is_unchecked
    (fuel : nat) (msg : object) (tok a b : token) (low high : value)
    (st0 st st1 st3 st' : T) :
  next tn st = (a, st1) ->
  extensions_bound L tn ID_MIN ID_MAX a st1 = Ok (low, st1) ->
  read_tokens tn 2 st1 = ([Some "to"; b], st3) ->
  extensions_bound L tn ID_MIN ID_MAX b st3 = Ok (high, st3) ->
  next tn st3 = (Some (END L), st') ->
  _parseExtensions L tn ID_MIN ID_MAX msg tok st = Ok (JArr [low; high], st')
  /\ (next tn st0 = (Some "extensions", st) ->
      CLOSE L <> "extensions" -> RULE L "extensions" = false ->
      _parseMessage_body L tn ID_MIN ID_MAX (S fuel) msg st0
      = _parseMessage_body L tn ID_MIN ID_MAX fuel (set msg "extensions" (JArr [low; high])) st')
  /\ (forall s, extensions_bound L tn ID_MIN ID_MAX (Some "min") s = Ok (ID_MIN, s))
  /\ (forall s, extensions_bound L tn ID_MIN ID_MAX (Some "max") s = Ok (ID_MAX, s))
  /\ (forall text s,
        text <> "min" -> text <> "max" ->
        extensions_bound L tn ID_MIN ID_MAX (Some text) s
        = match _parseNumber L tn (Some text) s with
          | Ok (x, s') => Ok (JNum x, s')
          | Throw e => Throw e
          | OutOfFuel => OutOfFuel
          end).
Proof.
  intros Ha Hlow Hread Hhigh Hend. split_tokens Hread.
  assert (Hrun : forall m t, _parseExtensions L tn ID_MIN ID_MAX m t st
                             = Ok (JArr [low; high], st')).
  { intros m t. unfold _parseExtensions. step_next.
    rewrite (bind_run _ _ _ _ _ Hlow). step_next.
    cbn [tok_eq String.eqb Ascii.eqb Bool.eqb negb]. step_next.
    rewrite (bind_run _ _ _ _ _ Hhigh). step_next. now rewrite tok_eq_refl. }
  split; [apply Hrun|]. split; [|split; [|split]].
  - intros Hkw Hclose Hrule. cbn [_parseMessage_body]. step_next.
    rewrite (tok_eq_neq _ _ (not_eq_sym Hclose)). tidy. rewrite Hrule.
    cbn [tok_eq String.eqb Ascii.eqb Bool.eqb].
    now rewrite (bind_run _ _ _ _ _ (Hrun _ _)).
  - reflexivity.
  - reflexivity.
  - intros text s Hmin Hmax. unfold extensions_bound.
    rewrite (tok_eq_neq _ _ Hmin), (tok_eq_neq _ _ Hmax). unfold bind.
    destruct (_parseNumber L tn (Some text) s) as [[x s']| |]; reflexivity.
Qed.

End Extensions.

(* ================================================================== *)
(** * Enums *)
(* ================================================================== *)

Section Enums.

Context {T : Type}.
Variable L : Lang.
Variable tn : Tokenizer T.

(** The enum value [= <id>;] after its name. *)
Lemma parseEnumValue_plain fuel enm tok idtok id values st st2 st' :
  read_tokens tn 2 st = ([Some (EQUAL L); idtok], st2) ->
  _parseId L tn idtok true st2 = Ok (id, st2) ->
  get enm "values" = JArr values ->
  next tn st2 = (Some (END L), st') ->
  END L <> OPTOPEN L ->
  _parseEnumValue L tn fuel enm tok st
  = Ok (set enm "values"
          (JArr (values ++ [JObj [("name", of_token tok); ("id", JInt id)]])%list), st').
Proof.
  intros Hread Hid Hvalues Hend Hne. split_tokens Hread.
  unfold _parseEnumValue. step_next. rewrite tok_eq_refl. cbn [negb].
  step_next. unfold bind at 1. unfold try_catch. rewrite Hid. cbv beta iota.
  unfold bind at 1. unfold lift, push. rewrite Hvalues. step_next.
  rewrite (tok_eq_neq _ _ Hne). rewrite bind_ret. now rewrite tok_eq_refl.
Qed.

(** An enum value that parses adds one entry, its options apart. *)
Lemma parseEnumValue_Ok fuel enm tok st enm' st' :
  _parseEnumValue L tn fuel enm tok st = Ok (enm', st') ->
  exists id,
    int32 id
    /\ enm' = set enm "values"
                (JArr (elements enm "values"
                       ++ [JObj [("name", of_token tok); ("id", JInt id)]])%list).
Proof.
  intros H. unfold _parseEnumValue in H.
  apply bind_Ok in H as (t & s & _ & H). cbv beta in H.
  destruct (negb (tok_eq t (EQUAL L))); [discriminate|].
  apply bind_Ok in H as (t1 & s1 & _ & H). cbv beta in H.
  apply bind_Ok in H as (id & s2 & Hid & H). cbv beta in H.
  apply bind_Ok in H as (enm1 & s3 & Hpush & H). cbv beta in H.
  apply lift_Ok in Hpush as [Hpush _]. apply push_Ok in Hpush.
  apply bind_Ok in H as (t2 & s4 & _ & H). cbv beta in H.
  apply bind_Ok in H as (t3 & s5 & _ & H). cbv beta in H.
  destruct (negb (tok_eq t3 (END L))); [discriminate|].
  apply ret_Ok in H as [-> _]. exists id. split; [|exact Hpush].
  unfold try_catch in Hid.
  destruct (_parseId L tn t1 true s1) as [[id0 s6]|e|] eqn:E; try discriminate.
  inversion Hid; subst. now destruct (parseId_Ok L tn _ _ _ _ _ E) as (Hint & _).
Qed.

(** X3.  The bracketed options of an enum value are parsed and thrown
    away: an enum value that parses adds to [values] the entry of its name
    and id and nothing else, and [name = id [ ... ];] leaves the enum exactly
    as [name = id;] does. *)
Theorem enum_value_options_are_discarded
    (fuel : nat) (enm : object) (tok : token) (st : T) :
  (forall enm' st',
      _parseEnumValue L tn fuel enm tok st = Ok (enm', st') ->
      exists id,
        int32 id
        /\ enm' = set enm "values"
                    (JArr (elements enm "values"
                           ++ [JObj [("name", of_token tok); ("id", JInt id)]])%list))
  /\
  (forall idtok id values st2 st',
      read_tokens tn 2 st = ([Some (EQUAL L); idtok], st2) ->
      _parseId L tn idtok true st2 = Ok (id, st2) ->
      get enm "values" = JArr values ->
      let enm' := set enm "values"
                    (JArr (values ++ [JObj [("name", of_token tok); ("id", JInt id)]])%list) in
      (next tn st2 = (Some (END L), st') -> END L <> OPTOPEN L ->
       _parseEnumValue L tn fuel enm tok st = Ok (enm', st'))
      /\
      (forall opt st3 st4,
          next tn st2 = (Some (OPTOPEN L), st3) ->
          _parseFieldOptions L tn fuel enm' [("options", JObj [])] (Some (OPTOPEN L)) st3
            = Ok (opt, st4) ->
          next tn st4 = (Some (END L), st') ->
          _parseEnumValue L tn fuel enm tok st = Ok (enm', st'))).
Proof.
  split; [intros enm' st'; apply parseEnumValue_Ok|].
  intros idtok id values st2 st' Hread Hid Hvalues enm'. split.
  - intros Hend Hne. now apply parseEnumValue_plain with (idtok := idtok) (st2 := st2).
  - intros opt st3 st4 Hopen Hopts Hend. split_tokens Hread.
    unfold _parseEnumValue. step_next. rewrite tok_eq_refl. cbn [negb].
    step_next. rewrite (bind_try_catch _ _ _ _ _ _ Hid).
    unfold bind at 1. unfold lift, push. rewrite Hvalues. step_next.
    rewrite tok_eq_refl. rewrite bind_assoc.
    rewrite (bind_run _ _ _ _ _ Hopts). step_next. now rewrite tok_eq_refl.
Qed.
(** X4.  [enum <name> { n1 = id1; ...; nk = idk; }] pushes on [enums] an
    enum whose [values] are the pairs of name and id in source order, for
    any number of values; nothing compares a value with the earlier ones, so
    repeated names and repeated ids are kept. *)
Theorem enum_values_keep_source_order
    (vals : list (string * string * Z)) (name : string) (fuel : nat) (msg : object)
    (tok : token) (enums : list value) (st0 st st1 st2 st' : T) :
  read_tokens tn 2 st0 = ([Some name; Some (OPEN L)], st) ->
  NAME L name = true ->
  Forall (fun v => let '(n, text, id) := v in
                   NAME L n = true /\ n <> CLOSE L /\ n <> "option"
                   /\ forall s, _parseId L tn (Some text) true s = Ok (id, s)) vals ->
  read_tokens tn (length (flat_map (enum_value_tokens L) vals)) st
    = (flat_map (enum_value_tokens L) vals, st1) ->
  next tn st1 = (Some (CLOSE L), st2) ->
  skip_END L tn st2 = Ok (tt, st') ->
  END L <> OPTOPEN L ->
  get msg "enums" = JArr enums ->
  (length vals < fuel)%nat ->
  _parseEnum L tn fuel msg tok st0
  = Ok (set msg "enums"
          (JArr (enums ++ [JObj [("name", JStr name);
                                 ("values", JArr (map enum_value_entry vals));
                                 ("options", JObj [])]])%list), st').
Proof.
  intros Hhead Hname Hvals Hread Hclose Hskip Hne Henums Hfuel.
  assert (Hbody : forall enm values,
            get enm "values" = JArr values ->
            _parseEnum_body L tn fuel enm st
            = Ok (set enm "values" (JArr (values ++ map enum_value_entry vals)%list), st')).
  { clear Hhead. revert st fuel Hread Hfuel.
    induction Hvals as [|[[n text] id] vals (Hn & Hc & Ho & Hid) Hvals IH];
      intros st fuel Hread Hfuel enm values Hvalues.
    - apply read_tokens_nil in Hread. subst st1.
      destruct fuel as [|f]; [inversion Hfuel|]. cbn [_parseEnum_body]. step_next.
      rewrite tok_eq_refl. rewrite (bind_run _ _ _ _ _ Hskip). unfold ret.
      cbn [map]. rewrite app_nil_r. now rewrite (set_get _ _ _ Hvalues).
    - cbn [flat_map enum_value_tokens app length] in Hread.
      apply read_tokens_cons in Hread as (sa & Ha & Hread).
      apply read_tokens_cons in Hread as (sb & Hb & Hread).
      apply read_tokens_cons in Hread as (sc & Hc' & Hread).
      apply read_tokens_cons in Hread as (sd & Hd & Hread).
      destruct fuel as [|f]; [inversion Hfuel|]. cbn [_parseEnum_body]. step_next.
      rewrite (tok_eq_neq _ _ Hc), (tok_eq_neq _ _ Ho). tidy. rewrite Hn. cbn [negb].
      assert (Hval : _parseEnumValue L tn f enm (Some n) sa
                     = Ok (set enm "values"
                             (JArr (values ++ [JObj [("name", of_token (Some n));
                                                     ("id", JInt id)]])%list), sd)).
      { apply parseEnumValue_plain with (idtok := Some text) (st2 := sc); auto.
        cbn [read_tokens]. now rewrite Hb, Hc'. }
      rewrite (bind_run _ _ _ _ _ Hval).
      rewrite (IH sd f Hread ltac:(cbn [length] in Hfuel; lia) _ _ (get_set_same _ _ _)).
      rewrite set_set. cbn [map enum_value_entry of_token]. now rewrite <- app_assoc. }
  split_tokens Hhead. unfold _parseEnum. step_next. tidy. rewrite Hname. cbn [negb].
  step_next. rewrite tok_eq_refl. cbn [negb].
  rewrite (bind_run _ _ _ _ _
             (Hbody (set (set [("name", JStr name)] "values" (JArr [])) "options" (JObj []))
                [] eq_refl)).
  unfold lift, push. rewrite Henums. reflexivity.
Qed.

(** The body of an enum keeps its name, adds well-formed values and keeps
    an object under [options]. *)
Lemma parseEnum_body_values fuel enm st enm' st' :
  _parseEnum_body L tn fuel enm st = Ok (enm', st') ->
  Forall (is_enum_value L) (elements enm "values") ->
  is_object (get enm "options") = true ->
  get enm' "name" = get enm "name"
  /\ Forall (is_enum_value L) (elements enm' "values")
  /\ is_object (get enm' "options") = true.
Proof.
  revert enm st. induction fuel as [|fuel IH]; intros enm st H Hvalues Hopts; [discriminate|].
  cbn [_parseEnum_body] in H.
  apply bind_Ok in H as (t & s & _ & H). cbv beta in H.
  destruct (tok_eq t (CLOSE L)).
  { follow_ok H. apply ret_Ok in H as [-> _]. auto. }
  destruct (tok_eq t "option").
  { apply bind_Ok in H as (enm1 & s1 & Hrun & H). cbv beta in H.
    apply parseOption_parent in Hrun as (name & v & Hrun).
    pose proof (put_in_is_object _ _ _ _ _ Hrun) as Ho.
    pose proof (fun k' => put_in_frame _ _ _ k' _ _ Hrun) as Hframe.
    destruct (IH _ _ H) as (Hn & Hv & Ho').
    - unfold elements. rewrite Hframe by discriminate. exact Hvalues.
    - exact Ho.
    - split; [|split]; try assumption. rewrite Hn. apply Hframe. discriminate. }
  destruct (negb (test (NAME L) t)) eqn:Ename; [discriminate|].
  apply bind_Ok in H as (enm1 & s1 & Hrun & H). cbv beta in H.
  apply parseEnumValue_Ok in Hrun as (id & Hint & ->).
  destruct (IH _ _ H) as (Hn & Hv & Ho').
  - unfold elements at 1. rewrite get_set_same. apply Forall_app. split; [exact Hvalues|].
    constructor; [|constructor]. exists t, id.
    split; [reflexivity | split; [now destruct (test (NAME L) t) | exact Hint]].
  - now rewrite get_set_other by discriminate.
  - split; [|split]; try assumption. rewrite Hn. apply get_set_other. discriminate.
Qed.

(** X5.  An enum that parses is pushed on the [enums] of its parent; its
    name is the token after the keyword and has the form of a name, every
    entry of its [values] is a name with a 32-bit id, and its [options] is an
    object. *)
Theorem enum_that_parses_is_well_formed
    (fuel : nat) (msg : object) (tok : token) (st : T) (msg' : object) (st' : T) :
  _parseEnum L tn fuel msg tok st = Ok (msg', st') ->
  exists enm,
    msg' = set msg "enums" (JArr (elements msg "enums" ++ [JObj enm])%list)
    /\ get enm "name" = of_token (fst (next tn st))
    /\ test (NAME L) (fst (next tn st)) = true
    /\ Forall (is_enum_value L) (elements enm "values")
    /\ is_object (get enm "options") = true.
Proof.
  unfold _parseEnum. intros H.
  unfold bind at 1 in H. unfold tn_next at 1 in H.
  destruct (next tn st) as [name s0]. cbn [fst].
  destruct (negb (test (NAME L) name)) eqn:Ename; [discriminate|].
  apply bind_Ok in H as (t & s1 & _ & H). cbv beta in H.
  destruct (negb (tok_eq t (OPEN L))); [discriminate|].
  apply bind_Ok in H as (enm & s2 & Hbody & H).
  apply lift_Ok in H as [H _]. apply push_Ok in H.
  apply parseEnum_body_values in Hbody as (Hname & Hvalues & Hopts);
    [|constructor|reflexivity].
  exists enm. repeat split; try assumption.
  now destruct (test (NAME L) name).
Qed.

End Enums.

(* ================================================================== *)
(** * Fields and messages *)
(* ================================================================== *)

Section Fields.

Context {T : Type}.
Variable L : Lang.
Variable tn : Tokenizer T.
Variables ID_MIN ID_MAX : value.

(** The field [<type> <name> = <id>;] after its rule. *)
Lemma parseMessageField_plain fuel msg rule type name idtok id fields st st4 st' :
  read_tokens tn 4 st = ([Some type; Some name; Some (EQUAL L); idtok], st4) ->
  next tn st4 = (Some (END L), st') ->
  type <> "group" ->
  (TYPE L type || TYPEREF L type)%bool = true ->
  NAME L name = true ->
  _parseId L tn idtok false st4 = Ok (id, st4) ->
  END L <> OPTOPEN L ->
  get msg "fields" = JArr fields ->
  _parseMessageField L tn ID_MIN ID_MAX (S fuel) msg rule st
  = Ok (set msg "fields"
          (JArr (fields ++ [JObj [("rule", of_token rule); ("options", JObj []);
                                  ("type", JStr type); ("name", JStr name);
                                  ("id", JInt id)]])%list), st').
Proof.
  intros Hread Hend Hgroup Htype Hname Hid Hne Hfields. split_tokens Hread.
  cbn [_parseMessageField]. step_next. rewrite (tok_eq_neq _ _ Hgroup).
  tidy. apply orb_true_iff in Htype.
  assert (Ht : (negb (TYPE L type) && negb (TYPEREF L type))%bool = false).
  { destruct Htype as [-> | ->]; [reflexivity | apply andb_false_r]. }
  rewrite Ht. step_next. tidy. rewrite Hname. cbn [negb].
  step_next. rewrite tok_eq_refl. cbn [negb]. step_next.
  rewrite !bind_assoc. rewrite (bind_try_catch _ _ _ _ _ _ Hid).
  step_next. rewrite (tok_eq_neq _ _ Hne). rewrite !bind_assoc, bind_ret. cbv beta iota.
  rewrite tok_eq_refl. cbn [negb]. rewrite bind_ret. cbv beta iota.
  unfold lift, push. rewrite Hfields. reflexivity.
Qed.

(** Field options leave an object under [options]. *)
Lemma parseFieldOptions_options fuel msg fld first st fld' st' :
  _parseFieldOptions_loop L tn fuel msg fld first st = Ok (fld', st') ->
  (exists o, get fld "options" = JObj o) -> exists o, get fld' "options" = JObj o.
Proof.
  revert fld first st. induction fuel as [|fuel IH]; intros fld first st H Ho;
    [discriminate|].
  cbn [_parseFieldOptions_loop] in H.
  apply bind_Ok in H as (t & s & _ & H). cbv beta in H.
  destruct (tok_eq t (OPTCLOSE L)).
  - apply ret_Ok in H as [-> _]. exact Ho.
  - apply bind_Ok in H as (t' & s' & _ & H). cbv beta in H.
    apply bind_Ok in H as (fld1 & s1 & Hopt & H). cbv beta in H.
    apply (IH _ _ _ H). unfold _parseFieldOption in Hopt.
    follow_ok Hopt; apply lift_Ok in Hopt as [Hopt _]; apply put_in_Ok in Hopt;
      subst fld1; rewrite get_set_same; eauto.
Qed.

(** A field declaration leaves an array under [fields]. *)
Lemma parseMessageField_fields fuel msg tok st msg' st' :
  _parseMessageField L tn ID_MIN ID_MAX fuel msg tok st = Ok (msg', st') ->
  exists fields, get msg' "fields" = JArr fields.
Proof.
  destruct fuel; [discriminate|]. cbn [_parseMessageField]. intros H.
  apply bind_Ok in H as (t & s & _ & H). cbv beta in H.
  apply bind_Ok in H as ([msg1 fld1] & s1 & _ & H).
  apply lift_Ok in H as [H _]. apply push_Ok in H. subst msg'.
  rewrite get_set_same. eauto.
Qed.

(** X6.  A field other than a group that parses is pushed on [fields] as
    an object with the rule token, a type that matches the scalar-type or the
    type-reference pattern, a name of the form of a name, an id with
    0 <= id < 2^31 and an object of options. *)
Theorem field_that_parses_is_well_formed
    (fuel : nat) (msg : object) (rule type : token) (st st1 : T) (msg' : object) (st' : T) :
  next tn st = (type, st1) ->
  tok_eq type "group" = false ->
  _parseMessageField L tn ID_MIN ID_MAX fuel msg rule st = Ok (msg', st') ->
  exists fld name id options,
    msg' = set msg "fields" (JArr (elements msg "fields" ++ [JObj fld])%list)
    /\ get fld "rule" = of_token rule
    /\ get fld "type" = of_token type
    /\ (test (TYPE L) type || test (TYPEREF L) type)%bool = true
    /\ get fld "name" = of_token name
    /\ test (NAME L) name = true
    /\ get fld "id" = JInt id
    /\ 0 <= id < 2 ^ 31
    /\ get fld "options" = JObj options.
Proof.
  intros Hn Hgroup H. destruct fuel as [|fuel]; [discriminate|].
  cbn [_parseMessageField] in H. step_next_in H. rewrite Hgroup in H.
  apply bind_Ok in H as ([msg1 fld] & s1 & Hrun & H).
  apply lift_Ok in H as [H _].
  destruct ((negb (test (TYPE L) type) && negb (test (TYPEREF L) type))%bool) eqn:Etype;
    [discriminate|].
  apply bind_Ok in Hrun as (name & s2 & _ & Hrun). cbv beta in Hrun.
  destruct (negb (test (NAME L) name)) eqn:Ename; [discriminate|].
  apply bind_Ok in Hrun as (eq & s3 & _ & Hrun). cbv beta in Hrun.
  destruct (negb (tok_eq eq (EQUAL L))); [discriminate|].
  apply bind_Ok in Hrun as (idtok & s4 & _ & Hrun). cbv beta in Hrun.
  apply bind_Ok in Hrun as (id & s5 & Hid & Hrun). cbv beta in Hrun.
  apply bind_Ok in Hrun as (t5 & s6 & _ & Hrun). cbv beta in Hrun.
  apply bind_Ok in Hrun as ([fld1 t6] & s7 & Hopts & Hrun). cbv beta iota in Hrun.
  destruct (negb (tok_eq t6 (END L))); [discriminate|].
  apply ret_Ok in Hrun as [Hrun _]. inversion Hrun; subst msg1 fld1; clear Hrun.
  assert (Hrange : 0 <= id < 2 ^ 31).
  { unfold try_catch in Hid.
    destruct (_parseId L tn idtok false s4) as [[id0 s8]|e|] eqn:E; try discriminate.
    inversion Hid; subst.
    destruct (parseId_Ok L tn _ _ _ _ _ E) as (Hint & _ & Hpos & _). unfold int32 in Hint.
    specialize (Hpos eq_refl). lia. }
  set (fld0 := set (set (set (set (set [] "rule" (of_token rule)) "options" (JObj []))
                            "type" (of_token type)) "name" (of_token name)) "id" (JInt id))
    in *.
  assert (Hfld : (forall k, k <> "options" -> get fld k = get fld0 k)
                 /\ exists o, get fld "options" = JObj o).
  { destruct (tok_eq t5 (OPTOPEN L)).
    - apply bind_Ok in Hopts as (f2 & s8 & Hfo & Hopts).
      apply bind_Ok in Hopts as (t7 & s9 & _ & Hopts). apply ret_Ok in Hopts as [Hopts _].
      inversion Hopts; subst f2 t7; clear Hopts. unfold _parseFieldOptions in Hfo. split.
      + intros k Hk. eapply parseFieldOptions_frame; eassumption.
      + eapply parseFieldOptions_options; [eassumption|]. exists []. reflexivity.
    - apply ret_Ok in Hopts as [Hopts _]. inversion Hopts; subst. split; [reflexivity|].
      exists []. reflexivity. }
  destruct Hfld as (Hkeep & options & Hoptions).
  exists fld, name, id, options.
  split; [now apply push_Ok|].
  split; [now rewrite Hkeep by discriminate|].
  split; [now rewrite Hkeep by discriminate|].
  split.
  { destruct (test (TYPE L) type); [reflexivity|].
    destruct (test (TYPEREF L) type); [reflexivity | discriminate]. }
  split; [now rewrite Hkeep by discriminate|].
  split; [now destruct (test (NAME L) name)|].
  split; [now rewrite Hkeep by discriminate|].
  split; [exact Hrange | exact Hoptions].
Qed.

(** X7.  [message <name> { f1 ... fk }], the [fi] being fields
    [rule type name = id;], pushes on [messages] a message whose [fields] are
    those fields in source order, with empty [enums], [messages] and
    [options] and no group flag.  The ids need only be non-negative 32-bit
    integers: [ID_MIN] and [ID_MAX] are not consulted, and nothing compares a
    field with the earlier ones. *)
Theorem message_fields_keep_source_order
    (fs : list (string * string * string * string * Z)) (name : string) (kw : token)
    (fuel : nat) (parent : object) (messages : list value) (st0 st st1 st2 st' : T) :
  tok_eq kw "group" = false ->
  read_tokens tn 2 st0 = ([Some name; Some (OPEN L)], st) ->
  NAME L name = true ->
  Forall (fun f => let '(rule, type, n, text, id) := f in
                   RULE L rule = true /\ rule <> CLOSE L /\ type <> "group"
                   /\ (TYPE L type || TYPEREF L type)%bool = true
                   /\ NAME L n = true
                   /\ forall s, _parseId L tn (Some text) false s = Ok (id, s)) fs ->
  read_tokens tn (length (flat_map (field_tokens L) fs)) st
    = (flat_map (field_tokens L) fs, st1) ->
  next tn st1 = (Some (CLOSE L), st2) ->
  skip_END L tn st2 = Ok (tt, st') ->
  END L <> OPTOPEN L ->
  get parent "messages" = JArr messages ->
  (S (length fs) < fuel)%nat ->
  let msg := [("name", JStr name); ("fields", JArr (map field_entry fs)); ("enums", JArr []);
              ("messages", JArr []); ("options", JObj [])] in
  _parseMessage L tn ID_MIN ID_MAX fuel parent None kw st0
  = Ok (set parent "messages" (JArr (messages ++ [JObj msg])%list), None, msg, st').
Proof.
  intros Hkw Hhead Hname Hfs Hread Hclose Hskip Hne Hmessages Hfuel msg.
  destruct fuel as [|fuel]; [inversion Hfuel|]. apply Nat.succ_lt_mono in Hfuel.
  assert (Hbody : forall m fields,
            get m "fields" = JArr fields ->
            _parseMessage_body L tn ID_MIN ID_MAX fuel m st
            = Ok (set m "fields" (JArr (fields ++ map field_entry fs)%list), st')).
  { clear Hhead. revert st fuel Hread Hfuel.
    induction Hfs as [|[[[[rule type] n] text] id] fs (Hr & Hc & Hg & Ht & Hn & Hid) Hfs IH];
      intros st fuel Hread Hfuel m fields Hfields.
    - apply read_tokens_nil in Hread. subst st1.
      destruct fuel as [|f]; [inversion Hfuel|]. cbn [_parseMessage_body]. step_next.
      rewrite tok_eq_refl. rewrite (bind_run _ _ _ _ _ Hskip). unfold ret.
      cbn [map]. rewrite app_nil_r. now rewrite (set_get _ _ _ Hfields).
    - cbn [flat_map field_tokens app length] in Hread.
      apply read_tokens_cons in Hread as (sa & Ha & Hread).
      apply read_tokens_cons in Hread as (sb & Hb & Hread).
      apply read_tokens_cons in Hread as (sc & Hc' & Hread).
      apply read_tokens_cons in Hread as (sd & Hd & Hread).
      apply read_tokens_cons in Hread as (se & He & Hread).
      apply read_tokens_cons in Hread as (sf & Hf & Hread).
      destruct fuel as [|f]; [inversion Hfuel|].
      cbn [length] in Hfuel. apply Nat.succ_lt_mono in Hfuel.
      destruct f as [|f]; [inversion Hfuel|].
      assert (Hfield : _parseMessageField L tn ID_MIN ID_MAX (S f) m (Some rule) sa
                       = Ok (set m "fields"
                               (JArr (fields ++ [field_entry (rule, type, n, text, id)])%list),
                             sf)).
      { apply parseMessageField_plain with (idtok := Some text) (st4 := se); auto.
        cbn [read_tokens]. now rewrite Hb, Hc', Hd, He. }
      cbn [_parseMessage_body]. step_next.
      rewrite (tok_eq_neq _ _ Hc). tidy. rewrite Hr.
      etransitivity; [apply (bind_run _ _ _ _ _ Hfield)|]. cbv beta.
      etransitivity;
        [apply (IH sf (S f) Hread Hfuel _ _ (get_set_same _ _ _))|].
      rewrite set_set. cbn [map]. now rewrite <- app_assoc. }
  split_tokens Hhead. cbn [_parseMessage]. step_next. tidy. rewrite Hname. cbn [negb].
  rewrite Hkw. rewrite bind_ret. cbv beta iota. step_next. rewrite bind_ret. cbv beta iota.
  rewrite tok_eq_refl. cbn [negb].
  etransitivity;
    [apply (bind_run _ _ _ _ _
              (Hbody (set (set (set (set [("name", JStr name)] "fields" (JArr [])) "enums"
                                (JArr [])) "messages" (JArr [])) "options" (JObj []))
                 [] eq_refl))|].
  cbv beta. unfold bind, lift, push. rewrite Hmessages. reflexivity.
Qed.

(** A field declaration keeps the tables of its message. *)
Lemma parseMessageField_tables fuel msg tok st msg' st' :
  _parseMessageField L tn ID_MIN ID_MAX fuel msg tok st = Ok (msg', st') ->
  has_message_tables msg = true -> has_message_tables msg' = true.
Proof.
  intros H Htables.
  pose proof (fun k => parseMessageField_frame L tn ID_MIN ID_MAX _ _ _ _ _ _ k H) as Hframe.
  unfold has_message_tables in *.
  rewrite (Hframe "enums"), (Hframe "options") by discriminate.
  destruct (parseMessageField_fields _ _ _ _ _ _ H) as [fields ->].
  apply andb_true_iff in Htables as [Htables Ho].
  apply andb_true_iff in Htables as [Htables Hm].
  apply andb_true_iff in Htables as [Hf He].
  rewrite He, Ho. cbn [is_array andb]. rewrite andb_true_r.
  destruct fuel; [discriminate|]. cbn [_parseMessageField] in H.
  apply bind_Ok in H as (t & s & _ & H). cbv beta in H.
  apply bind_Ok in H as ([msg1 fld1] & s1 & Hrun & H).
  apply lift_Ok in H as [H _].
  rewrite (push_frame _ _ _ _ _ H) by discriminate.
  destruct (tok_eq t "group").
  - apply bind_Ok in Hrun as ([[msg2 fld2] grp] & s2 & Hgrp & Hrun).
    apply parseMessage_parent in Hgrp. apply push_is_array in Hgrp as [_ Hgrp].
    follow_ok Hrun.
    destruct (get grp "name"); try discriminate Hrun.
    follow_ok Hrun. apply ret_Ok in Hrun as [Hrun _]. inversion Hrun; subst. exact Hgrp.
  - follow_ok Hrun; apply ret_Ok in Hrun as [Hrun _]; inversion Hrun; subst; exact Hm.
Qed.

(** So does the body of a message. *)
Lemma parseMessage_body_tables fuel msg st msg' st' :
  _parseMessage_body L tn ID_MIN ID_MAX fuel msg st = Ok (msg', st') ->
  has_message_tables msg = true -> has_message_tables msg' = true.
Proof.
  revert msg st. induction fuel as [|fuel IH]; intros msg st H Htables; [discriminate|].
  cbn [_parseMessage_body] in H.
  apply bind_Ok in H as (t & s & _ & H). cbv beta in H.
  destruct (tok_eq t (CLOSE L)).
  { follow_ok H. apply ret_Ok in H as [-> _]. exact Htables. }
  assert (Hpush : forall k v m, In k ["enums"; "messages"] -> push msg k v = Ok m ->
                                has_message_tables m = true).
  { intros k v m Hk Hp. pose proof (push_is_array _ _ _ _ Hp) as [_ Ha].
    pose proof (fun k' => push_frame _ _ _ k' _ Hp) as Hframe.
    unfold has_message_tables in *.
    destruct Hk as [<- | [<- | []]].
    - rewrite Ha. rewrite !Hframe by discriminate.
      destruct (is_array (get msg "enums")); [exact Htables|].
      now rewrite andb_false_r in Htables.
    - rewrite Ha. rewrite !Hframe by discriminate.
      destruct (is_array (get msg "messages")); [exact Htables|].
      now rewrite andb_false_r in Htables. }
  destruct (test (RULE L) t).
  { apply bind_Ok in H as (m & s1 & Hrun & H). cbv beta in H.
    apply (IH _ _ H). eapply parseMessageField_tables; eassumption. }
  destruct (tok_eq t "enum").
  { apply bind_Ok in H as (m & s1 & Hrun & H). cbv beta in H.
    apply (IH _ _ H). apply parseEnum_parent in Hrun as [enm Hrun].
    eapply Hpush; [|eassumption]. simpl; auto. }
  destruct (tok_eq t "message").
  { apply bind_Ok in H as ([[m f] g] & s1 & Hrun & H). cbv beta iota in H.
    apply (IH _ _ H). apply parseMessage_parent in Hrun.
    eapply Hpush; [|eassumption]. simpl; auto. }
  destruct (tok_eq t "option").
  { apply bind_Ok in H as (m & s1 & Hrun & H). cbv beta in H.
    apply (IH _ _ H). apply parseOption_parent in Hrun as (name & v & Hrun).
    pose proof (put_in_is_object _ _ _ _ _ Hrun) as Ho.
    pose proof (fun k' => put_in_frame _ _ _ k' _ _ Hrun) as Hframe.
    unfold has_message_tables in *. rewrite Ho. rewrite !Hframe by discriminate.
    destruct (is_object (get msg "options")); [exact Htables|].
    now rewrite andb_false_r in Htables. }
  destruct (tok_eq t "extensions").
  { apply bind_Ok in H as (range & s1 & Hrun & H). cbv beta in H.
    apply (IH _ _ H). unfold has_message_tables in *.
    now rewrite !get_set_other by discriminate. }
  destruct (tok_eq t "extend").
  { apply bind_Ok in H as ([m e] & s1 & Hrun & H). cbv beta iota in H.
    apply (IH _ _ H). apply parseExtend_parent in Hrun.
    eapply Hpush; [|eassumption]. simpl; auto. }
  discriminate H.
Qed.

(** X8.  A message that parses is pushed on the [messages] of its parent;
    its name is the token after the keyword and has the form of a name, it
    carries the group flag exactly when the keyword was [group], and its
    [fields], [enums] and [messages] are arrays and its [options] an object.
    Called without a field, as for a [message] statement, it hands no field
    back. *)
Theorem message_that_parses_is_well_formed
    (fuel : nat) (parent : object) (fld : option object) (tok : token) (st : T)
    (parent' : object) (fld' : option object) (msg : object) (st' : T) :
  _parseMessage L tn ID_MIN ID_MAX fuel parent fld tok st = Ok (parent', fld', msg, st') ->
  parent' = set parent "messages" (JArr (elements parent "messages" ++ [JObj msg])%list)
  /\ get msg "name" = of_token (fst (next tn st))
  /\ test (NAME L) (fst (next tn st)) = true
  /\ get msg "isGroup" = (if tok_eq tok "group" then JBool true else JUndefined)
  /\ has_message_tables msg = true
  /\ (fld = None -> fld' = None /\ tok_eq tok "group" = false).
Proof.
  intros H. split; [apply push_Ok; eapply parseMessage_parent; exact H|].
  destruct fuel; [discriminate|]. cbn [_parseMessage] in H.
  unfold bind at 1 in H. unfold tn_next at 1 in H.
  destruct (next tn st) as [name s0]. cbn [fst].
  destruct (negb (test (NAME L) name)) eqn:Ename; [discriminate|].
  apply bind_Ok in H as ([fld1 msg1] & s1 & Hid & H).
  cbv beta iota in H.
  apply bind_Ok in H as (t3 & s5 & _ & H). cbv beta in H.
  apply bind_Ok in H as ([fld2 t4] & s6 & Hopts & H). cbv beta iota in H.
  destruct (negb (tok_eq t4 (OPEN L))); [discriminate|].
  apply bind_Ok in H as (msg2 & s7 & Hbody & H). cbv beta in H.
  apply bind_Ok in H as (p & s8 & _ & H). apply ret_Ok in H as [H _].
  injection H as <- <- <-.
  pose proof (fun k => parseMessage_body_frame L tn ID_MIN ID_MAX _ _ _ _ _ k Hbody) as Hkeep.
  apply parseMessage_body_tables in Hbody; [|unfold has_message_tables;
    rewrite get_set_same; rewrite !get_set_other by discriminate;
    rewrite get_set_same; rewrite !get_set_other by discriminate;
    rewrite get_set_same; rewrite !get_set_other by discriminate;
    rewrite get_set_same; reflexivity].
  assert (Hmsg1 : get msg1 "name" = of_token name
                  /\ get msg1 "isGroup"
                     = (if tok_eq tok "group" then JBool true else JUndefined)
                  /\ (fld = None -> fld1 = None /\ tok_eq tok "group" = false)).
  { destruct (tok_eq tok "group").
    - apply bind_Ok in Hid as (t1 & s2 & _ & Hid). cbv beta in Hid.
      destruct (negb (tok_eq t1 (EQUAL L))); [discriminate|].
      apply bind_Ok in Hid as (t2 & s3 & _ & Hid). cbv beta in Hid.
      destruct fld as [f|]; [|discriminate].
      apply bind_Ok in Hid as (id & s4 & _ & Hid). apply ret_Ok in Hid as [Hid _].
      inversion Hid; subst. repeat split; try reflexivity; discriminate.
    - apply ret_Ok in Hid as [Hid _]. inversion Hid; subst. auto. }
  destruct Hmsg1 as (Hn & Hg & Hf).
  split; [rewrite Hkeep by (simpl; intuition discriminate);
          rewrite !get_set_other by discriminate; exact Hn|].
  split; [now destruct (test (NAME L) name)|].
  split; [rewrite Hkeep by (simpl; intuition discriminate);
          rewrite !get_set_other by discriminate; exact Hg|].
  split; [exact Hbody|].
  intros Hnone. destruct (Hf Hnone) as [-> Hgroup]. split; [|exact Hgroup].
  apply ret_Ok in Hopts as [Hopts _]. now inversion Hopts.
Qed.

End Fields.

(* ================================================================== *)
(** * Option values and option names *)
(* ================================================================== *)

Section OptionValues.

Context {T : Type}.
Variable L : Lang.
Variable tn : Tokenizer T.

(** X9.  A boolean option value is compared with ["true"] as written in an
    [option] statement and in lower case in bracketed field options: a
    boolean literal spelled otherwise than [true] is false in the first and,
    when its lower-case form is [true], true in the second. *)
Theorem boolean_option_value_case
    (parent msg fld : object) (tok : token) (n v : string) :
  TYPEREF L n = true ->
  n <> COPTOPEN L ->
  v <> STRINGOPEN L -> v <> STRINGOPEN_SQ L ->
  NUMBER L v = false ->
  BOOL L v = true ->
  (forall options st st',
      read_tokens tn 4 st = ([Some n; Some (EQUAL L); Some v; Some (END L)], st') ->
      get parent "options" = JObj options ->
      _parseOption L tn parent tok st
      = Ok (set parent "options" (JObj (put options n (JBool (String.eqb v "true")))), st'))
  /\
  (forall options st st',
      read_tokens tn 2 st = ([Some (EQUAL L); Some v], st') ->
      get fld "options" = JObj options ->
      _parseFieldOption L tn msg fld (Some n) st
      = Ok (set fld "options"
              (JObj (put options n (JBool (String.eqb (toLowerCase v) "true")))), st')).
Proof.
  intros Hn Hcustom Hq1 Hq2 Hnum Hbool. split.
  - intros options st st' Hread Hopts. split_tokens Hread.
    unfold _parseOption. step_next. rewrite (tok_eq_neq _ _ Hcustom).
    rewrite bind_ret. tidy. rewrite Hn. cbn [negb andb]. step_next.
    rewrite bind_ret. cbv beta iota. rewrite tok_eq_refl. cbn [negb]. step_next.
    rewrite (tok_eq_neq _ _ Hq1), (tok_eq_neq _ _ Hq2). cbn [orb]. tidy.
    rewrite Hnum, Hbool. rewrite bind_ret. step_next. rewrite tok_eq_refl. cbn [negb].
    unfold lift, put_in. rewrite Hopts. reflexivity.
  - intros options st st' Hread Hopts. split_tokens Hread.
    unfold _parseFieldOption. rewrite (tok_eq_neq _ _ Hcustom).
    rewrite bind_ret. tidy. rewrite Hn. cbn [negb]. step_next.
    rewrite bind_ret. cbv beta iota. rewrite tok_eq_refl. cbn [negb]. step_next.
    rewrite (tok_eq_neq _ _ Hq1), (tok_eq_neq _ _ Hq2). cbn [orb]. tidy.
    rewrite Hnum, Hbool. rewrite bind_ret.
    unfold lift, put_in. rewrite Hopts. reflexivity.
Qed.

(** An [option] statement whose value is an identifier. *)
Lemma parseOption_identifier_value parent tok n v options st st' :
  read_tokens tn 4 st = ([Some n; Some (EQUAL L); Some v; Some (END L)], st') ->
  n <> COPTOPEN L ->
  v <> STRINGOPEN L -> v <> STRINGOPEN_SQ L ->
  NUMBER L v = false -> BOOL L v = false -> TYPEREF L v = true ->
  get parent "options" = JObj options ->
  (negb (TYPEREF L n) && negb (contains "google.protobuf." n))%bool = false ->
  _parseOption L tn parent tok st
  = Ok (set parent "options" (JObj (put options n (JStr v))), st').
Proof.
  intros Hread Hcustom Hq1 Hq2 Hnum Hbool Hv Hopts Hname. split_tokens Hread.
  unfold _parseOption. step_next. rewrite (tok_eq_neq _ _ Hcustom).
  rewrite bind_ret. tidy. rewrite Hname. step_next.
  rewrite bind_ret. cbv beta iota. rewrite tok_eq_refl. cbn [negb]. step_next.
  rewrite (tok_eq_neq _ _ Hq1), (tok_eq_neq _ _ Hq2). cbn [orb]. tidy.
  rewrite Hnum, Hbool, Hv. rewrite bind_ret. step_next. rewrite tok_eq_refl. cbn [negb].
  unfold lift, put_in. rewrite Hopts. reflexivity.
Qed.

(** X10.  An [option] statement accepts a name that is no type reference
    when the text [google.protobuf.] occurs in it, anywhere, and stores the
    option under that name like any other; bracketed field options have no
    such exemption and refuse the name. *)
Theorem option_name_exemption
    (parent msg fld : object) (tok : token) (n v : string) (options : object) (st st' : T) :
  read_tokens tn 4 st = ([Some n; Some (EQUAL L); Some v; Some (END L)], st') ->
  n <> COPTOPEN L ->
  v <> STRINGOPEN L -> v <> STRINGOPEN_SQ L ->
  NUMBER L v = false -> BOOL L v = false -> TYPEREF L v = true ->
  get parent "options" = JObj options ->
  TYPEREF L n = false ->
  contains "google.protobuf." n = true ->
  _parseOption L tn parent tok st
  = Ok (set parent "options" (JObj (put options n (JStr v))), st')
  /\ forall s,
       _parseFieldOption L tn msg fld (Some n) s
       = Throw (Error ("Illegal field option in message " ++ name_of msg ++ "#" ++ name_of fld
                       ++ " at line " ++ at_line tn s ++ ": " ++ n)).
Proof.
  intros Hread Hcustom Hq1 Hq2 Hnum Hbool Hv Hopts Hn Hg. split.
  - eapply parseOption_identifier_value; try eassumption. now rewrite Hn, Hg.
  - intros s. unfold _parseFieldOption. rewrite (tok_eq_neq _ _ Hcustom).
    rewrite bind_ret. tidy. rewrite Hn. cbn [negb]. unfold throwError.
    now rewrite !append_assoc.
Qed.

(** X11.  An option named [__proto__] is parsed like any other and leaves
    no trace: the assignment [options["__proto__"] = value], its value a
    string, goes to the prototype accessor, which ignores it.  This holds for
    the [option] statement and for bracketed field options. *)
Theorem option_named_proto_is_dropped
    (parent msg fld : object) (tok : token) (v : string) (options foptions : object)
    (st st1 st3 st' : T) :
  next tn st = (Some "__proto__", st1) ->
  read_tokens tn 2 st1 = ([Some (EQUAL L); Some v], st3) ->
  next tn st3 = (Some (END L), st') ->
  "__proto__" <> COPTOPEN L ->
  v <> STRINGOPEN L -> v <> STRINGOPEN_SQ L ->
  NUMBER L v = false -> BOOL L v = false -> TYPEREF L v = true ->
  TYPEREF L "__proto__" = true ->
  get parent "options" = JObj options ->
  get fld "options" = JObj foptions ->
  _parseOption L tn parent tok st = Ok (parent, st')
  /\ _parseFieldOption L tn msg fld (Some "__proto__") st1 = Ok (fld, st3).
Proof.
  intros Hn Hread Hend Hcustom Hq1 Hq2 Hnum Hbool Hv Hname Hopts Hfopts. split.
  - rewrite (parseOption_identifier_value parent tok "__proto__" v options st st');
      try assumption.
    + unfold put. cbn [String.eqb Ascii.eqb Bool.eqb].
      rewrite (set_get _ _ _ Hopts); [reflexivity | discriminate].
    + cbn [read_tokens]. rewrite Hn.
      destruct (read_tokens tn 2 st1) as [ts s] eqn:E. inversion Hread; subst.
      cbn [read_tokens] in E.
      destruct (next tn st1) as [a sa]. destruct (next tn sa) as [b sb].
      inversion E; subst. cbn [read_tokens]. now rewrite Hend.
    + now rewrite Hname.
  - split_tokens Hread. unfold _parseFieldOption. rewrite (tok_eq_neq _ _ Hcustom).
    rewrite bind_ret. tidy. rewrite Hname. cbn [negb]. step_next.
    rewrite bind_ret. cbv beta iota. rewrite tok_eq_refl. cbn [negb]. step_next.
    rewrite (tok_eq_neq _ _ Hq1), (tok_eq_neq _ _ Hq2). cbn [orb]. tidy.
    rewrite Hnum, Hbool, Hv. rewrite bind_ret.
    unfold lift, put_in. rewrite Hfopts.
    unfold put. cbn [String.eqb Ascii.eqb Bool.eqb].
    rewrite (set_get _ _ _ Hfopts); [reflexivity | discriminate].
Qed.
End OptionValues.

(* ================================================================== *)
(** * Services *)
(* ================================================================== *)

Section Services.

Context {T : Type}.
Variable L : Lang.
Variable tn : Tokenizer T.
Variables ID_MIN ID_MAX : value.

(** An RPC method goes into the table under [rpc]; the rest of the service
    stays as it is. *)
Lemma parseServiceRPC_effect fuel svc st svc' st' :
  _parseServiceRPC L tn fuel svc (Some "rpc") st = Ok (svc', st') ->
  (forall k, k <> "rpc" -> get svc' k = get svc k)
  /\ exists rpc, get svc' "rpc" = JObj rpc.
Proof.
  unfold _parseServiceRPC. intros H.
  follow_ok H; apply lift_Ok in H as [H _]; cbn [token_text] in H;
    apply put_in_Ok in H; subst svc';
    (split; [intros k Hk; rewrite get_set_other by congruence;
             destruct (get svc "rpc"); try reflexivity;
             apply get_set_other; congruence
            | rewrite get_set_same; eauto]).
Qed.

(** The body of a service leaves its name alone and keeps the tables under
    [rpc] and [options]. *)
Lemma parseService_body_effect fuel svc st svc' st' :
  _parseService_body L tn fuel svc st = Ok (svc', st') ->
  (exists rpc, get svc "rpc" = JObj rpc) ->
  (exists options, get svc "options" = JObj options) ->
  get svc' "name" = get svc "name"
  /\ (exists rpc, get svc' "rpc" = JObj rpc)
  /\ (exists options, get svc' "options" = JObj options).
Proof.
  revert svc st. induction fuel as [|fuel IH]; intros svc st H Hrpc Hopts; [discriminate|].
  cbn [_parseService_body] in H.
  apply bind_Ok in H as (t & s & _ & H). cbv beta in H.
  destruct (tok_eq t "option").
  { apply bind_Ok in H as (svc1 & s1 & Hrun & H). cbv beta in H.
    apply parseOption_parent in Hrun as (name & v & Hrun).
    pose proof (fun k' => put_in_frame _ _ _ k' _ _ Hrun) as Hframe.
    apply put_in_Ok in Hrun.
    destruct (IH _ _ H) as (Hname & Hr & Ho).
    - rewrite Hframe by discriminate. exact Hrpc.
    - subst svc1. rewrite get_set_same. eauto.
    - split; [|split]; try assumption. rewrite Hname. apply Hframe. discriminate. }
  destruct (tok_eq t "rpc") eqn:Erpc.
  { apply bind_Ok in H as (svc1 & s1 & Hrun & H). cbv beta in H.
    apply tok_eq_true in Erpc. subst t.
    apply parseServiceRPC_effect in Hrun as (Hframe & Hr1).
    destruct (IH _ _ H) as (Hname & Hr & Ho).
    - exact Hr1.
    - rewrite Hframe by discriminate. exact Hopts.
    - split; [|split]; try assumption. rewrite Hname. apply Hframe. discriminate. }
  destruct (negb (tok_eq t (CLOSE L))); [discriminate|].
  apply ret_Ok in H as [-> _]. auto.
Qed.

(** X12.  A service that parses is pushed on [services]; its name is the
    token after the keyword and has the form of a name, and its [rpc] and
    [options] are objects. *)
Theorem service_that_parses_is_well_formed
    (fuel : nat) (parent : object) (tok : token) (st : T) (parent' : object) (st' : T) :
  _parseService L tn fuel parent tok st = Ok (parent', st') ->
  exists svc rpc options,
    parent' = set parent "services" (JArr (elements parent "services" ++ [JObj svc])%list)
    /\ get svc "name" = of_token (fst (next tn st))
    /\ test (NAME L) (fst (next tn st)) = true
    /\ get svc "rpc" = JObj rpc
    /\ get svc "options" = JObj options.
Proof.
  unfold _parseService. intros H.
  unfold bind at 1 in H. unfold tn_next at 1 in H.
  destruct (next tn st) as [name s0]. cbn [fst].
  destruct (negb (test (NAME L) name)) eqn:Ename; [discriminate|].
  apply bind_Ok in H as (t & s1 & _ & H). cbv beta in H.
  destruct (negb (tok_eq t (OPEN L))); [discriminate|].
  apply bind_Ok in H as (svc & s2 & Hbody & H).
  apply lift_Ok in H as [H _]. apply push_Ok in H.
  apply parseService_body_effect in Hbody as (Hname & (rpc & Hrpc) & (options & Hopts));
    [|exists []; reflexivity|exists []; reflexivity].
  exists svc, rpc, options. repeat split; try assumption.
  now destruct (test (NAME L) name).
Qed.




End Services.

(* ================================================================== *)
(** * Extend blocks *)
(* ================================================================== *)

Section Extend.

Context {T : Type}.
Variable L : Lang.
Variable tn : Tokenizer T.
Variables ID_MIN ID_MAX : value.

(** The body of an [extend] block touches nothing but [fields] and
    [messages]. *)
Lemma parseExtend_body_frame fuel ext st ext' st' :
  _parseExtend_body L tn ID_MIN ID_MAX fuel ext st = Ok (ext', st') ->
  (forall k, k <> "fields" -> k <> "messages" -> get ext' k = get ext k)
  /\ ((exists fields, get ext "fields" = JArr fields) ->
      exists fields, get ext' "fields" = JArr fields).
Proof.
  revert ext st. induction fuel as [|fuel IH]; intros ext st H; [discriminate|].
  cbn [_parseExtend_body] in H.
  apply bind_Ok in H as (t & s & _ & H). cbv beta in H.
  destruct (tok_eq t (CLOSE L)).
  { follow_ok H. apply ret_Ok in H as [-> _]. auto. }
  destruct (test (RULE L) t); [|discriminate].
  apply bind_Ok in H as (ext1 & s1 & Hrun & H). cbv beta in H.
  destruct (IH _ _ H) as [Hframe Hfields]. split.
  - intros k Hf Hm. rewrite (Hframe k Hf Hm).
    eapply parseMessageField_frame; eassumption.
  - intros _. apply Hfields. eapply parseMessageField_fields; eassumption.
Qed.

(** X15.  An [extend] block that parses is pushed on the [messages] of its
    parent, beside the messages: it holds the extended type under [ref], a
    type reference, and an array of [fields], and it has no [name].  The
    error for a missing opening brace therefore speaks of "extend
    undefined". *)
Theorem extend_block_is_an_unnamed_message
    (fuel : nat) (parent : object) (tok : token) (st : T) :
  (forall parent' ext st',
      _parseExtend L tn ID_MIN ID_MAX fuel parent tok st = Ok (parent', ext, st') ->
      parent' = set parent "messages" (JArr (elements parent "messages" ++ [JObj ext])%list)
      /\ get ext "ref" = of_token (fst (next tn st))
      /\ test (TYPEREF L) (fst (next tn st)) = true
      /\ get ext "name" = JUndefined
      /\ exists fields, get ext "fields" = JArr fields)
  /\
  (forall ref t st2,
      read_tokens tn 2 st = ([ref; t], st2) ->
      test (TYPEREF L) ref = true ->
      t <> Some (OPEN L) ->
      _parseExtend L tn ID_MIN ID_MAX (S fuel) parent tok st
      = Throw (Error ("Illegal OPEN in extend undefined at line " ++ at_line tn st2 ++ ": "
                      ++ token_text t ++ " ('" ++ OPEN L ++ "' expected)"))).
Proof.
  split.
  - intros parent' ext st' H.
    pose proof H as Hpush. apply parseExtend_parent in Hpush. apply push_Ok in Hpush.
    split; [exact Hpush|].
    destruct fuel as [|f]; [discriminate|]. cbn [_parseExtend] in H.
    unfold bind at 1 in H. unfold tn_next at 1 in H.
    destruct (next tn st) as [ref s0]. cbn [fst].
    destruct (negb (test (TYPEREF L) ref)) eqn:Eref; [discriminate|].
    apply bind_Ok in H as (t & s1 & _ & H). cbv beta in H.
    destruct (negb (tok_eq t (OPEN L))); [discriminate|].
    apply bind_Ok in H as (ext1 & s2 & Hbody & H). cbv beta in H.
    apply bind_Ok in H as (p & s3 & _ & H). apply ret_Ok in H as [H _].
    inversion H; subst p ext1; clear H.
    apply parseExtend_body_frame in Hbody as [Hframe Hfields].
    split; [now rewrite Hframe by discriminate|].
    split; [now destruct (test (TYPEREF L) ref)|].
    split; [now rewrite Hframe by discriminate|].
    apply Hfields. exists []. reflexivity.
  - intros ref t st2 Hread Href Ht. split_tokens Hread.
    cbn [_parseExtend]. step_next. rewrite Href. cbn [negb]. step_next.
    rewrite (tok_eq_false _ _ Ht). reflexivity.
Qed.

(** X16.  A group field needs a [messages] array on the object that holds
    it.  Where there is none the field never parses; when the group itself is
    in order the failure is the engine's [TypeError], raised on pushing the
    group.  An [extend] block has no such array, so a group in an [extend]
    block ends the parse with that [TypeError]. *)
Theorem group_needs_a_messages_array
    (fuel : nat) (rule : token) (st st1 : T) :
  next tn st = (Some "group", st1) ->
  (forall host,
      (forall messages, get host "messages" <> JArr messages) ->
      is_ok (_parseMessageField L tn ID_MIN ID_MAX fuel host rule st) = false)
  /\
  (forall name idtok id grp st4 st5 st6,
      read_tokens tn 3 st1 = ([Some name; Some (EQUAL L); idtok], st4) ->
      next tn st4 = (Some (OPEN L), st5) ->
      NAME L name = true ->
      OPEN L <> OPTOPEN L ->
      _parseId L tn idtok false st4 = Ok (id, st4) ->
      _parseMessage_body L tn ID_MIN ID_MAX fuel
        [("name", JStr name); ("isGroup", JBool true); ("fields", JArr []);
         ("enums", JArr []); ("messages", JArr []); ("options", JObj [])] st5
        = Ok (grp, st6) ->
      (forall host,
          (forall messages, get host "messages" <> JArr messages) ->
          _parseMessageField L tn ID_MIN ID_MAX (S (S fuel)) host rule st = Throw TypeError)
      /\
      (forall parent tok ref st00,
          read_tokens tn 3 st00 = ([Some ref; Some (OPEN L); rule], st) ->
          TYPEREF L ref = true ->
          rule <> Some (CLOSE L) ->
          test (RULE L) rule = true ->
          _parseExtend L tn ID_MIN ID_MAX (S (S (S (S fuel)))) parent tok st00
          = Throw TypeError)).
Proof.
  intros Hn. split.
  - intros host Hno.
    destruct (_parseMessageField L tn ID_MIN ID_MAX fuel host rule st) as [[m s]|e|] eqn:E;
      [exfalso | reflexivity | reflexivity].
    destruct fuel as [|f]; [discriminate|]. cbn [_parseMessageField] in E.
    step_next_in E. rewrite tok_eq_refl in E.
    apply bind_Ok in E as ([msg1 fld1] & s1 & Hrun & _).
    apply bind_Ok in Hrun as ([[m2 f2] g] & s2 & Hgrp & _).
    apply parseMessage_parent in Hgrp. unfold push in Hgrp.
    destruct (get host "messages") eqn:Em; try discriminate. eapply Hno; reflexivity.
  - intros name idtok id grp st4 st5 st6 Hread Hopen Hname Hne Hid Hbody.
    split_tokens Hread.
    assert (Hfield : forall host,
              (forall messages, get host "messages" <> JArr messages) ->
              _parseMessageField L tn ID_MIN ID_MAX (S (S fuel)) host rule st
              = Throw TypeError).
    { intros host Hno.
      assert (Hgrp : _parseMessage L tn ID_MIN ID_MAX (S fuel) host
                       (Some [("rule", of_token rule); ("options", JObj [])])
                       (Some "group") st1
                     = Throw TypeError).
      { cbn [_parseMessage]. step_next. tidy. rewrite Hname. cbn [negb].
        rewrite !tok_eq_refl. step_next. rewrite tok_eq_refl. cbn [negb]. step_next.
        rewrite !bind_assoc. rewrite (bind_try_catch _ _ _ _ _ _ Hid).
        rewrite bind_ret. cbv beta iota. step_next.
        rewrite (tok_eq_neq _ _ Hne). rewrite bind_ret. cbv beta iota.
        rewrite tok_eq_refl. cbn [negb].
        etransitivity; [apply (bind_run _ _ _ _ _ Hbody)|]. cbv beta.
        unfold bind, lift, push.
        destruct (get host "messages") eqn:Em; try reflexivity.
        exfalso. eapply Hno; reflexivity. }
      cbn [_parseMessageField]. step_next. rewrite tok_eq_refl. rewrite bind_assoc.
      etransitivity; [apply (bind_Throw _ _ _ _ Hgrp)|]. reflexivity. }
    split; [exact Hfield|].
    intros parent tok ref st00 Hhead Href Hclose Hrule. split_tokens Hhead.
    cbn [_parseExtend]. step_next. tidy. rewrite Href. cbn [negb].
    step_next. rewrite tok_eq_refl. cbn [negb].
    rewrite bind_assoc. cbn [_parseExtend_body]. step_next.
    rewrite (tok_eq_false _ _ Hclose). unfold test in Hrule. rewrite Hrule.
    rewrite bind_assoc.
    etransitivity; [apply bind_Throw; apply Hfield|]; [|reflexivity].
    intros messages. discriminate.
Qed.

End Extend.

(* ================================================================== *)
(** * The top level *)
(* ================================================================== *)

Section TopLevel.

Context {T : Type}.
Variable L : Lang.
Variable tn : Tokenizer T.
Variables ID_MIN ID_MAX : value.

(** What one statement does to the top-level object. *)
Lemma statement_update fuel topLevel header tok st topLevel' header' st' :
  parse_statement L tn ID_MIN ID_MAX fuel topLevel header tok st = Ok (topLevel', header', st') ->
  topLevel' = topLevel
  \/ (exists p, topLevel' = set topLevel "package" p /\ is_string_or_null p = true
                /\ get topLevel "package" = JNull)
  \/ (exists k x, In k ["imports"; "messages"; "enums"; "services"]
                  /\ push topLevel k x = Ok topLevel')
  \/ (exists name v, put_in topLevel "options" name v = Ok topLevel').
Proof.
  unfold parse_statement. intros H.
  destruct (tok_eq tok "package").
  { destruct header; cbn [negb orb] in H; [|discriminate].
    destruct (get topLevel "package") eqn:Epkg; cbn [is_null negb] in H;
      try discriminate.
    follow_ok H. apply ret_Ok in H as [H _]. inversion H; subst.
    right; left. eexists. split; [reflexivity|]. split; [|reflexivity].
    now destruct a. }
  destruct (tok_eq tok "import").
  { destruct header; cbn [negb] in H; [|discriminate].
    follow_ok H. apply ret_Ok in H as [H _]. inversion H; subst.
    match goal with
    | Hl : lift _ _ = Ok _ |- _ => apply lift_Ok in Hl as [Hl _]
    end.
    right; right; left. do 2 eexists. split; [|eassumption]. simpl; auto. }
  destruct (tok_eq tok "message").
  { follow_ok H. apply ret_Ok in H as [H _]. inversion H; subst.
    right; right; left. do 2 eexists.
    split; [|eapply parseMessage_parent; eassumption]. simpl; auto. }
  destruct (tok_eq tok "enum").
  { follow_ok H. apply ret_Ok in H as [H _]. inversion H; subst.
    match goal with
    | Hr : _parseEnum _ _ _ _ _ _ = Ok _ |- _ => apply parseEnum_parent in Hr as [enm Hr]
    end.
    right; right; left. do 2 eexists. split; [|eassumption]. simpl; auto. }
  destruct (tok_eq tok "option").
  { destruct header; cbn [negb] in H; [|discriminate].
    follow_ok H. apply ret_Ok in H as [H _]. inversion H; subst.
    match goal with
    | Hr : _parseOption _ _ _ _ _ = Ok _ |- _ =>
        apply parseOption_parent in Hr as (name & v & Hr)
    end.
    right; right; right. eauto. }
  destruct (tok_eq tok "service").
  { follow_ok H. apply ret_Ok in H as [H _]. inversion H; subst.
    match goal with
    | Hr : _parseService _ _ _ _ _ _ = Ok _ |- _ =>
        apply parseService_parent in Hr as (svc & Hr)
    end.
    right; right; left. do 2 eexists. split; [|eassumption]. simpl; auto. }
  destruct (tok_eq tok "extend").
  { follow_ok H. apply ret_Ok in H as [H _]. inversion H; subst.
    right; right; left. do 2 eexists.
    split; [|eapply parseExtend_parent; eassumption]. simpl; auto. }
  destruct (tok_eq tok "syntax").
  { follow_ok H. apply ret_Ok in H as [H _]. inversion H; subst. now left. }
  discriminate H.
Qed.

(** A statement keeps the keys of the top-level object and the kinds of
    their values. *)
Lemma statement_invariant fuel topLevel header tok st topLevel' header' st' :
  parse_statement L tn ID_MIN ID_MAX fuel topLevel header tok st = Ok (topLevel', header', st') ->
  top_level_invariant topLevel -> top_level_invariant topLevel'.
Proof.
  intros H [Hkeys Hschema].
  apply statement_update in H
    as [-> | [(p & -> & Hp & Hnull) | [(k & x & Hk & Hpush) | (name & v & Hput)]]].
  - now split.
  - split.
    + rewrite keys_set; [exact Hkeys | rewrite Hnull; discriminate].
    + unfold is_schema in *. rewrite get_set_same.
      rewrite !get_set_other by discriminate. rewrite Hp.
      rewrite Hnull in Hschema. exact Hschema.
  - pose proof Hpush as Hget. unfold push in Hget.
    destruct (get topLevel k) as [| | | | |l|] eqn:Ek; try discriminate. clear Hget.
    apply push_Ok in Hpush. subst topLevel'. split.
    + rewrite keys_set; [exact Hkeys | rewrite Ek; discriminate].
    + unfold is_schema in *.
      destruct Hk as [<- | [<- | [<- | [<- | []]]]];
        rewrite get_set_same; rewrite !get_set_other by discriminate;
        rewrite Ek in Hschema; exact Hschema.
  - pose proof Hput as Hget. unfold put_in in Hget.
    destruct (get topLevel "options") as [| | | | | |l] eqn:Ek; try discriminate. clear Hget.
    apply put_in_Ok in Hput. subst topLevel'. split.
    + rewrite keys_set; [exact Hkeys | rewrite Ek; discriminate].
    + unfold is_schema in *. rewrite get_set_same.
      rewrite !get_set_other by discriminate.
      rewrite Ek in Hschema. exact Hschema.
Qed.

(** So does the loop of [parse]. *)
Lemma parse_loop_invariant fuel topLevel header st r st' :
  parse_loop L tn ID_MIN ID_MAX fuel topLevel header st = Ok (r, st') ->
  top_level_invariant topLevel -> top_level_invariant r.
Proof.
  revert topLevel header st. induction fuel as [|fuel IH]; intros topLevel header st H Hinv;
    [discriminate|].
  cbn [parse_loop] in H.
  apply bind_Ok in H as (t & s & _ & H). cbv beta in H.
  destruct (truthy t).
  - apply bind_Ok in H as ([tl1 h1] & s1 & Hs & H). cbv beta iota in H.
    apply (IH _ _ _ H). eapply statement_invariant; eassumption.
  - apply ret_Ok in H as [-> _]. exact Hinv.
Qed.

(** X17.  Whatever [parse] returns is the documented record: its keys are
    [package], [messages], [enums], [imports], [options] and [services], in
    that order, the temporary [name] is gone, [package] is [null] or a
    string, [options] is an object and the other four are arrays. *)
Theorem parse_returns_the_documented_record (fuel : nat) (st : T) (r : object) (st' : T) :
  parse L tn ID_MIN ID_MAX fuel st = Ok (r, st') ->
  keys r = ["package"; "messages"; "enums"; "imports"; "options"; "services"]
  /\ get r "name" = JUndefined
  /\ is_schema r = true.
Proof.
  unfold parse. intros H.
  apply bind_Ok in H as (tl & s & Hloop & H). apply ret_Ok in H as [Hr _]. subst r.
  apply parse_loop_invariant in Hloop as [Hkeys Hschema]; [|split; reflexivity].
  assert (Hshape : exists v rest, tl = ("name", v) :: rest
                                  /\ keys rest = ["package"; "messages"; "enums"; "imports";
                                                  "options"; "services"]).
  { unfold keys in *. destruct tl as [|[k v] rest]; [discriminate|].
    cbn [map fst topLevel0] in Hkeys. inversion Hkeys; subst. eauto. }
  destruct Hshape as (v & rest & -> & Hrest).
  cbn [delete String.eqb Ascii.eqb Bool.eqb].
  split; [exact Hrest|]. split.
  - unfold keys in Hrest.
    destruct rest as [|[k1 v1] [|[k2 v2] [|[k3 v3] [|[k4 v4] [|[k5 v5] [|[k6 v6] [|]]]]]]];
      try discriminate.
    cbn [map fst] in Hrest. inversion Hrest; subst. reflexivity.
  - exact Hschema.
Qed.

(** X18.  [parse] ends at the first top-level token that is falsy ([null]
    or the empty string), returning what the statements before it built,
    less [name]; at the first top-level token that is none of the eight
    keywords it fails with "Illegal token at line <n>: <token>". *)
Theorem parse_ends_at_the_first_falsy_or_unknown_token
    (f0 : nat) (st0 : T) (f : nat) (topLevel : object) (header : bool) (st : T)
    (t : token) (st1 : T) :
  reaches L tn ID_MIN ID_MAX f0 (topLevel0, true, st0) (S f) (topLevel, header, st) ->
  next tn st = (t, st1) ->
  (truthy t = false ->
     parse L tn ID_MIN ID_MAX f0 st0 = Ok (delete topLevel "name", st1))
  /\ (truthy t = true ->
      (forall kw, In kw top_level_keywords -> t <> Some kw) ->
      parse L tn ID_MIN ID_MAX f0 st0
      = Throw (Error ("Illegal token at line " ++ at_line tn st1 ++ ": " ++ token_text t))).
Proof.
  intros Hpre Hn. apply reaches_parse_loop in Hpre.
  cbn [parse_loop] in Hpre. step_next_in Hpre. split.
  - intros Ht. rewrite Ht in Hpre. unfold parse, bind at 1. now rewrite Hpre.
  - intros Ht Hkw. rewrite Ht in Hpre. unfold parse_statement in Hpre.
    repeat (rewrite tok_eq_false in Hpre
              by (apply Hkw; unfold top_level_keywords; simpl; tauto)).
    unfold parse, bind at 1. now rewrite Hpre.
Qed.

(** The object a message statement pushes is named by the token after the
    keyword. *)
Lemma parseMessage_name fuel parent fld tok st parent' fld' msg st' :
  _parseMessage L tn ID_MIN ID_MAX fuel parent fld tok st = Ok (parent', fld', msg, st') ->
  get msg "name" = of_token (fst (next tn st)).
Proof.
  intros H. destruct fuel; [discriminate|]. cbn [_parseMessage] in H.
  unfold bind at 1 in H. unfold tn_next at 1 in H.
  destruct (next tn st) as [name s0]. cbn [fst].
  destruct (negb (test (NAME L) name)); [discriminate|].
  apply bind_Ok in H as ([fld1 msg1] & s1 & Hid & H).
  cbv beta iota in H.
  apply bind_Ok in H as (t3 & s5 & _ & H). cbv beta in H.
  apply bind_Ok in H as ([fld2 t4] & s6 & Hopts & H). cbv beta iota in H.
  destruct (negb (tok_eq t4 (OPEN L))); [discriminate|].
  apply bind_Ok in H as (msg2 & s7 & Hbody & H). cbv beta in H.
  apply bind_Ok in H as (p & s8 & _ & H). apply ret_Ok in H as [H _].
  injection H as <- <- <-.
  rewrite (parseMessage_body_frame L tn ID_MIN ID_MAX _ _ _ _ _ "name" Hbody)
    by (simpl; intuition discriminate).
  rewrite !get_set_other by discriminate.
  destruct (tok_eq tok "group").
  - apply bind_Ok in Hid as (t1 & s2 & _ & Hid). cbv beta in Hid.
    destruct (negb (tok_eq t1 (EQUAL L))); [discriminate|].
    apply bind_Ok in Hid as (t2 & s3 & _ & Hid). cbv beta in Hid.
    destruct fld as [f|]; [|discriminate].
    apply bind_Ok in Hid as (id & s4 & _ & Hid). apply ret_Ok in Hid as [Hid _].
    inversion Hid; subst. reflexivity.
  - apply ret_Ok in Hid as [Hid _]. inversion Hid; subst. reflexivity.
Qed.

(** So are the objects an enum and a service statement push. *)
Lemma parseEnum_entry fuel msg tok st msg' st' :
  _parseEnum L tn fuel msg tok st = Ok (msg', st') ->
  exists enm, push msg "enums" (JObj enm) = Ok msg'
              /\ get enm "name" = of_token (fst (next tn st)).
Proof.
  unfold _parseEnum. intros H.
  unfold bind at 1 in H. unfold tn_next at 1 in H.
  destruct (next tn st) as [name s0]. cbn [fst].
  destruct (negb (test (NAME L) name)); [discriminate|].
  apply bind_Ok in H as (t & s1 & _ & H). cbv beta in H.
  destruct (negb (tok_eq t (OPEN L))); [discriminate|].
  apply bind_Ok in H as (enm & s2 & Hbody & H).
  apply lift_Ok in H as [H _].
  apply parseEnum_body_values in Hbody as (Hname & _); [|constructor|reflexivity].
  exists enm. split; [exact H | exact Hname].
Qed.

Lemma parseService_entry fuel parent tok st parent' st' :
  _parseService L tn fuel parent tok st = Ok (parent', st') ->
  exists svc, push parent "services" (JObj svc) = Ok parent'
              /\ get svc "name" = of_token (fst (next tn st)).
Proof.
  unfold _parseService. intros H.
  unfold bind at 1 in H. unfold tn_next at 1 in H.
  destruct (next tn st) as [name s0]. cbn [fst].
  destruct (negb (test (NAME L) name)); [discriminate|].
  apply bind_Ok in H as (t & s1 & _ & H). cbv beta in H.
  destruct (negb (tok_eq t (OPEN L))); [discriminate|].
  apply bind_Ok in H as (svc & s2 & Hbody & H).
  apply lift_Ok in H as [H _].
  apply parseService_body_effect in Hbody as (Hname & _);
    [|exists []; reflexivity|exists []; reflexivity].
  exists svc. split; [exact H | exact Hname].
Qed.

(** The object an [extend] block pushes holds the token after the keyword
    under [ref]. *)
Lemma parseExtend_ref fuel parent tok st parent' ext st' :
  _parseExtend L tn ID_MIN ID_MAX fuel parent tok st = Ok (parent', ext, st') ->
  get ext "ref" = of_token (fst (next tn st)).
Proof.
  intros H. destruct fuel as [|f]; [discriminate|]. cbn [_parseExtend] in H.
  unfold bind at 1 in H. unfold tn_next at 1 in H.
  destruct (next tn st) as [ref s0]. cbn [fst].
  destruct (negb (test (TYPEREF L) ref)); [discriminate|].
  apply bind_Ok in H as (t & s1 & _ & H). cbv beta in H.
  destruct (negb (tok_eq t (OPEN L))); [discriminate|].
  apply bind_Ok in H as (ext1 & s2 & Hbody & H). cbv beta in H.
  apply bind_Ok in H as (p & s3 & _ & H). apply ret_Ok in H as [H _].
  inversion H; subst p ext1; clear H.
  apply parseExtend_body_frame in Hbody as [Hframe _].
  now rewrite Hframe by discriminate.
Qed.

(** What one statement adds to the arrays of the top-level object: one
    entry to the array of its keyword, or nothing. *)
Lemma statement_appends fuel topLevel header tok st topLevel' header' st' :
  parse_statement L tn ID_MIN ID_MAX fuel topLevel header tok st = Ok (topLevel', header', st') ->
  match array_of_keyword tok with
  | Some k => In k ["messages"; "enums"; "imports"; "services"]
              /\ exists x, push topLevel k x = Ok topLevel' /\ entry_of L tn tok st x
  | None => forall k, In k ["messages"; "enums"; "imports"; "services"] ->
                      get topLevel' k = get topLevel k
  end.
Proof.
  unfold parse_statement. intros H.
  destruct (tok_eq tok "package") eqn:Epackage.
  { apply tok_eq_true in Epackage. subst tok. cbn.
    destruct header; cbn [negb orb] in H; [|discriminate].
    destruct (get topLevel "package") eqn:Epkg; cbn [is_null negb] in H;
      try discriminate.
    follow_ok H. apply ret_Ok in H as [H _]. inversion H; subst.
    intros k Hk. apply get_set_other.
    destruct Hk as [<- | [<- | [<- | [<- | []]]]]; discriminate. }
  destruct (tok_eq tok "import") eqn:Eimport.
  { unfold array_of_keyword, entry_of. rewrite Eimport.
    destruct header; cbn [negb] in H; [|discriminate].
    apply bind_Ok in H as (path & s & Hrun & H). cbv beta in H.
    apply bind_Ok in H as (tl & s1 & Hpush & H). cbv beta in H.
    apply ret_Ok in H as [H _]. inversion H; subst.
    apply lift_Ok in Hpush as [Hpush ->].
    split; [simpl; auto|]. exists (of_token path). split; [exact Hpush|]. eauto. }
  destruct (tok_eq tok "message") eqn:Emessage.
  { unfold array_of_keyword, entry_of. rewrite Eimport, Emessage.
    apply tok_eq_true in Emessage. subst tok. cbn [tok_eq String.eqb Ascii.eqb Bool.eqb].
    follow_ok H. apply ret_Ok in H as [H _]. inversion H; subst.
    split; [simpl; auto|]. eexists. split; [eapply parseMessage_parent; eassumption|].
    eexists. split; [reflexivity|]. eapply parseMessage_name; eassumption. }
  destruct (tok_eq tok "enum") eqn:Eenum.
  { unfold array_of_keyword, entry_of. rewrite Eimport, Emessage, Eenum.
    apply tok_eq_true in Eenum. subst tok. cbn [tok_eq String.eqb Ascii.eqb Bool.eqb].
    follow_ok H. apply ret_Ok in H as [H _]. inversion H; subst.
    match goal with
    | Hr : _parseEnum _ _ _ _ _ _ = Ok _ |- _ =>
        apply parseEnum_entry in Hr as (enm & Hpush & Hname)
    end.
    split; [simpl; auto|]. eauto. }
  destruct (tok_eq tok "option") eqn:Eoption.
  { apply tok_eq_true in Eoption. subst tok. cbn.
    destruct header; cbn [negb] in H; [|discriminate].
    follow_ok H. apply ret_Ok in H as [H _]. inversion H; subst.
    intros k Hk.
    match goal with
    | Hr : _parseOption _ _ _ _ _ = Ok _ |- _ =>
        apply parseOption_parent in Hr as (name & v & Hr);
        apply (put_in_frame _ _ _ _ _ _ Hr)
    end.
    destruct Hk as [<- | [<- | [<- | [<- | []]]]]; discriminate. }
  destruct (tok_eq tok "service") eqn:Eservice.
  { unfold array_of_keyword, entry_of. rewrite Eimport, Emessage, Eenum, Eservice.
    apply tok_eq_true in Eservice. subst tok. cbn [tok_eq String.eqb Ascii.eqb Bool.eqb].
    follow_ok H. apply ret_Ok in H as [H _]. inversion H; subst.
    match goal with
    | Hr : _parseService _ _ _ _ _ _ = Ok _ |- _ =>
        apply parseService_entry in Hr as (svc & Hpush & Hname)
    end.
    split; [simpl; auto|]. eauto. }
  destruct (tok_eq tok "extend") eqn:Eextend.
  { unfold array_of_keyword, entry_of. rewrite Eimport, Emessage, Eenum, Eservice, Eextend.
    follow_ok H. apply ret_Ok in H as [H _]. inversion H; subst.
    split; [simpl; auto|]. eexists. split; [eapply parseExtend_parent; eassumption|].
    eexists. split; [reflexivity|]. eapply parseExtend_ref; eassumption. }
  destruct (tok_eq tok "syntax") eqn:Esyntax.
  { unfold array_of_keyword. rewrite Eimport, Emessage, Eenum, Eservice, Eextend.
    follow_ok H. apply ret_Ok in H as [H _]. inversion H; subst. reflexivity. }
  discriminate H.
Qed.

(** A loop that returns has a record of what its statements appended. *)
Lemma parse_loop_appends fuel topLevel header st r st' :
  parse_loop L tn ID_MIN ID_MAX fuel topLevel header st = Ok (r, st') ->
  exists log, appends L tn ID_MIN ID_MAX fuel (topLevel, header, st) log (r, st').
Proof.
  revert topLevel header st. induction fuel as [|fuel IH]; intros topLevel header st H;
    [discriminate|].
  cbn [parse_loop] in H. unfold bind at 1 in H. unfold tn_next at 1 in H.
  destruct (next tn st) as [t s] eqn:Hn.
  destruct (truthy t) eqn:Ht.
  - apply bind_Ok in H as ([tl1 h1] & s1 & Hs & H). cbv beta iota in H.
    destruct (IH _ _ _ H) as [log Hlog].
    pose proof (statement_appends _ _ _ _ _ _ _ _ Hs) as Hstep.
    destruct (array_of_keyword t) as [k|] eqn:Ek.
    + destruct Hstep as (_ & x & Hpush & Hentry).
      apply push_Ok in Hpush. subst tl1.
      exists ((k, x) :: log). eapply appends_entry; eassumption.
    + exists log. eapply appends_nothing; eassumption.
  - apply ret_Ok in H as [Hr Hst]. subst. exists []. eapply appends_end; eassumption.
Qed.

(** The arrays a recorded run returns are those it started with, followed
    by the recorded entries. *)
Lemma appends_elements f s log r :
  appends L tn ID_MIN ID_MAX f s log r ->
  forall k, In k ["messages"; "enums"; "imports"; "services"] ->
            elements (fst r) k = (elements (fst (fst s)) k ++ appended_to k log)%list.
Proof.
  induction 1 as [f tl h st t st1 Hn Ht
                 |f tl h st t st1 k0 x h' st2 log r Hn Ht Hk Hx Hs Hr IH
                 |f tl h st t st1 tl' h' st2 log r Hn Ht Hk Hs Hkeep Hr IH];
    intros k Hin; cbn [fst snd] in *.
  - unfold appended_to. cbn. now rewrite app_nil_r.
  - rewrite (IH k Hin). unfold appended_to. cbn [filter fst].
    destruct (String.eqb k0 k) eqn:E.
    + apply String.eqb_eq in E. subst k0. cbn [map snd].
      unfold elements at 1. rewrite get_set_same.
      now rewrite <- app_assoc.
    + apply String.eqb_neq in E. unfold elements at 1.
      now rewrite get_set_other by congruence.
  - rewrite (IH k Hin). unfold elements at 1. now rewrite (Hkeep k Hin).
Qed.

(** X19.  Top-level statements only add, and add what they parse.  When the
    loop of [parse] returns, its run has a record: every [import],
    [message], [enum], [service] and [extend] statement appended exactly one
    entry to the array of its keyword and left the rest of the top-level
    object alone (an import its path, the others an object named, or for
    [extend] referring to, the token after the keyword), and no other
    statement changed one of the four arrays.  Each array of the result is
    the list it started with followed by the recorded entries for it, in the
    order of the statements, and a package name that was set is still the
    same. *)
Theorem statements_only_append
    (fuel : nat) (topLevel : object) (header : bool) (st : T) (r : object) (st' : T) :
  parse_loop L tn ID_MIN ID_MAX fuel topLevel header st = Ok (r, st') ->
  (exists log,
      appends L tn ID_MIN ID_MAX fuel (topLevel, header, st) log (r, st')
      /\ forall k, In k ["messages"; "enums"; "imports"; "services"] ->
                   elements r k = (elements topLevel k ++ appended_to k log)%list)
  /\ (get topLevel "package" <> JNull -> get r "package" = get topLevel "package").
Proof.
  intros H. split.
  - destruct (parse_loop_appends _ _ _ _ _ _ H) as [log Hlog].
    exists log. split; [exact Hlog|].
    intros k Hk. exact (appends_elements _ _ _ _ Hlog k Hk).
  - revert topLevel header st H. induction fuel as [|f IH]; intros topLevel header st H;
      [discriminate|].
    cbn [parse_loop] in H.
    apply bind_Ok in H as (t & s & _ & H). cbv beta in H.
    destruct (truthy t).
    + apply bind_Ok in H as ([tl1 h1] & s1 & Hs & H). cbv beta iota in H.
      intros Hpkg. apply statement_effect in Hs as (_ & _ & Hp).
      rewrite (IH _ _ _ H); rewrite (Hp Hpkg); [reflexivity | exact Hpkg].
    + apply ret_Ok in H as [-> _]. reflexivity.
Qed.

End TopLevel.

(* ================================================================== *)
(** * Failures *)
(* ================================================================== *)

Section FailureFacts.

Context {T : Type}.
Variable L : Lang.
Variable tn : Tokenizer T.
Variables ID_MIN ID_MAX : value.

(** [raised_at] speaks of runs that throw. *)
Lemma raised_at_Throw {A : Type} (m : M A) (st : T) (e : exn) (s : T) :
  raised_at m st e s -> m st = Throw e.
Proof.
  induction 1 as [A e st|A msg st|A r e st Hr|A B m k st e s _ IH
                 |A B m k st a st1 e s Hm _ IH|A body handler st e0 e s Hb _ IH].
  - reflexivity.
  - reflexivity.
  - unfold lift. now rewrite Hr.
  - unfold bind. now rewrite IH.
  - unfold bind. now rewrite Hm.
  - unfold try_catch. now rewrite Hb.
Qed.

(** Where a message cites the line of [s]. *)
Lemma cites_here (s : T) (post : string) :
  ends_number post = true ->
  cites_line tn s (" at line " ++ at_line tn s ++ post).
Proof. intros Hp. now exists "", post. Qed.

Lemma cites_here_end (s : T) : cites_line tn s (" at line " ++ at_line tn s).
Proof. exists "", "". rewrite append_nil_r. split; reflexivity. Qed.

Lemma cites_skip (s : T) (p m : string) : cites_line tn s m -> cites_line tn s (p ++ m).
Proof.
  intros (pre & post & -> & Hp). exists (p ++ pre), post.
  split; [now rewrite append_assoc | exact Hp].
Qed.

Lemma cites_literal (lit : string) (s : T) (post : string) :
  lit = substring 0 (String.length lit - 9) lit ++ " at line " ->
  ends_number post = true ->
  cites_line tn s (lit ++ at_line tn s ++ post).
Proof.
  intros E Hp. exists (substring 0 (String.length lit - 9) lit), post.
  split; [|exact Hp]. rewrite E at 1. now rewrite append_assoc.
Qed.

Lemma cites_literal_end (lit : string) (s : T) :
  lit = substring 0 (String.length lit - 9) lit ++ " at line " ->
  cites_line tn s (lit ++ at_line tn s).
Proof.
  intros E. exists (substring 0 (String.length lit - 9) lit), "".
  split; [|reflexivity]. rewrite E at 1. now rewrite append_assoc, append_nil_r.
Qed.

(** The steps that never throw. *)
Lemma fails_known_ret {A : Type} (a : A) : fails_known tn (@ret T A a).
Proof. intros st e H. discriminate H. Qed.

Lemma fails_known_next : fails_known tn (tn_next tn).
Proof. intros st e H. discriminate H. Qed.

Lemma fails_known_peek : fails_known tn (tn_peek tn).
Proof. intros st e H. discriminate H. Qed.

Lemma fails_known_stringEndsWith : fails_known tn (tn_stringEndsWith tn).
Proof. intros st e H. discriminate H. Qed.

Lemma fails_known_out_of_fuel {A : Type} : fails_known tn (@out_of_fuel T A).
Proof. intros st e H. discriminate H. Qed.

(** The steps that throw. *)
Lemma fails_known_TypeError {A : Type} : fails_known tn (@throw T A TypeError).
Proof.
  intros st e H. inversion H; subst. exists st. split; [constructor | now left].
Qed.

Lemma fails_known_group_name {A : Type} :
  fails_known tn (@throw T A (Error "Group names must start with a capital letter")).
Proof.
  intros st e H. exists st. unfold throw in H.
  assert (He : e = Error "Group names must start with a capital letter") by congruence.
  subst e. split; [constructor | right; left; reflexivity].
Qed.

Lemma fails_known_throwError {A : Type} (msg : T -> string) :
  (forall st, cites_line tn st (msg st)) -> fails_known tn (@throwError T A msg).
Proof.
  intros Hc st e H. exists st. unfold throwError in H.
  assert (He : e = Error (msg st)) by congruence. subst e.
  split; [constructor | right; right; eauto].
Qed.

Lemma fails_known_push (o : object) (k : string) (v : value) :
  fails_known tn (lift (push o k v)).
Proof.
  intros st e H. exists st.
  assert (Hr : push o k v = Throw e).
  { unfold lift in H. destruct (push o k v); inversion H; reflexivity. }
  split; [now constructor|]. left.
  unfold push in Hr. destruct (get o k); inversion Hr; reflexivity.
Qed.

Lemma fails_known_put_in (o : object) (k name : string) (v : value) :
  fails_known tn (lift (put_in o k name v)).
Proof.
  intros st e H. exists st.
  assert (Hr : put_in o k name v = Throw e).
  { unfold lift in H. destruct (put_in o k name v); inversion H; reflexivity. }
  split; [now constructor|]. left.
  unfold put_in in Hr. destruct (get o k); inversion Hr; reflexivity.
Qed.

(** Sequence and [try ... catch]. *)
Lemma fails_known_bind {A B : Type} (m : M A) (k : A -> M B) :
  fails_known tn m -> (forall a, fails_known tn (k a)) -> fails_known tn (bind m k).
Proof.
  intros Hm Hk st e H. unfold bind in H.
  destruct (m st) as [[a st1]|e'|] eqn:E; try discriminate.
  - destruct (Hk a st1 e H) as (s & Hs & Hknown).
    exists s. split; [eapply raised_then; eassumption | exact Hknown].
  - assert (He : e' = e) by congruence. subst e'.
    destruct (Hm st e E) as (s & Hs & Hknown).
    exists s. split; [now apply raised_first | exact Hknown].
Qed.

Lemma fails_known_try_catch {A : Type} (body handler : M A) :
  fails_known tn handler -> fails_known tn (try_catch body handler).
Proof.
  intros Hh st e H. unfold try_catch in H.
  destruct (body st) as [[a st1]|e0|] eqn:E; try discriminate.
  destruct (Hh st e H) as (s & Hs & Hknown).
  exists s. split; [eapply raised_handler; eassumption | exact Hknown].
Qed.

End FailureFacts.

(** Shows that a message built by the parser cites the line of the state it
    is built in. *)
Ltac cites :=
  cbv beta zeta;
  repeat first
    [ apply cites_here; reflexivity
    | apply cites_here_end
    | apply cites_literal; reflexivity
    | apply cites_literal_end; reflexivity
    | apply cites_skip
    | rewrite append_assoc ].

Create HintDb fails discriminated.

(** Follows a routine through its steps down to the ones that throw. *)
Ltac fails_step :=
  first
    [ assumption
    | solve [auto 2 with fails nocore]
    | apply fails_known_ret
    | apply fails_known_next
    | apply fails_known_peek
    | apply fails_known_stringEndsWith
    | apply fails_known_out_of_fuel
    | apply fails_known_TypeError
    | apply fails_known_group_name
    | apply fails_known_push
    | apply fails_known_put_in
    | (apply fails_known_throwError; intro; cites)
    | (apply fails_known_try_catch)
    | match goal with
      | |- fails_known _ (if ?c then _ else _) => destruct c
      | |- fails_known _ (match ?x with _ => _ end) => destruct x
      | |- fails_known _ (let _ := _ in _) => cbv zeta
      | |- fails_known _ ((fun _ => _) _) => cbv beta
      end
    | (apply fails_known_bind; [|intro]) ].

Ltac fails := repeat fails_step.

Section Failures.

Context {T : Type}.
Variable L : Lang.
Variable tn : Tokenizer T.
Variables ID_MIN ID_MAX : value.

(** Each routine fails in one of the known ways, citing the line of the
    state it throws in. *)
Lemma parseNumber_fails val : fails_known tn (_parseNumber L tn val).
Proof. unfold _parseNumber. fails. Qed.

Lemma parseId_fails val neg : fails_known tn (_parseId L tn val neg).
Proof. unfold _parseId. fails. Qed.

Lemma parsePackage_fails tok : fails_known tn (_parsePackage L tn tok).
Proof. unfold _parsePackage. fails. Qed.

Lemma parseImport_fails tok : fails_known tn (_parseImport L tn tok).
Proof. unfold _parseImport. fails. Qed.

#[local] Hint Resolve parseNumber_fails parseId_fails parsePackage_fails parseImport_fails
  : fails.

Lemma parseOption_fails parent tok : fails_known tn (_parseOption L tn parent tok).
Proof. unfold _parseOption. fails. Qed.

Lemma skip_END_fails : fails_known tn (skip_END L tn).
Proof. unfold skip_END. fails. Qed.

#[local] Hint Resolve parseOption_fails skip_END_fails : fails.

Lemma parseIgnoredStatement_fails fuel parent kw :
  fails_known tn (_parseIgnoredStatement L tn fuel parent kw).
Proof.
  induction fuel as [|fuel IH]; cbn [_parseIgnoredStatement]; fails.
Qed.

Lemma parseServiceRPC_options_fails fuel svc name method :
  fails_known tn (_parseServiceRPC_options L tn fuel svc name method).
Proof.
  revert method. induction fuel as [|fuel IH]; intros method;
    cbn [_parseServiceRPC_options]; fails.
Qed.

#[local] Hint Resolve parseIgnoredStatement_fails parseServiceRPC_options_fails : fails.

Lemma parseServiceRPC_fails fuel svc tok : fails_known tn (_parseServiceRPC L tn fuel svc tok).
Proof. unfold _parseServiceRPC. fails. Qed.

#[local] Hint Resolve parseServiceRPC_fails : fails.

Lemma parseService_body_fails fuel svc : fails_known tn (_parseService_body L tn fuel svc).
Proof.
  revert svc. induction fuel as [|fuel IH]; intros svc; cbn [_parseService_body]; fails.
Qed.

#[local] Hint Resolve parseService_body_fails : fails.

Lemma parseService_fails fuel parent tok :
  fails_known tn (_parseService L tn fuel parent tok).
Proof. unfold _parseService. fails. Qed.

Lemma parseFieldOption_fails msg fld tok : fails_known tn (_parseFieldOption L tn msg fld tok).
Proof. unfold _parseFieldOption. fails. Qed.

#[local] Hint Resolve parseService_fails parseFieldOption_fails : fails.

Lemma parseFieldOptions_loop_fails fuel msg fld first :
  fails_known tn (_parseFieldOptions_loop L tn fuel msg fld first).
Proof.
  revert fld first. induction fuel as [|fuel IH]; intros fld first;
    cbn [_parseFieldOptions_loop]; fails.
Qed.

#[local] Hint Resolve parseFieldOptions_loop_fails : fails.

Lemma parseFieldOptions_fails fuel msg fld tok :
  fails_known tn (_parseFieldOptions L tn fuel msg fld tok).
Proof. unfold _parseFieldOptions. fails. Qed.

#[local] Hint Resolve parseFieldOptions_fails : fails.

Lemma parseEnumValue_fails fuel enm tok : fails_known tn (_parseEnumValue L tn fuel enm tok).
Proof. unfold _parseEnumValue. fails. Qed.

#[local] Hint Resolve parseEnumValue_fails : fails.

Lemma parseEnum_body_fails fuel enm : fails_known tn (_parseEnum_body L tn fuel enm).
Proof.
  revert enm. induction fuel as [|fuel IH]; intros enm; cbn [_parseEnum_body]; fails.
Qed.

#[local] Hint Resolve parseEnum_body_fails : fails.

Lemma parseEnum_fails fuel msg tok : fails_known tn (_parseEnum L tn fuel msg tok).
Proof. unfold _parseEnum. fails. Qed.

Lemma parseExtensions_fails msg tok :
  fails_known tn (_parseExtensions L tn ID_MIN ID_MAX msg tok).
Proof. unfold _parseExtensions, extensions_bound. fails. Qed.

#[local] Hint Resolve parseEnum_fails parseExtensions_fails : fails.

Lemma message_family_fails fuel :
  (forall parent fld tok,
      fails_known tn (_parseMessage L tn ID_MIN ID_MAX fuel parent fld tok))
  /\ (forall msg, fails_known tn (_parseMessage_body L tn ID_MIN ID_MAX fuel msg))
  /\ (forall msg tok, fails_known tn (_parseMessageField L tn ID_MIN ID_MAX fuel msg tok))
  /\ (forall parent tok, fails_known tn (_parseExtend L tn ID_MIN ID_MAX fuel parent tok))
  /\ (forall ext, fails_known tn (_parseExtend_body L tn ID_MIN ID_MAX fuel ext)).
Proof.
  induction fuel as [|fuel (IHm & IHb & IHf & IHe & IHeb)].
  { repeat split; intros; apply fails_known_out_of_fuel. }
  repeat split; intros.
  - cbn [_parseMessage]. fails.
  - cbn [_parseMessage_body]. fails.
  - cbn [_parseMessageField]. fails.
  - cbn [_parseExtend]. fails.
  - cbn [_parseExtend_body]. fails.
Qed.

Lemma parseMessage_fails fuel parent fld tok :
  fails_known tn (_parseMessage L tn ID_MIN ID_MAX fuel parent fld tok).
Proof. apply message_family_fails. Qed.

Lemma parseExtend_fails fuel parent tok :
  fails_known tn (_parseExtend L tn ID_MIN ID_MAX fuel parent tok).
Proof. apply message_family_fails. Qed.

#[local] Hint Resolve parseMessage_fails parseExtend_fails : fails.

Lemma parse_statement_fails fuel topLevel header tok :
  fails_known tn (parse_statement L tn ID_MIN ID_MAX fuel topLevel header tok).
Proof. unfold parse_statement. fails. Qed.

#[local] Hint Resolve parse_statement_fails : fails.



End Failures.

(* ================================================================== *)
(** * The theorems at work on source text *)
(* ================================================================== *)

(** Instantiates a theorem whose conclusion is an equation on a run and
    rewrites the goal with it; the side conditions are settled by
    evaluation. *)
Ltac by_evaluation := first [reflexivity | discriminate | cbv; reflexivity | cbv; tauto].

(** A text of more tokens than characters stays within the bound of
    [parse_proto]: eight empty string literals in an ignored statement make
    a text of 23 characters whose 26th token is the terminator. *)
Lemma parse_proto_reads_empty_strings :
  String.length "syntax'''''''''''''''';" = 23%nat
  /\ nth_error (fst (read_tokens SpecTokenizer.tokenizer 26
                       (SpecTokenizer.Tokenizer_new "syntax'''''''''''''''';"))) 25
     = Some (Some ";")
  /\ parse_proto "syntax'''''''''''''''';"
     = Ok [("package", JNull); ("messages", JArr []); ("enums", JArr []);
           ("imports", JArr []); ("options", JObj []); ("services", JArr [])].
Proof. repeat split; vm_compute; reflexivity. Qed.

(** [rpc M (5) returns (Res);] is refused for its request type, while
    [rpc M (Req) returns (5);] is accepted with the response [5]. *)
Lemma rpc_request_checked_response_verbatim_witness :
  on_text (fun L tn => _parseServiceRPC L tn 0
                         [("name", JStr "S"); ("rpc", JObj []); ("options", JObj [])]
                         (Some "rpc"))
    "M (5) returns (Res);"
  = Throw (Error "Illegal request type in RPC service S#M at line 1: 5")
  /\ on_text (fun L tn => _parseServiceRPC L tn 0
                            [("name", JStr "S"); ("rpc", JObj []); ("options", JObj [])]
                            (Some "rpc"))
       "M (Req) returns (5);"
     = Ok [("name", JStr "S");
           ("rpc", JObj [("M", JObj [("request", JStr "Req"); ("response", JStr "5");
                                     ("options", JObj [])])]);
           ("options", JObj [])]
  /\ parse_proto "service S { rpc M (Req) returns (5); }"
     = Ok [("package", JNull); ("messages", JArr []); ("enums", JArr []);
           ("imports", JArr []); ("options", JObj []);
           ("services",
            JArr [JObj [("name", JStr "S");
                        ("rpc", JObj [("M", JObj [("request", JStr "Req");
                                                  ("response", JStr "5");
                                                  ("options", JObj [])])]);
                        ("options", JObj [])]])].
Proof.
  split; [|split].
  - unfold on_text.
    erewrite (proj1 (rpc_request_checked_response_verbatim SpecLang.lang
                       SpecTokenizer.tokenizer 0 _ "M" _ eq_refl));
      cycle 1; by_evaluation.
  - unfold on_text.
    erewrite (proj2 (rpc_request_checked_response_verbatim SpecLang.lang
                       SpecTokenizer.tokenizer 0 _ "M" _ eq_refl));
      cycle 1; by_evaluation.
  - vm_compute. reflexivity.
Defined.

(** [option (foo.bar).baz = 1;] and [option (foo.bar) = "v";] at the top
    level, and the same names between brackets. *)
Lemma custom_option_key_keeps_parentheses_witness :
  let with_baz := set topLevel0 "options" (JObj [("(foo.bar).baz", JInt 1)]) in
  let plain := set topLevel0 "options" (JObj [("(foo.bar)", JStr "v")]) in
  on_text (fun L tn => _parseOption L tn topLevel0 (Some "option")) "(foo.bar).baz = 1;"
  = Ok with_baz
  /\ (exists v,
        with_baz = set topLevel0 "options"
                     (JObj (set (entries topLevel0 "options")
                              (custom_key SpecLang.lang "foo.bar" (Some ".baz")) v))
        /\ get (entries with_baz "options") (custom_key SpecLang.lang "foo.bar" (Some ".baz"))
           = v)
  /\ custom_key SpecLang.lang "foo.bar" (Some ".baz") = "(foo.bar).baz"
  /\ custom_key SpecLang.lang "foo.bar" (Some "=") = "(foo.bar)"
  /\ on_text (fun L tn => _parseOption L tn topLevel0 (Some "option"))
       ("(foo.bar) = " ++ DQ ++ "v" ++ DQ ++ ";")
     = Ok plain
  /\ parse_proto
       ("message M { optional int32 x = 1 [(foo.bar) = " ++ DQ ++ "v" ++ DQ
        ++ ", (foo.bar).baz = 1]; }")
     = Ok [("package", JNull);
           ("messages",
            JArr [JObj [("name", JStr "M");
                        ("fields",
                         JArr [JObj [("rule", JStr "optional");
                                     ("options", JObj [("(foo.bar)", JStr "v");
                                                       ("(foo.bar).baz", JInt 1)]);
                                     ("type", JStr "int32"); ("name", JStr "x");
                                     ("id", JInt 1)]]);
                        ("enums", JArr []); ("messages", JArr []); ("options", JObj [])]]);
           ("enums", JArr []); ("imports", JArr []); ("options", JObj []);
           ("services", JArr [])].
Proof.
  cbv zeta. unfold on_text at 1 2. cbv beta.
  set (tn := SpecTokenizer.tokenizer).
  split; [|split; [|split; [|split; [|split]]]].
  - set (st0 := SpecTokenizer.Tokenizer_new "(foo.bar).baz = 1;").
    set (st := snd (next tn st0)).
    set (st2 := snd (read_tokens tn 2 st)).
    set (st3 := snd (next tn st2)).
    set (st4 := snd (next tn st3)).
    set (st5 := snd (next tn st4)).
    let r := eval vm_compute in (_parseNumber SpecLang.lang tn (Some "1") st5) in
    lazymatch r with
    | Ok (?x, _) =>
        refine (f_equal result
                  (proj2 (proj2 (proj2
                     (custom_option_key_keeps_parentheses SpecLang.lang tn
                        topLevel0 [] [] (Some "option") "foo.bar" (Some ".baz")
                        st0 st st2 st3 eq_refl eq_refl eq_refl)))
                     "1" x [] st4 st5 (snd (next tn st5))
                     eq_refl eq_refl eq_refl
                     ltac:(cbv; discriminate) ltac:(cbv; discriminate) eq_refl
                     ltac:(vm_compute; reflexivity) eq_refl eq_refl))
    end.
  - eapply (proj1 (custom_option_key_keeps_parentheses SpecLang.lang tn
                     topLevel0 [] [] (Some "option") "foo.bar" (Some ".baz")
                     (SpecTokenizer.Tokenizer_new "(foo.bar).baz = 1;") _ _ _
                     eq_refl eq_refl eq_refl)).
    vm_compute. reflexivity.
  - vm_compute. reflexivity.
  - vm_compute. reflexivity.
  - set (st0 := SpecTokenizer.Tokenizer_new ("(foo.bar) = " ++ DQ ++ "v" ++ DQ ++ ";")).
    set (st := snd (next tn st0)).
    set (st2 := snd (read_tokens tn 2 st)).
    set (st3 := snd (next tn st2)).
    set (st7 := snd (read_tokens tn 3 st3)).
    refine (f_equal result
              (proj1 (proj2 (proj2
                 (custom_option_key_keeps_parentheses SpecLang.lang tn
                    topLevel0 [] [] (Some "option") "foo.bar" (Some "=")
                    st0 st st2 st3 eq_refl eq_refl eq_refl)))
                 DQ (Some "v") [] st3 st7 (snd (next tn st7))
                 eq_refl eq_refl eq_refl (or_introl eq_refl) eq_refl eq_refl)).
  - vm_compute. reflexivity.
Defined.

(** [import public "x.proto";] and [import "x.proto";]. *)
Lemma import_public_is_consumed_and_dropped_witness :
  on_text (fun L tn => _parseImport L tn (Some "import"))
    ("public " ++ DQ ++ "x.proto" ++ DQ ++ ";")
  = Ok (Some "x.proto")
  /\ on_text (fun L tn => _parseImport L tn (Some "import")) (DQ ++ "x.proto" ++ DQ ++ ";")
     = Ok (Some "x.proto")
  /\ parse_proto ("import public " ++ DQ ++ "x.proto" ++ DQ ++ ";")
     = Ok [("package", JNull); ("messages", JArr []); ("enums", JArr []);
           ("imports", JArr [JStr "x.proto"]); ("options", JObj []); ("services", JArr [])]
  /\ parse_proto ("import public " ++ DQ ++ "x.proto" ++ DQ ++ ";")
     = parse_proto ("import " ++ DQ ++ "x.proto" ++ DQ ++ ";").
Proof.
  split; [|repeat split; vm_compute; reflexivity].
  unfold on_text.
  set (tn := SpecTokenizer.tokenizer).
  set (st := SpecTokenizer.Tokenizer_new ("public " ++ DQ ++ "x.proto" ++ DQ ++ ";")).
  set (st1 := snd (next tn st)).
  set (st4 := snd (read_tokens tn 3 st1)).
  rewrite (proj1 (import_public_is_consumed_and_dropped SpecLang.lang tn
                    SpecLang.ID_MIN SpecLang.ID_MAX 0 topLevel0 []
                    (Some "import") DQ (Some "x.proto") st st1 st4 (snd (next tn st4))
                    eq_refl eq_refl eq_refl (or_introl eq_refl)
                    ltac:(discriminate) eq_refl)).
  reflexivity.
Defined.

(** Bracketed lists on a field [x] of a message [M]: a leading comma is
    refused and an empty list is accepted. *)
Lemma field_options_separator_is_optional_witness :
  on_text (fun L tn => _parseFieldOptions L tn 1 [("name", JStr "M")]
                         [("name", JStr "x"); ("options", JObj [])] (Some "["))
    ",a=1]"
  = Throw (Error "Illegal start of message field options in message M#x at line 1: ,")
  /\ on_text (fun L tn => _parseFieldOptions L tn 1 [("name", JStr "M")]
                            [("name", JStr "x"); ("options", JObj [])] (Some "["))
       "]"
     = Ok [("name", JStr "x"); ("options", JObj [])]
  /\ on_text (fun L tn => _parseFieldOptions L tn 3 [("name", JStr "M")]
                            [("name", JStr "x"); ("options", JObj [])] (Some "["))
       "a=1, b=2]"
     = on_text (fun L tn => _parseFieldOptions L tn 3 [("name", JStr "M")]
                              [("name", JStr "x"); ("options", JObj [])] (Some "["))
         "a=1 b=2]".
Proof.
  split; [|split; [|vm_compute; reflexivity]].
  - unfold on_text. cbv beta. set (tn := SpecTokenizer.tokenizer).
    set (st := SpecTokenizer.Tokenizer_new ",a=1]").
    rewrite (proj1 (proj2 (field_options_separator_is_optional SpecLang.lang tn 0
                             [("name", JStr "M")] [("name", JStr "x"); ("options", JObj [])]
                             (Some "[") st (snd (next tn st)) ltac:(discriminate)))
               eq_refl).
    reflexivity.
  - unfold on_text, _parseFieldOptions. cbv beta.
    set (tn := SpecTokenizer.tokenizer). set (st := SpecTokenizer.Tokenizer_new "]").
    rewrite (proj1 (field_options_separator_is_optional SpecLang.lang tn 0
                      [("name", JStr "M")] [("name", JStr "x"); ("options", JObj [])]
                      (Some "[") st (snd (next tn st)) ltac:(discriminate))
               eq_refl true).
    reflexivity.
Defined.

(** Two options with no comma between them, and no option at all: both
    lists are accepted. *)
Lemma field_options_without_separator_accepted :
  parse_proto "message M { optional int32 x = 1 [a=1 b=2]; }"
  = Ok [("package", JNull);
        ("messages",
         JArr [JObj [("name", JStr "M");
                     ("fields",
                      JArr [JObj [("rule", JStr "optional");
                                  ("options", JObj [("a", JInt 1); ("b", JInt 2)]);
                                  ("type", JStr "int32"); ("name", JStr "x");
                                  ("id", JInt 1)]]);
                     ("enums", JArr []); ("messages", JArr []); ("options", JObj [])]]);
        ("enums", JArr []); ("imports", JArr []); ("options", JObj []);
        ("services", JArr [])]
  /\ parse_proto "message M { optional int32 x = 1 []; }"
     = Ok [("package", JNull);
           ("messages",
            JArr [JObj [("name", JStr "M");
                        ("fields",
                         JArr [JObj [("rule", JStr "optional"); ("options", JObj []);
                                     ("type", JStr "int32"); ("name", JStr "x");
                                     ("id", JInt 1)]]);
                        ("enums", JArr []); ("messages", JArr []); ("options", JObj [])]]);
           ("enums", JArr []); ("imports", JArr []); ("options", JObj []);
           ("services", JArr [])].
Proof. split; vm_compute; reflexivity. Qed.

(** Ids beyond 32 bits wrap, with or without negatives allowed; a negative
    id is refused on a field and on a group, and kept on an enum value. *)
Lemma parseId_truncates_then_rejects_negative_witness :
  on_text (fun L tn => _parseId L tn (Some "4294967297") false) "" = Ok 1
  /\ on_text (fun L tn => _parseId L tn (Some "0x80000000") true) "" = Ok (-2147483648)
  /\ on_text (fun L tn => _parseId L tn (Some "0x80000000") false) ""
     = Throw (Error "Illegal ID at line 1: 0x80000000")
  /\ (int32 1 /\ 0 <= 1)
  /\ on_text (fun L tn => _parseId L tn (Some "-4294967297") true) ""
     = Ok (wrap32 (-1 * 4294967297))
  /\ wrap32 (-1 * 4294967297) = -1
  /\ on_text (fun L tn => _parseId L tn (Some "8589934593") false) ""
     = Ok (wrap32 (1 * 8589934593))
  /\ wrap32 (1 * 8589934593) = 1
  /\ on_text (fun L tn => _parseId L tn (Some "4294967295") false) ""
     = Throw (Error "Illegal ID at line 1: 4294967295")
  /\ wrap32 (1 * 4294967295) = -1
  /\ parse_proto "message M { optional int32 x = 8589934593; }"
     = Ok [("package", JNull);
           ("messages",
            JArr [JObj [("name", JStr "M");
                        ("fields",
                         JArr [JObj [("rule", JStr "optional"); ("options", JObj []);
                                     ("type", JStr "int32"); ("name", JStr "x");
                                     ("id", JInt 1)]]);
                        ("enums", JArr []); ("messages", JArr []); ("options", JObj [])]]);
           ("enums", JArr []); ("imports", JArr []); ("options", JObj []);
           ("services", JArr [])]
  /\ parse_proto "message M { optional int32 x = -1; }"
     = Throw (Error "Illegal field id value in message M#x at line 1: -1")
  /\ parse_proto "message M { optional group G = -1 { } }"
     = Throw (Error "Illegal field id value for group G#undefined at line 1: -1")
  /\ parse_proto "enum E { A = -1; }"
     = Ok [("package", JNull); ("messages", JArr []);
           ("enums", JArr [JObj [("name", JStr "E");
                                 ("values", JArr [JObj [("name", JStr "A");
                                                        ("id", JInt (-1))]]);
                                 ("options", JObj [])]]);
           ("imports", JArr []); ("options", JObj []); ("services", JArr [])].
Proof.
  set (tn := SpecTokenizer.tokenizer). set (st := SpecTokenizer.Tokenizer_new "").
  split; [vm_compute; reflexivity|].
  split; [vm_compute; reflexivity|].
  split; [vm_compute; reflexivity|].
  split; [|split; [|split; [vm_compute; reflexivity|
    split; [|split; [vm_compute; reflexivity|
    split; [|split; [vm_compute; reflexivity|repeat split; vm_compute; reflexivity]]]]]]].
  - destruct (parseId_truncates_then_rejects_negative SpecLang.lang tn
                SpecLang.ID_MIN SpecLang.ID_MAX 0 [] [] None None None
                (Some "4294967297") st st) as (_ & H & _).
    destruct (H false 1 st eq_refl) as (Hint & _ & Hpos & _).
    exact (conj Hint (Hpos eq_refl)).
  - destruct (parseId_truncates_then_rejects_negative SpecLang.lang tn
                SpecLang.ID_MIN SpecLang.ID_MAX 0 [] [] None None None
                (Some "-4294967297") st st) as (_ & _ & _ & H & _).
    unfold on_text. cbv beta. fold tn st.
    rewrite (H "-4294967297" 4294967297 eq_refl ltac:(lia) eq_refl eq_refl).
    reflexivity.
  - destruct (parseId_truncates_then_rejects_negative SpecLang.lang tn
                SpecLang.ID_MIN SpecLang.ID_MAX 0 [] [] None None None
                (Some "8589934593") st st) as (_ & _ & _ & _ & _ & H & _).
    unfold on_text. cbv beta. fold tn st.
    rewrite (H "8589934593" 8589934593 eq_refl ltac:(lia) eq_refl eq_refl).
    reflexivity.
  - destruct (parseId_truncates_then_rejects_negative SpecLang.lang tn
                SpecLang.ID_MIN SpecLang.ID_MAX 0 [] [] None None None
                (Some "4294967295") st st) as (_ & _ & _ & _ & _ & H & _).
    unfold on_text. cbv beta. fold tn st.
    rewrite (H "4294967295" 4294967295 eq_refl ltac:(lia) eq_refl eq_refl).
    reflexivity.
Defined.

(** The documented literals with the grammar of the specification. *)
Lemma number_literal_first_matching_pattern_witness :
  on_text (fun L tn => _parseId L tn (Some "10") false) "" = Ok 10
  /\ on_text (fun L tn => _parseId L tn (Some "0x1A") false) "" = Ok 26
  /\ on_text (fun L tn => _parseId L tn (Some "017") false) "" = Ok 15
  /\ on_text (fun L tn => _parseId L tn (Some "-5") true) "" = Ok (-5)
  /\ on_text (fun L tn => _parseNumber L tn (Some "3.14")) ""
     = Ok (number_of_decimal 314 (-2))
  /\ on_text (fun L tn => _parseNumber L tn (Some "-0x1A")) "" = Ok (number_of_Z (-26))
  /\ on_text (fun L tn => _parseId L tn (Some "3.14") true) ""
     = Throw (Error "Illegal ID at line 1: 3.14")
  /\ parse_proto "option a = 3.14; enum E { A = -5; } message M { optional int32 x = 0x1A; }"
     = Ok [("package", JNull);
           ("messages",
            JArr [JObj [("name", JStr "M");
                        ("fields",
                         JArr [JObj [("rule", JStr "optional"); ("options", JObj []);
                                     ("type", JStr "int32"); ("name", JStr "x");
                                     ("id", JInt 26)]]);
                        ("enums", JArr []); ("messages", JArr []); ("options", JObj [])]]);
           ("enums", JArr [JObj [("name", JStr "E");
                                 ("values", JArr [JObj [("name", JStr "A");
                                                        ("id", JInt (-5))]]);
                                 ("options", JObj [])]]);
           ("imports", JArr []);
           ("options", JObj [("a", JNum (number_of_decimal 314 (-2)))]);
           ("services", JArr [])].
Proof.
  set (tn := SpecTokenizer.tokenizer). set (st := SpecTokenizer.Tokenizer_new "").
  destruct (number_literal_first_matching_pattern SpecLang.lang tn "10" st)
    as (_ & _ & _ & _ & _ & H10 & H1A & H017 & H5 & H314).
  unfold on_text. cbv beta. fold tn st.
  rewrite (H10 eq_refl), (H1A eq_refl eq_refl), (H017 eq_refl eq_refl eq_refl),
    (H5 eq_refl), (proj1 (H314 eq_refl eq_refl eq_refl eq_refl)).
  repeat split; vm_compute; reflexivity.
Defined.

(** [package] after a message, and [option] after an enum with a service in
    between. *)
Lemma header_closes_after_message_or_enum_witness :
  parse_proto "message M {} package p;" = Throw (Error "Illegal package at line 1")
  /\ parse_proto "enum E { A = 1; }
service S { }
option a = 1;" = Throw (Error "Illegal option at line 3")
  /\ parse_proto ("message M {} import " ++ DQ ++ "x.proto" ++ DQ ++ ";")
     = Throw (Error "Illegal import at line 1").
Proof.
  split; [|split; [|vm_compute; reflexivity]].
  - unfold parse_proto, on_text. cbv beta.
    set (tn := SpecTokenizer.tokenizer).
    set (st := SpecTokenizer.Tokenizer_new "message M {} package p;").
    set (st1 := snd (next tn st)).
    let r := eval vm_compute in
        (parse_statement SpecLang.lang tn SpecLang.ID_MIN SpecLang.ID_MAX 24
           topLevel0 true (Some "message") st1) in
    lazymatch r with
    | Ok (?tl2, ?h2, ?st2) =>
        refine (f_equal result
                  (proj2 (proj2 (header_closes_after_message_or_enum SpecLang.lang tn
                                   SpecLang.ID_MIN SpecLang.ID_MAX
                                   25 topLevel0 true st 24 topLevel0 true st (Some "message")
                                   st1 tl2 h2 st2 23 tl2 h2 st2 "package" (snd (next tn st2))
                                   (reaches_here _ _ _ _ _ _) eq_refl (or_introl eq_refl)
                                   _ (reaches_here _ _ _ _ _ _) _ (or_introl eq_refl)))
                     eq_refl eq_refl))
    end; vm_compute; reflexivity.
  - unfold parse_proto, on_text. cbv beta.
    set (tn := SpecTokenizer.tokenizer).
    match goal with |- context [SpecTokenizer.Tokenizer_new ?src] =>
      set (st := SpecTokenizer.Tokenizer_new src) end.
    set (st1 := snd (next tn st)).
    let r := eval vm_compute in
        (parse_statement SpecLang.lang tn SpecLang.ID_MIN SpecLang.ID_MAX 46
           topLevel0 true (Some "enum") st1) in
    lazymatch r with
    | Ok (?tl2, ?h2, ?st2) =>
        let r' := eval vm_compute in
            (parse_statement SpecLang.lang tn SpecLang.ID_MIN SpecLang.ID_MAX 45
               tl2 h2 (Some "service") (snd (next tn st2))) in
        lazymatch r' with
        | Ok (?tl3, ?h3, ?st3) =>
            refine (f_equal result
                      (proj2 (proj2 (header_closes_after_message_or_enum SpecLang.lang tn
                                       SpecLang.ID_MIN SpecLang.ID_MAX
                                       47 topLevel0 true st 46 topLevel0 true st (Some "enum")
                                       st1 tl2 h2 st2 44 tl3 h3 st3 "option"
                                       (snd (next tn st3))
                                       (reaches_here _ _ _ _ _ _) eq_refl (or_intror eq_refl)
                                       _
                                       (reaches_statement _ _ _ _ _ _ _ _ (Some "service")
                                          (snd (next tn st2)) _ _ _ _ _ _ eq_refl _
                                          (reaches_here _ _ _ _ _ _))
                                       _ (or_intror (or_intror (or_introl eq_refl)))))
                         eq_refl eq_refl))
        end
    end; vm_compute; reflexivity.
Defined.

(** The header stays open behind [syntax], [service] and [extend]. *)
Lemma header_stays_open_after_syntax_service_extend :
  parse_proto ("syntax = " ++ DQ ++ "proto2" ++ DQ ++ "; package p;")
  = Ok [("package", JStr "p"); ("messages", JArr []); ("enums", JArr []);
        ("imports", JArr []); ("options", JObj []); ("services", JArr [])]
  /\ parse_proto "service S { } option a = 1;"
     = Ok [("package", JNull); ("messages", JArr []); ("enums", JArr []);
           ("imports", JArr []); ("options", JObj [("a", JInt 1)]);
           ("services", JArr [JObj [("name", JStr "S"); ("rpc", JObj []);
                                    ("options", JObj [])]])]
  /\ parse_proto ("extend M { } import " ++ DQ ++ "x.proto" ++ DQ ++ ";")
     = Ok [("package", JNull);
           ("messages", JArr [JObj [("ref", JStr "M"); ("fields", JArr [])]]);
           ("enums", JArr []); ("imports", JArr [JStr "x.proto"]);
           ("options", JObj []); ("services", JArr [])].
Proof. repeat split; vm_compute; reflexivity. Qed.

(** [package p;] is recorded; a second [package] is refused. *)
Lemma package_at_most_once_witness :
  parse_proto "package p;"
  = Ok [("package", JStr "p"); ("messages", JArr []); ("enums", JArr []);
        ("imports", JArr []); ("options", JObj []); ("services", JArr [])]
  /\ parse_proto "package p;
option a = 1;
package q;" = Throw (Error "Illegal package at line 3").
Proof.
  split; [vm_compute; reflexivity|].
  unfold parse_proto, on_text. cbv beta.
  set (tn := SpecTokenizer.tokenizer).
  match goal with |- context [SpecTokenizer.Tokenizer_new ?src] =>
    set (st := SpecTokenizer.Tokenizer_new src) end.
  set (st1 := snd (next tn st)).
  set (st2 := snd (read_tokens tn 2 st1)).
  destruct (package_at_most_once SpecLang.lang tn SpecLang.ID_MIN SpecLang.ID_MAX
              36 topLevel0 st st1 st2 "p" 34
              (set (set topLevel0 "package" (JStr "p")) "options" (JObj [("a", JInt 1)]))
              true (snd (read_tokens tn 5 st2))
              (snd (read_tokens tn 6 st2))
              eq_refl eq_refl eq_refl eq_refl) as [_ H].
  refine (f_equal result (proj2 (H _ eq_refl) eq_refl)).
  eapply reaches_statement; [reflexivity | reflexivity | vm_compute; reflexivity |].
  apply reaches_here.
Defined.

(** [optional group Result = 1 { optional int32 x = 1; }] in a message [M],
    and the same group spelled [result]. *)
Lemma group_field_desugars_witness :
  let msg : object :=
    [("name", JStr "M"); ("fields", JArr []); ("enums", JArr []); ("messages", JArr []);
     ("options", JObj [])] in
  let grp : object :=
    [("name", JStr "Result"); ("isGroup", JBool true);
     ("fields", JArr [JObj [("rule", JStr "optional"); ("options", JObj []);
                            ("type", JStr "int32"); ("name", JStr "x"); ("id", JInt 1)]]);
     ("enums", JArr []); ("messages", JArr []); ("options", JObj [])] in
  let fld : object :=
    [("rule", JStr "optional"); ("options", JObj []); ("id", JInt 1);
     ("type", JStr "Result"); ("name", JStr "result")] in
  let msg' : object :=
    [("name", JStr "M"); ("fields", JArr [JObj fld]); ("enums", JArr []);
     ("messages", JArr [JObj grp]); ("options", JObj [])] in
  parse_proto "message M { optional group Result = 1 { optional int32 x = 1; } }"
  = Ok [("package", JNull); ("messages", JArr [JObj msg']); ("enums", JArr []);
        ("imports", JArr []); ("options", JObj []); ("services", JArr [])]
  /\ on_text (fun L tn => _parseMessageField L tn SpecLang.ID_MIN SpecLang.ID_MAX 9 msg
                            (Some "optional"))
       "group Result = 1 { optional int32 x = 1; } }"
     = Ok msg'
  /\ (exists grp0 fld0 name id,
        elements msg' "messages" = (elements msg "messages" ++ [JObj grp0])%list
        /\ elements msg' "fields" = (elements msg "fields" ++ [JObj fld0])%list
        /\ Some "Result" = Some name
        /\ starts_with_capital (JStr name) = true
        /\ get grp0 "name" = JStr name
        /\ get grp0 "isGroup" = JBool true
        /\ get fld0 "rule" = JStr "optional"
        /\ get fld0 "type" = JStr name
        /\ get fld0 "name" = JStr (toLowerCase name)
        /\ get fld0 "id" = JInt id
        /\ 0 <= id < 2 ^ 31)
  /\ on_text (fun L tn => _parseMessageField L tn SpecLang.ID_MIN SpecLang.ID_MAX 9 msg
                            (Some "optional"))
       "group result = 1 { } }"
     = Throw (Error "Group names must start with a capital letter").
Proof.
  cbv zeta.
  split; [vm_compute; reflexivity|].
  set (tn := SpecTokenizer.tokenizer).
  set (msg := [("name", JStr "M"); ("fields", JArr []); ("enums", JArr []);
               ("messages", JArr []); ("options", JObj [])]).
  split; [|split].
  - unfold on_text. cbv beta. fold tn msg.
    set (st := SpecTokenizer.Tokenizer_new "group Result = 1 { optional int32 x = 1; } }").
    set (st1 := snd (next tn st)).
    set (st4 := snd (read_tokens tn 3 st1)).
    set (st5 := snd (next tn st4)).
    let r := eval vm_compute in
        (_parseMessage_body SpecLang.lang tn SpecLang.ID_MIN SpecLang.ID_MAX 7
           [("name", JStr "Result"); ("isGroup", JBool true); ("fields", JArr []);
            ("enums", JArr []); ("messages", JArr []); ("options", JObj [])] st5) in
    lazymatch r with
    | Ok (?g, ?s6) =>
        let r2 := eval vm_compute in (skip_END SpecLang.lang tn s6) in
        lazymatch r2 with
        | Ok (_, ?s7) =>
            refine (f_equal result
                      (proj2 (proj2 (group_field_desugars SpecLang.lang tn SpecLang.ID_MIN
                                       SpecLang.ID_MAX 7 msg (Some "optional") st st1 eq_refl))
                         "Result" (Some "1") 1 g [] [] st4 st5 s6 s7
                         eq_refl eq_refl eq_refl eq_refl ltac:(cbv; discriminate)
                         ltac:(vm_compute; reflexivity) ltac:(vm_compute; reflexivity)
                         ltac:(vm_compute; reflexivity) eq_refl eq_refl))
        end
    end.
  - set (st := SpecTokenizer.Tokenizer_new "group Result = 1 { optional int32 x = 1; } }").
    let r := eval vm_compute in
        (_parseMessageField SpecLang.lang tn SpecLang.ID_MIN SpecLang.ID_MAX 9 msg
           (Some "optional") st) in
    lazymatch r with
    | Ok (?m, ?s) =>
        exact (proj1 (group_field_desugars SpecLang.lang tn SpecLang.ID_MIN SpecLang.ID_MAX
                        8 msg (Some "optional") st (snd (next tn st)) eq_refl)
                 m s ltac:(vm_compute; reflexivity))
    end.
  - unfold on_text. cbv beta. fold tn msg.
    set (st := SpecTokenizer.Tokenizer_new "group result = 1 { } }").
    let r := eval vm_compute in
        (_parseMessage SpecLang.lang tn SpecLang.ID_MIN SpecLang.ID_MAX 8 msg
           (Some [("rule", of_token (Some "optional")); ("options", JObj [])])
           (Some "group") (snd (next tn st))) in
    lazymatch r with
    | Ok (?m, ?f, ?g, ?s) =>
        rewrite (proj1 (proj2 (group_field_desugars SpecLang.lang tn SpecLang.ID_MIN
                                 SpecLang.ID_MAX 8 msg (Some "optional") st
                                 (snd (next tn st)) eq_refl))
                   m f g s ltac:(vm_compute; reflexivity) ltac:(vm_compute; reflexivity))
    end.
    reflexivity.
Defined.

(** C6 fails on the code: the parse error for a group whose name is not
    capitalized carries no line number, wherever the group stands, while
    the errors beside it do; and a method call on a missing token or a
    missing array surfaces as the engine's [TypeError], which carries no
    line either. *)
Theorem group_name_error_cites_no_line :
  parse_proto "message M { optional group result = 1 { } }"
  = Throw (Error "Group names must start with a capital letter")
  /\ parse_proto "message M {

  optional group result = 1 { }
}" = Throw (Error "Group names must start with a capital letter")
  /\ parse_proto "message M {

  optional group Result = -1 { }
}" = Throw (Error "Illegal field id value for group Result#undefined at line 3: -1")
  /\ parse_proto "service S { rpc M (Req)" = Throw TypeError
  /\ parse_proto "message M { extensions" = Throw TypeError
  /\ parse_proto "extend X { optional group G = 1 { } }" = Throw TypeError.
Proof. repeat split; vm_compute; reflexivity. Qed.

(* ================================================================== *)
(** * The further properties at work on source text *)
(* ================================================================== *)

(** [syntax = "proto2";] is skipped; without the terminator the input ends
    inside the statement. *)
Lemma ignored_statement_runs_to_first_terminator_witness :
  on_text (fun L tn => _parseIgnoredStatement L tn 5 topLevel0 (Some "syntax"))
    ("= " ++ DQ ++ "proto2" ++ DQ ++ "; message")
  = Ok tt
  /\ on_text (fun L tn => parse_statement L tn SpecLang.ID_MIN SpecLang.ID_MAX 5 topLevel0 true
                            (Some "syntax"))
       ("= " ++ DQ ++ "proto2" ++ DQ ++ "; message")
     = Ok (topLevel0, true)
  /\ on_text (fun L tn => _parseIgnoredStatement L tn 5 topLevel0 (Some "syntax"))
       ("= " ++ DQ ++ "proto2" ++ DQ)
     = Throw (Error "Unexpected EOF in [ROOT], syntax (ignored) at line 1")
  /\ parse_proto ("syntax = " ++ DQ ++ "proto2" ++ DQ ++ "; package p;")
     = Ok [("package", JStr "p"); ("messages", JArr []); ("enums", JArr []);
           ("imports", JArr []); ("options", JObj []); ("services", JArr [])].
Proof.
  unfold on_text. cbv beta.
  set (tn := SpecTokenizer.tokenizer).
  set (st := SpecTokenizer.Tokenizer_new ("= " ++ DQ ++ "proto2" ++ DQ ++ "; message")).
  set (st' := SpecTokenizer.Tokenizer_new ("= " ++ DQ ++ "proto2" ++ DQ)).
  assert (Hskip : Forall (fun t => t <> END SpecLang.lang) ["="; DQ; "proto2"; DQ]).
  { repeat constructor; discriminate. }
  pose proof (ignored_statement_runs_to_first_terminator SpecLang.lang tn
                SpecLang.ID_MIN SpecLang.ID_MAX ["="; DQ; "proto2"; DQ] (Some ";") 5
                topLevel0 (Some "syntax") st (snd (read_tokens tn 4 st))
                (snd (read_tokens tn 5 st)) eq_refl Hskip eq_refl (le_n 5)) as [Hend _].
  pose proof (ignored_statement_runs_to_first_terminator SpecLang.lang tn
                SpecLang.ID_MIN SpecLang.ID_MAX ["="; DQ; "proto2"; DQ] None 5
                topLevel0 (Some "syntax") st' (snd (read_tokens tn 4 st'))
                (snd (read_tokens tn 5 st')) eq_refl Hskip eq_refl (le_n 5)) as [_ Heof].
  destruct (Hend eq_refl) as [Hrun Hstatement].
  split; [exact (f_equal result Hrun)|].
  split; [exact (f_equal result (Hstatement topLevel0 true))|].
  split; [exact (f_equal result (Heof eq_refl))|].
  vm_compute. reflexivity.
Defined.

(** [extensions 5 to 1;] is the pair (5, 1), [extensions min to max;] the
    pair of the two constants, and a bound may be a fraction or negative. *)
Lemma extensions_range_is_unchecked_witness :
  on_text (fun L tn => _parseExtensions L tn SpecLang.ID_MIN SpecLang.ID_MAX [] (Some "extensions"))
    "5 to 1;"
  = Ok (JArr [JInt 5; JInt 1])
  /\ on_text (fun L tn => _parseExtensions L tn SpecLang.ID_MIN SpecLang.ID_MAX []
                            (Some "extensions"))
       "min to max;"
     = Ok (JArr [SpecLang.ID_MIN; SpecLang.ID_MAX])
  /\ parse_proto "message M { extensions 5 to 1; }"
     = Ok [("package", JNull);
           ("messages",
            JArr [JObj [("name", JStr "M"); ("fields", JArr []); ("enums", JArr []);
                        ("messages", JArr []); ("options", JObj []);
                        ("extensions", JArr [JInt 5; JInt 1])]]);
           ("enums", JArr []); ("imports", JArr []); ("options", JObj []);
           ("services", JArr [])]
  /\ on_text (fun L tn => _parseExtensions L tn SpecLang.ID_MIN SpecLang.ID_MAX []
                            (Some "extensions"))
       "1.5 to -2;"
     = Ok (JArr [JNum (S754_finite false 6755399441055744 (-52)); JInt (-2)]).
Proof.
  unfold on_text. cbv beta.
  set (tn := SpecTokenizer.tokenizer).
  set (st := SpecTokenizer.Tokenizer_new "5 to 1;").
  set (st' := SpecTokenizer.Tokenizer_new "min to max;").
  split.
  { exact (f_equal result
             (proj1 (extensions_range_is_unchecked SpecLang.lang tn SpecLang.ID_MIN
                       SpecLang.ID_MAX 0 [] (Some "extensions") (Some "5") (Some "1")
                       (JInt 5) (JInt 1) st st (snd (next tn st))
                       (snd (read_tokens tn 3 st)) (snd (read_tokens tn 4 st))
                       eq_refl eq_refl eq_refl eq_refl eq_refl))). }
  split.
  { exact (f_equal result
             (proj1 (extensions_range_is_unchecked SpecLang.lang tn SpecLang.ID_MIN
                       SpecLang.ID_MAX 0 [] (Some "extensions") (Some "min") (Some "max")
                       SpecLang.ID_MIN SpecLang.ID_MAX st' st' (snd (next tn st'))
                       (snd (read_tokens tn 3 st')) (snd (read_tokens tn 4 st'))
                       eq_refl eq_refl eq_refl eq_refl eq_refl))). }
  split; vm_compute; reflexivity.
Defined.

(** [A = -1 [deprecated = true];] and [A = -1;] in an enum [E]. *)
Lemma enum_value_options_are_discarded_witness :
  let enm : object := [("name", JStr "E"); ("values", JArr []); ("options", JObj [])] in
  let enm' : object :=
    [("name", JStr "E");
     ("values", JArr [JObj [("name", JStr "A"); ("id", JInt (-1))]]);
     ("options", JObj [])] in
  on_text (fun L tn => _parseEnumValue L tn 3 enm (Some "A")) "= -1 [deprecated = true];"
  = Ok enm'
  /\ on_text (fun L tn => _parseEnumValue L tn 3 enm (Some "A")) "= -1;" = Ok enm'
  /\ (exists id,
        int32 id
        /\ enm' = set enm "values"
                    (JArr (elements enm "values"
                           ++ [JObj [("name", of_token (Some "A")); ("id", JInt id)]])%list)).
Proof.
  cbv zeta. unfold on_text. cbv beta.
  set (tn := SpecTokenizer.tokenizer).
  set (enm := [("name", JStr "E"); ("values", JArr []); ("options", JObj [])]).
  set (st := SpecTokenizer.Tokenizer_new "= -1 [deprecated = true];").
  set (st' := SpecTokenizer.Tokenizer_new "= -1;").
  assert (Hopts : on_text (fun L tn => _parseEnumValue L tn 3 enm (Some "A"))
                    "= -1 [deprecated = true];"
                  = Ok [("name", JStr "E");
                        ("values", JArr [JObj [("name", JStr "A"); ("id", JInt (-1))]]);
                        ("options", JObj [])]).
  { unfold on_text. fold tn st.
    set (st2 := snd (read_tokens tn 2 st)).
    set (st3 := snd (next tn st2)).
    let r := eval vm_compute in
        (_parseFieldOptions SpecLang.lang tn 3
           [("name", JStr "E");
            ("values", JArr [JObj [("name", JStr "A"); ("id", JInt (-1))]]);
            ("options", JObj [])]
           [("options", JObj [])] (Some "[") st3) in
    lazymatch r with
    | Ok (?opt, ?s4) =>
        exact (f_equal result
                 (proj2 (proj2 (enum_value_options_are_discarded SpecLang.lang tn 3 enm
                                  (Some "A") st)
                           (Some "-1") (-1) [] st2 (snd (next tn s4))
                           eq_refl eq_refl eq_refl)
                    opt st3 s4 eq_refl ltac:(vm_compute; reflexivity) eq_refl))
    end. }
  split; [exact Hopts|].
  split.
  { exact (f_equal result
             (proj1 (proj2 (enum_value_options_are_discarded SpecLang.lang tn 3 enm
                              (Some "A") st')
                       (Some "-1") (-1) [] (snd (read_tokens tn 2 st'))
                       (snd (read_tokens tn 3 st')) eq_refl eq_refl eq_refl)
                eq_refl ltac:(discriminate))). }
  unfold on_text in Hopts. fold tn st in Hopts.
  destruct (_parseEnumValue SpecLang.lang tn 3 enm (Some "A") st) as [[e s]| |] eqn:E;
    try discriminate Hopts.
  cbn [result] in Hopts. injection Hopts as <-.
  exact (proj1 (enum_value_options_are_discarded SpecLang.lang tn 3 enm (Some "A") st)
           e s E).
Defined.

(** [enum E { A = 1; B = -2; A = 1; }]: three values, one of them twice. *)
Lemma enum_values_keep_source_order_witness :
  on_text (fun L tn => _parseEnum L tn 4 topLevel0 (Some "enum")) "E { A = 1; B = -2; A = 1; }"
  = Ok (set topLevel0 "enums"
          (JArr [JObj [("name", JStr "E");
                       ("values", JArr [JObj [("name", JStr "A"); ("id", JInt 1)];
                                        JObj [("name", JStr "B"); ("id", JInt (-2))];
                                        JObj [("name", JStr "A"); ("id", JInt 1)]]);
                       ("options", JObj [])]])).
Proof.
  unfold on_text.
  set (tn := SpecTokenizer.tokenizer).
  set (st0 := SpecTokenizer.Tokenizer_new "E { A = 1; B = -2; A = 1; }").
  set (st := snd (read_tokens tn 2 st0)).
  set (st1 := snd (read_tokens tn 12 st)).
  set (st2 := snd (next tn st1)).
  assert (Hvals : Forall (fun v : string * string * Z =>
                            let '(n, text, id) := v in
                            NAME SpecLang.lang n = true /\ n <> CLOSE SpecLang.lang
                            /\ n <> "option"
                            /\ forall s, _parseId SpecLang.lang tn (Some text) true s
                                         = Ok (id, s))
                    [("A", "1", 1); ("B", "-2", -2); ("A", "1", 1)]).
  { repeat constructor; try discriminate. }
  exact (f_equal result
           (enum_values_keep_source_order SpecLang.lang tn
              [("A", "1", 1); ("B", "-2", -2); ("A", "1", 1)] "E" 4 topLevel0 (Some "enum")
              [] st0 st st1 st2 st2 eq_refl eq_refl Hvals eq_refl eq_refl eq_refl
              ltac:(discriminate) eq_refl (le_n 4))).
Defined.

(** [enum E { A = 1; option b = c; B = -2 [x = 1]; }] in a message [M]. *)
Lemma enum_that_parses_is_well_formed_witness :
  let msg : object := [("name", JStr "M"); ("enums", JArr [])] in
  let enm : object :=
    [("name", JStr "E");
     ("values", JArr [JObj [("name", JStr "A"); ("id", JInt 1)];
                      JObj [("name", JStr "B"); ("id", JInt (-2))]]);
     ("options", JObj [("b", JStr "c")])] in
  on_text (fun L tn => _parseEnum L tn 5 msg (Some "enum"))
    "E { A = 1; option b = c; B = -2 [x = 1]; }"
  = Ok (set msg "enums" (JArr [JObj enm]))
  /\ exists enm0,
       set msg "enums" (JArr [JObj enm])
       = set msg "enums" (JArr (elements msg "enums" ++ [JObj enm0])%list)
       /\ get enm0 "name" = JStr "E"
       /\ NAME SpecLang.lang "E" = true
       /\ Forall (is_enum_value SpecLang.lang) (elements enm0 "values")
       /\ is_object (get enm0 "options") = true.
Proof.
  cbv zeta. unfold on_text.
  set (tn := SpecTokenizer.tokenizer).
  set (msg := [("name", JStr "M"); ("enums", JArr [])]).
  set (st := SpecTokenizer.Tokenizer_new "E { A = 1; option b = c; B = -2 [x = 1]; }").
  let r := eval vm_compute in (_parseEnum SpecLang.lang tn 5 msg (Some "enum") st) in
  lazymatch r with
  | Ok (?m, ?s) =>
      assert (Hrun : _parseEnum SpecLang.lang tn 5 msg (Some "enum") st = Ok (m, s))
        by (vm_compute; reflexivity)
  end.
  split; [exact (f_equal result Hrun)|].
  exact (enum_that_parses_is_well_formed SpecLang.lang tn 5 msg (Some "enum") st _ _ Hrun).
Defined.

(** [optional int32 x = 0 [default = 5];] in a message [M]. *)
Lemma field_that_parses_is_well_formed_witness :
  let msg : object := [("name", JStr "M"); ("fields", JArr [])] in
  let fld : object :=
    [("rule", JStr "optional"); ("options", JObj [("default", JInt 5)]);
     ("type", JStr "int32"); ("name", JStr "x"); ("id", JInt 0)] in
  on_text (fun L tn => _parseMessageField L tn SpecLang.ID_MIN SpecLang.ID_MAX 3 msg
                         (Some "optional"))
    "int32 x = 0 [default = 5];"
  = Ok (set msg "fields" (JArr [JObj fld]))
  /\ exists fld0 name id options,
       set msg "fields" (JArr [JObj fld])
       = set msg "fields" (JArr (elements msg "fields" ++ [JObj fld0])%list)
       /\ get fld0 "rule" = JStr "optional"
       /\ get fld0 "type" = JStr "int32"
       /\ (test (TYPE SpecLang.lang) (Some "int32")
           || test (TYPEREF SpecLang.lang) (Some "int32"))%bool = true
       /\ get fld0 "name" = of_token name
       /\ test (NAME SpecLang.lang) name = true
       /\ get fld0 "id" = JInt id
       /\ 0 <= id < 2 ^ 31
       /\ get fld0 "options" = JObj options.
Proof.
  cbv zeta. unfold on_text.
  set (tn := SpecTokenizer.tokenizer).
  set (msg := [("name", JStr "M"); ("fields", JArr [])]).
  set (st := SpecTokenizer.Tokenizer_new "int32 x = 0 [default = 5];").
  let r := eval vm_compute in
      (_parseMessageField SpecLang.lang tn SpecLang.ID_MIN SpecLang.ID_MAX 3 msg
         (Some "optional") st) in
  lazymatch r with
  | Ok (?m, ?s) =>
      assert (Hrun : _parseMessageField SpecLang.lang tn SpecLang.ID_MIN SpecLang.ID_MAX 3 msg
                       (Some "optional") st = Ok (m, s))
        by (vm_compute; reflexivity)
  end.
  split; [exact (f_equal result Hrun)|].
  exact (field_that_parses_is_well_formed SpecLang.lang tn SpecLang.ID_MIN SpecLang.ID_MAX
           3 msg (Some "optional") (Some "int32") st (snd (next tn st)) _ _
           eq_refl eq_refl Hrun).
Defined.

(** [message M { optional int32 x = 0; required Foo.Bar y = 536870912; }]:
    the ids 0 and 2^29 lie outside the range from [ID_MIN] to [ID_MAX]. *)
Lemma message_fields_keep_source_order_witness :
  let msg : object :=
    [("name", JStr "M");
     ("fields",
      JArr [JObj [("rule", JStr "optional"); ("options", JObj []); ("type", JStr "int32");
                  ("name", JStr "x"); ("id", JInt 0)];
            JObj [("rule", JStr "required"); ("options", JObj []); ("type", JStr "Foo.Bar");
                  ("name", JStr "y"); ("id", JInt 536870912)]]);
     ("enums", JArr []); ("messages", JArr []); ("options", JObj [])] in
  on_text (fun L tn => _parseMessage L tn SpecLang.ID_MIN SpecLang.ID_MAX 4 topLevel0 None
                         (Some "message"))
    "M { optional int32 x = 0; required Foo.Bar y = 536870912; }"
  = Ok (set topLevel0 "messages" (JArr [JObj msg]), None, msg)
  /\ SpecLang.ID_MIN = JInt 1
  /\ SpecLang.ID_MAX = JInt 536870911.
Proof.
  cbv zeta. unfold on_text.
  set (tn := SpecTokenizer.tokenizer).
  set (st0 := SpecTokenizer.Tokenizer_new
                "M { optional int32 x = 0; required Foo.Bar y = 536870912; }").
  set (st := snd (read_tokens tn 2 st0)).
  set (st1 := snd (read_tokens tn 12 st)).
  set (st2 := snd (next tn st1)).
  assert (Hfs : Forall (fun f : string * string * string * string * Z =>
                          let '(rule, type, n, text, id) := f in
                          RULE SpecLang.lang rule = true /\ rule <> CLOSE SpecLang.lang
                          /\ type <> "group"
                          /\ (TYPE SpecLang.lang type || TYPEREF SpecLang.lang type)%bool = true
                          /\ NAME SpecLang.lang n = true
                          /\ forall s, _parseId SpecLang.lang tn (Some text) false s
                                       = Ok (id, s))
                  [("optional", "int32", "x", "0", 0);
                   ("required", "Foo.Bar", "y", "536870912", 536870912)]).
  { repeat constructor; try discriminate. }
  split; [|split; reflexivity].
  exact (f_equal result
           (message_fields_keep_source_order SpecLang.lang tn SpecLang.ID_MIN SpecLang.ID_MAX
              [("optional", "int32", "x", "0", 0);
               ("required", "Foo.Bar", "y", "536870912", 536870912)]
              "M" (Some "message") 4 topLevel0 [] st0 st st1 st2 st2
              eq_refl eq_refl eq_refl Hfs eq_refl eq_refl eq_refl
              ltac:(discriminate) eq_refl (le_n 4))).
Defined.

(** [message M { message N { } optional group G = 1 { } extensions 1 to 2; }]. *)
Lemma message_that_parses_is_well_formed_witness :
  exists parent' msg,
    on_text (fun L tn => _parseMessage L tn SpecLang.ID_MIN SpecLang.ID_MAX 8 topLevel0
                           None (Some "message"))
      "M { message N { } optional group G = 1 { } extensions 1 to 2; }"
    = Ok (parent', None, msg)
    /\ parent' = set topLevel0 "messages" (JArr [JObj msg])
    /\ get msg "name" = JStr "M"
    /\ NAME SpecLang.lang "M" = true
    /\ get msg "isGroup" = JUndefined
    /\ has_message_tables msg = true
    /\ (@None object = None -> @None object = None /\ tok_eq (Some "message") "group" = false).
Proof.
  unfold on_text.
  set (tn := SpecTokenizer.tokenizer).
  set (st := SpecTokenizer.Tokenizer_new
               "M { message N { } optional group G = 1 { } extensions 1 to 2; }").
  let r := eval vm_compute in
      (_parseMessage SpecLang.lang tn SpecLang.ID_MIN SpecLang.ID_MAX 8 topLevel0 None
         (Some "message") st) in
  lazymatch r with
  | Ok (?p, ?f, ?m, ?s) =>
      assert (Hrun : _parseMessage SpecLang.lang tn SpecLang.ID_MIN SpecLang.ID_MAX 8
                       topLevel0 None (Some "message") st = Ok (p, f, m, s))
        by (vm_compute; reflexivity);
      exists p, m
  end.
  split; [exact (f_equal result Hrun)|].
  exact (message_that_parses_is_well_formed SpecLang.lang tn SpecLang.ID_MIN SpecLang.ID_MAX
           8 topLevel0 None (Some "message") st _ _ _ _ Hrun).
Defined.

(** [option a = TRUE;] stores false, the field option [[a = TRUE]] true. *)
Lemma boolean_option_value_case_witness :
  let fld : object := [("name", JStr "x"); ("options", JObj [])] in
  on_text (fun L tn => _parseOption L tn topLevel0 (Some "option")) "a = TRUE;"
  = Ok (set topLevel0 "options" (JObj [("a", JBool false)]))
  /\ on_text (fun L tn => _parseFieldOption L tn [] fld (Some "a")) "= TRUE]"
     = Ok (set fld "options" (JObj [("a", JBool true)]))
  /\ BOOL SpecLang.lang "TRUE" = true.
Proof.
  cbv zeta. unfold on_text.
  set (tn := SpecTokenizer.tokenizer).
  set (fld := [("name", JStr "x"); ("options", JObj [])]).
  set (st := SpecTokenizer.Tokenizer_new "a = TRUE;").
  set (st' := SpecTokenizer.Tokenizer_new "= TRUE]").
  pose proof (boolean_option_value_case SpecLang.lang tn topLevel0 [] fld (Some "option")
                "a" "TRUE" eq_refl ltac:(discriminate) ltac:(discriminate)
                ltac:(discriminate) eq_refl eq_refl) as [Hoption Hfield].
  split; [exact (f_equal result (Hoption [] st (snd (read_tokens tn 4 st)) eq_refl eq_refl))|].
  split; [|reflexivity].
  exact (f_equal result (Hfield [] st' (snd (read_tokens tn 2 st')) eq_refl eq_refl)).
Defined.

(** [option google.protobuf.1x = SPEED;], a name that is no type reference. *)
Lemma option_name_exemption_witness :
  let fld : object := [("name", JStr "x"); ("options", JObj [])] in
  TYPEREF SpecLang.lang "google.protobuf.1x" = false
  /\ on_text (fun L tn => _parseOption L tn topLevel0 (Some "option"))
       "google.protobuf.1x = SPEED;"
     = Ok (set topLevel0 "options" (JObj [("google.protobuf.1x", JStr "SPEED")]))
  /\ on_text (fun L tn => _parseFieldOption L tn [("name", JStr "M")] fld
                            (Some "google.protobuf.1x"))
       "= SPEED]"
     = Throw (Error "Illegal field option in message M#x at line 1: google.protobuf.1x").
Proof.
  cbv zeta. unfold on_text.
  set (tn := SpecTokenizer.tokenizer).
  set (fld := [("name", JStr "x"); ("options", JObj [])]).
  set (st := SpecTokenizer.Tokenizer_new "google.protobuf.1x = SPEED;").
  pose proof (option_name_exemption SpecLang.lang tn topLevel0 [("name", JStr "M")] fld
                (Some "option") "google.protobuf.1x" "SPEED" [] st
                (snd (read_tokens tn 4 st)) eq_refl ltac:(discriminate) ltac:(discriminate)
                ltac:(discriminate) eq_refl eq_refl eq_refl eq_refl eq_refl eq_refl)
    as [Hoption Hfield].
  split; [reflexivity|].
  split; [exact (f_equal result Hoption)|].
  exact (f_equal result (Hfield (SpecTokenizer.Tokenizer_new "= SPEED]"))).
Defined.

(** [option __proto__ = SPEED;] and the field option [[__proto__ = SPEED]]. *)
Lemma option_named_proto_is_dropped_witness :
  let fld : object := [("name", JStr "x"); ("options", JObj [("a", JInt 1)])] in
  on_text (fun L tn => _parseOption L tn topLevel0 (Some "option")) "__proto__ = SPEED;"
  = Ok topLevel0
  /\ result (_parseFieldOption SpecLang.lang SpecTokenizer.tokenizer [] fld (Some "__proto__")
               (snd (next SpecTokenizer.tokenizer
                       (SpecTokenizer.Tokenizer_new "__proto__ = SPEED;"))))
     = Ok fld
  /\ parse_proto "option __proto__ = SPEED;" = parse_proto "".
Proof.
  cbv zeta. unfold on_text.
  set (tn := SpecTokenizer.tokenizer).
  set (fld := [("name", JStr "x"); ("options", JObj [("a", JInt 1)])]).
  set (st := SpecTokenizer.Tokenizer_new "__proto__ = SPEED;").
  set (st1 := snd (next tn st)).
  set (st3 := snd (read_tokens tn 2 st1)).
  pose proof (option_named_proto_is_dropped SpecLang.lang tn topLevel0 [] fld (Some "option")
                "SPEED" [] [("a", JInt 1)] st st1 st3 (snd (next tn st3))
                eq_refl eq_refl eq_refl ltac:(discriminate) ltac:(discriminate)
                ltac:(discriminate) eq_refl eq_refl eq_refl eq_refl eq_refl eq_refl)
    as [Hoption Hfield].
  split; [exact (f_equal result Hoption)|].
  split; [exact (f_equal result Hfield) | vm_compute; reflexivity].
Defined.

(** [service S { option a = 1; rpc M (A) returns (B); }]. *)
Lemma service_that_parses_is_well_formed_witness :
  exists parent',
    on_text (fun L tn => _parseService L tn 4 topLevel0 (Some "service"))
      "S { option a = 1; rpc M (A) returns (B); }"
    = Ok parent'
    /\ exists svc rpc options,
         parent' = set topLevel0 "services" (JArr [JObj svc])
         /\ get svc "name" = JStr "S"
         /\ NAME SpecLang.lang "S" = true
         /\ get svc "rpc" = JObj rpc
         /\ get svc "options" = JObj options.
Proof.
  unfold on_text.
  set (tn := SpecTokenizer.tokenizer).
  set (st := SpecTokenizer.Tokenizer_new "S { option a = 1; rpc M (A) returns (B); }").
  let r := eval vm_compute in
      (_parseService SpecLang.lang tn 4 topLevel0 (Some "service") st) in
  lazymatch r with
  | Ok (?p, ?s) =>
      assert (Hrun : _parseService SpecLang.lang tn 4 topLevel0 (Some "service") st
                     = Ok (p, s))
        by (vm_compute; reflexivity);
      exists p
  end.
  split; [exact (f_equal result Hrun)|].
  exact (service_that_parses_is_well_formed SpecLang.lang tn 4 topLevel0 (Some "service") st
           _ _ Hrun).
Defined.



(** [extend a.X { optional int32 y = 100; }], and [extend a.X ;]. *)
Lemma extend_block_is_an_unnamed_message_witness :
  let ext : object :=
    [("ref", JStr "a.X");
     ("fields", JArr [JObj [("rule", JStr "optional"); ("options", JObj []);
                            ("type", JStr "int32"); ("name", JStr "y"); ("id", JInt 100)]])] in
  on_text (fun L tn => _parseExtend L tn SpecLang.ID_MIN SpecLang.ID_MAX 4 topLevel0
                         (Some "extend"))
    "a.X { optional int32 y = 100; }"
  = Ok (set topLevel0 "messages" (JArr [JObj ext]), ext)
  /\ (set topLevel0 "messages" (JArr [JObj ext])
      = set topLevel0 "messages" (JArr (elements topLevel0 "messages" ++ [JObj ext])%list)
      /\ get ext "ref" = JStr "a.X"
      /\ test (TYPEREF SpecLang.lang) (Some "a.X") = true
      /\ get ext "name" = JUndefined
      /\ exists fields, get ext "fields" = JArr fields)
  /\ on_text (fun L tn => _parseExtend L tn SpecLang.ID_MIN SpecLang.ID_MAX 4 topLevel0
                            (Some "extend"))
       "a.X ;"
     = Throw (Error "Illegal OPEN in extend undefined at line 1: ; ('{' expected)").
Proof.
  cbv zeta. unfold on_text.
  set (tn := SpecTokenizer.tokenizer).
  set (st := SpecTokenizer.Tokenizer_new "a.X { optional int32 y = 100; }").
  set (st' := SpecTokenizer.Tokenizer_new "a.X ;").
  let r := eval vm_compute in
      (_parseExtend SpecLang.lang tn SpecLang.ID_MIN SpecLang.ID_MAX 4 topLevel0
         (Some "extend") st) in
  lazymatch r with
  | Ok (?p, ?e, ?s) =>
      assert (Hrun : _parseExtend SpecLang.lang tn SpecLang.ID_MIN SpecLang.ID_MAX 4 topLevel0
                       (Some "extend") st = Ok (p, e, s))
        by (vm_compute; reflexivity)
  end.
  split; [exact (f_equal result Hrun)|].
  split.
  - exact (proj1 (extend_block_is_an_unnamed_message SpecLang.lang tn SpecLang.ID_MIN
                    SpecLang.ID_MAX 4 topLevel0 (Some "extend") st) _ _ _ Hrun).
  - exact (f_equal result
             (proj2 (extend_block_is_an_unnamed_message SpecLang.lang tn SpecLang.ID_MIN
                       SpecLang.ID_MAX 3 topLevel0 (Some "extend") st')
                (Some "a.X") (Some ";") (snd (read_tokens tn 2 st')) eq_refl eq_refl
                ltac:(discriminate))).
Defined.

(** [extend X { optional group G = 1 { } }]. *)
Lemma group_needs_a_messages_array_witness :
  let ext : object := [("ref", JStr "X"); ("fields", JArr [])] in
  is_ok (_parseMessageField SpecLang.lang SpecTokenizer.tokenizer SpecLang.ID_MIN
           SpecLang.ID_MAX 3 ext (Some "optional")
           (SpecTokenizer.Tokenizer_new "group G = 1 { } }")) = false
  /\ on_text (fun L tn => _parseMessageField L tn SpecLang.ID_MIN SpecLang.ID_MAX 3 ext
                            (Some "optional"))
       "group G = 1 { } }"
     = Throw TypeError
  /\ on_text (fun L tn => _parseExtend L tn SpecLang.ID_MIN SpecLang.ID_MAX 5 topLevel0
                            (Some "extend"))
       "X { optional group G = 1 { } }"
     = Throw TypeError.
Proof.
  cbv zeta. unfold on_text.
  set (tn := SpecTokenizer.tokenizer).
  set (ext := [("ref", JStr "X"); ("fields", JArr [])]).
  set (st00 := SpecTokenizer.Tokenizer_new "X { optional group G = 1 { } }").
  set (st := snd (read_tokens tn 3 st00)).
  set (st1 := snd (next tn st)).
  set (st4 := snd (read_tokens tn 3 st1)).
  set (st5 := snd (next tn st4)).
  set (sf := SpecTokenizer.Tokenizer_new "group G = 1 { } }").
  set (sf1 := snd (next tn sf)).
  set (sf4 := snd (read_tokens tn 3 sf1)).
  set (sf5 := snd (next tn sf4)).
  set (grp0 := [("name", JStr "G"); ("isGroup", JBool true); ("fields", JArr []);
                ("enums", JArr []); ("messages", JArr []); ("options", JObj [])]).
  assert (Hno : forall messages, get ext "messages" <> JArr messages)
    by (intros messages; discriminate).
  split.
  { exact (proj1 (group_needs_a_messages_array SpecLang.lang tn SpecLang.ID_MIN
                    SpecLang.ID_MAX 3 (Some "optional") sf sf1 eq_refl) ext Hno). }
  split.
  { let r := eval vm_compute in
        (_parseMessage_body SpecLang.lang tn SpecLang.ID_MIN SpecLang.ID_MAX 1 grp0 sf5) in
    lazymatch r with
    | Ok (?g, ?s6) =>
        exact (f_equal result
                 (proj1 (proj2 (group_needs_a_messages_array SpecLang.lang tn SpecLang.ID_MIN
                                  SpecLang.ID_MAX 1 (Some "optional") sf sf1 eq_refl)
                           "G" (Some "1") 1 g sf4 sf5 s6 eq_refl eq_refl eq_refl
                           ltac:(discriminate) eq_refl ltac:(vm_compute; reflexivity))
                    ext Hno))
    end. }
  let r := eval vm_compute in
      (_parseMessage_body SpecLang.lang tn SpecLang.ID_MIN SpecLang.ID_MAX 1 grp0 st5) in
  lazymatch r with
  | Ok (?g, ?s6) =>
      exact (f_equal result
               (proj2 (proj2 (group_needs_a_messages_array SpecLang.lang tn SpecLang.ID_MIN
                                SpecLang.ID_MAX 1 (Some "optional") st st1 eq_refl)
                         "G" (Some "1") 1 g st4 st5 s6 eq_refl eq_refl eq_refl
                         ltac:(discriminate) eq_refl ltac:(vm_compute; reflexivity))
                  topLevel0 (Some "extend") "X" st00 eq_refl eq_refl ltac:(discriminate)
                  eq_refl))
  end.
Defined.

(** A file with every kind of top-level statement. *)
Lemma parse_returns_the_documented_record_witness :
  exists r,
    parse_proto ("syntax = 'proto2'; package p; import 'q.proto'; option a = 1; "
                 ++ "message M { } enum E { } service S { } extend M { }")
    = Ok r
    /\ keys r = ["package"; "messages"; "enums"; "imports"; "options"; "services"]
    /\ get r "name" = JUndefined
    /\ is_schema r = true.
Proof.
  unfold parse_proto, on_text.
  set (tn := SpecTokenizer.tokenizer).
  set (text := "syntax = 'proto2'; package p; import 'q.proto'; option a = 1; "
               ++ "message M { } enum E { } service S { } extend M { }").
  set (st := SpecTokenizer.Tokenizer_new text).
  set (fuel := (2 + 2 * String.length text)%nat).
  let r := eval vm_compute in
      (parse SpecLang.lang tn SpecLang.ID_MIN SpecLang.ID_MAX fuel st) in
  lazymatch r with
  | Ok (?p, ?s) =>
      assert (Hrun : parse SpecLang.lang tn SpecLang.ID_MIN SpecLang.ID_MAX fuel st
                     = Ok (p, s))
        by (vm_compute; reflexivity);
      exists p
  end.
  split; [exact (f_equal result Hrun)|].
  exact (parse_returns_the_documented_record SpecLang.lang tn SpecLang.ID_MIN SpecLang.ID_MAX
           fuel st _ _ Hrun).
Defined.

(** [package p;] ends well; [package p; x] fails at [x]. *)
Lemma parse_ends_at_the_first_falsy_or_unknown_token_witness :
  on_text (fun L tn => parse L tn SpecLang.ID_MIN SpecLang.ID_MAX 5) "package p;"
  = Ok [("package", JStr "p"); ("messages", JArr []); ("enums", JArr []);
        ("imports", JArr []); ("options", JObj []); ("services", JArr [])]
  /\ on_text (fun L tn => parse L tn SpecLang.ID_MIN SpecLang.ID_MAX 5) "package p; x"
     = Throw (Error "Illegal token at line 1: x").
Proof.
  unfold on_text.
  set (tn := SpecTokenizer.tokenizer).
  set (st0 := SpecTokenizer.Tokenizer_new "package p;").
  set (st0' := SpecTokenizer.Tokenizer_new "package p; x").
  assert (Hreach : reaches SpecLang.lang tn SpecLang.ID_MIN SpecLang.ID_MAX 5
                     (topLevel0, true, st0) 4
                     (set topLevel0 "package" (JStr "p"), true, snd (read_tokens tn 3 st0))).
  { eapply reaches_statement with (token := Some "package") (st1 := snd (next tn st0));
      [reflexivity | reflexivity | vm_compute; reflexivity | apply reaches_here]. }
  assert (Hreach' : reaches SpecLang.lang tn SpecLang.ID_MIN SpecLang.ID_MAX 5
                      (topLevel0, true, st0') 4
                      (set topLevel0 "package" (JStr "p"), true, snd (read_tokens tn 3 st0'))).
  { eapply reaches_statement with (token := Some "package") (st1 := snd (next tn st0'));
      [reflexivity | reflexivity | vm_compute; reflexivity | apply reaches_here]. }
  split.
  - exact (f_equal result
             (proj1 (parse_ends_at_the_first_falsy_or_unknown_token SpecLang.lang tn
                       SpecLang.ID_MIN SpecLang.ID_MAX 5 st0 3 _ _ _ None
                       (snd (read_tokens tn 4 st0)) Hreach eq_refl) eq_refl)).
  - refine (f_equal result
              (proj2 (parse_ends_at_the_first_falsy_or_unknown_token SpecLang.lang tn
                        SpecLang.ID_MIN SpecLang.ID_MAX 5 st0' 3 _ _ _ (Some "x")
                        (snd (read_tokens tn 4 st0')) Hreach' eq_refl) eq_refl _)).
    intros kw Hkw. unfold top_level_keywords in Hkw. simpl in Hkw.
    intuition (subst; discriminate).
Defined.

(** [import 'a.proto'; message B { } enum E { }] read into an object that
    holds a message [A]. *)
Lemma statements_only_append_witness :
  let topLevel := set topLevel0 "messages" (JArr [JObj [("name", JStr "A")]]) in
  let st := SpecTokenizer.Tokenizer_new "import 'a.proto'; message B { } enum E { }" in
  exists r st',
    parse_loop SpecLang.lang SpecTokenizer.tokenizer SpecLang.ID_MIN SpecLang.ID_MAX 8
      topLevel true st
    = Ok (r, st')
    /\ (exists log,
           appends SpecLang.lang SpecTokenizer.tokenizer SpecLang.ID_MIN SpecLang.ID_MAX 8
             (topLevel, true, st) log (r, st')
           /\ forall k, In k ["messages"; "enums"; "imports"; "services"] ->
                        elements r k = (elements topLevel k ++ appended_to k log)%list)
    /\ (get topLevel "package" <> JNull -> get r "package" = get topLevel "package")
    /\ elements r "imports" = [JStr "a.proto"]
    /\ elements r "messages" = [JObj [("name", JStr "A")];
                                JObj [("name", JStr "B"); ("fields", JArr []);
                                      ("enums", JArr []); ("messages", JArr []);
                                      ("options", JObj [])]]
    /\ elements r "enums" = [JObj [("name", JStr "E"); ("values", JArr []);
                                   ("options", JObj [])]].
Proof.
  cbv zeta.
  set (tn := SpecTokenizer.tokenizer).
  set (topLevel := set topLevel0 "messages" (JArr [JObj [("name", JStr "A")]])).
  set (st := SpecTokenizer.Tokenizer_new "import 'a.proto'; message B { } enum E { }").
  let r := eval vm_compute in
      (parse_loop SpecLang.lang tn SpecLang.ID_MIN SpecLang.ID_MAX 8 topLevel true st) in
  lazymatch r with
  | Ok (?p, ?s) =>
      assert (Hrun : parse_loop SpecLang.lang tn SpecLang.ID_MIN SpecLang.ID_MAX 8 topLevel
                       true st = Ok (p, s))
        by (vm_compute; reflexivity);
      exists p, s
  end.
  split; [exact Hrun|].
  destruct (statements_only_append SpecLang.lang tn SpecLang.ID_MIN SpecLang.ID_MAX 8
              topLevel true st _ _ Hrun) as [Happend Hpackage].
  split; [exact Happend|]. split; [exact Hpackage|].
  repeat split; reflexivity.
Defined.

